(** * Offline mirror of an ePortfolio presentation: identifier parsing,
      resource index, link rewriting and CSS asset resolution

    Shallow embedding of [d2lvalence/d2lepoexport_presentation.py].

    - Python [str] values are lists of characters; the characters are the
      code points 0..255, and [isdigit], [isalnum] and [isspace] follow
      Python's tables on that range.
    - [s.find(sub)] is an integer in [Z] ([-1] when [sub] does not occur),
      and slices take [Z] bounds with Python's rule for negative and
      out-of-range indices, because the program adds to the result of
      [find] without testing it.
    - An exception that leaves a function is a [Raise] result.
    - The [fileDict] is a record with one list per key.  The functions
      that append to it are run on the fileDict as it is before the call
      and give the fileDict as the call leaves it with the call's result,
      so that what a call has appended before it raises is kept.
    - A parsed document (BeautifulSoup) is a forest of tags and text nodes;
      [find_all] lists tags in document order. *)

From Stdlib Require Import List ZArith Ascii String Bool Lia.
Import ListNotations.

Open Scope string_scope.
Open Scope list_scope.
Open Scope Z_scope.

(** ** Python strings *)

Definition str := list ascii.

Definition lit (s : string) : list ascii := list_ascii_of_string s.
Coercion lit : string >-> list.

Module PyStr.

Definition code (c : ascii) : N := N_of_ascii c.

Definition between (lo hi : N) (c : ascii) : bool :=
  (N.leb lo (code c) && N.leb (code c) hi)%bool.

(** [c.isdigit()]: the ASCII digits and the superscripts U+00B2, U+00B3,
    U+00B9. *)
Definition isdigit (c : ascii) : bool :=
  (between 48 57 c || between 178 179 c || between 185 185 c)%bool.

(** [c.isalnum()] on the code points 0..255. *)
Definition isalnum (c : ascii) : bool :=
  (between 48 57 c || between 65 90 c || between 97 122 c
   || between 170 170 c || between 178 179 c || between 181 181 c
   || between 185 186 c || between 188 190 c || between 192 214 c
   || between 216 246 c || between 248 255 c)%bool.

(** [c.isspace()] on the code points 0..255. *)
Definition isspace (c : ascii) : bool :=
  (between 9 13 c || between 28 32 c || between 133 133 c
   || between 160 160 c)%bool.

Definition len (s : str) : Z := Z.of_nat (List.length s).

Fixpoint eqb (s t : str) : bool :=
  match s, t with
  | [], [] => true
  | c :: s', d :: t' => (Ascii.eqb c d && eqb s' t')%bool
  | _, _ => false
  end.

(** [x in l] for a list of strings. *)
Definition mem (x : str) (l : list str) : bool := existsb (eqb x) l.

(** [s.startswith(sub)] *)
Fixpoint starts_with (s sub : str) : bool :=
  match sub, s with
  | [], _ => true
  | d :: sub', c :: s' => (Ascii.eqb c d && starts_with s' sub')%bool
  | _ :: _, [] => false
  end.

(** [s.find(sub)], counting from offset [i]: the lowest index at which
    [sub] starts, [-1] if there is none. *)
Fixpoint find_at (s sub : str) (i : Z) : Z :=
  if starts_with s sub then i
  else match s with
       | [] => -1
       | _ :: s' => find_at s' sub (i + 1)
       end.

Definition find (s sub : str) : Z := find_at s sub 0.

(** [s.rfind(sub)]: the highest index at which [sub] starts. *)
Fixpoint rfind_at (s sub : str) (i : Z) : Z :=
  match s with
  | [] => if starts_with [] sub then i else -1
  | _ :: s' =>
      let r := rfind_at s' sub (i + 1) in
      if 0 <=? r then r else if starts_with s sub then i else -1
  end.

Definition rfind (s sub : str) : Z := rfind_at s sub 0.

(** A slice bound: a negative bound counts from the end, and the result
    is clamped to [0 .. len s]. *)
Definition bound (s : str) (i : Z) : nat :=
  let i' := if i <? 0 then i + len s else i in
  Z.to_nat (Z.min (Z.max i' 0) (len s)).

(** [s[lo:]], [s[:hi]] and [s[lo:hi]] *)
Definition slice_from (s : str) (lo : Z) : str := skipn (bound s lo) s.
Definition slice_to (s : str) (hi : Z) : str := firstn (bound s hi) s.
Definition slice (s : str) (lo hi : Z) : str :=
  firstn (bound s hi - bound s lo) (skipn (bound s lo) s).

(** [s.find(sub, start)] *)
Definition find_from (s sub : str) (start : Z) : Z :=
  let start' := if start <? 0 then Z.max (start + len s) 0 else start in
  if len s <? start' then -1
  else let r := find (skipn (Z.to_nat start') s) sub in
       if r <? 0 then -1 else start' + r.

(** [s.strip()] *)
Fixpoint lstrip (s : str) : str :=
  match s with
  | c :: s' => if isspace c then lstrip s' else s
  | [] => []
  end.

Definition strip (s : str) : str := rev (lstrip (rev (lstrip s))).

End PyStr.

Import PyStr.

(** ** Exceptions *)

Inductive exn : Type :=
| IndexError
| KeyError
| TypeError
| AttributeError
| HTTPError
| NameError
| OtherError.

Inductive result (A : Type) : Type :=
| Ok (a : A)
| Raise (e : exn).

Arguments Ok {A} a.
Arguments Raise {A} e.

Definition bind {A B : Type} (r : result A) (k : A -> result B) : result B :=
  match r with
  | Ok a => k a
  | Raise e => Raise e
  end.

Notation "x <- r ;; k" := (bind r (fun x => k))
  (at level 61, r at next level, right associativity).

(** [s[i]]: IndexError outside [-len s .. len s - 1]. *)
Definition index (s : str) (i : Z) : result ascii :=
  let i' := if i <? 0 then i + len s else i in
  if ((i' <? 0) || (len s <=? i'))%bool then Raise IndexError
  else match nth_error s (Z.to_nat i') with
       | Some c => Ok c
       | None => Raise IndexError
       end.

(** ** IdentifierParser: [get_page_id], [get_epo_id] *)

(** The loop
<<
    nextCharacter = pageId[endIndex]
    while nextCharacter.isdigit():
        endIndex += 1
        nextCharacter = pageId[endIndex]
>>
    [rest] is [pageId[endIndex:]]: reading [pageId[endIndex]] is reading
    the head of [rest], and raises IndexError when [rest] is empty. *)
Fixpoint scan_digits (rest : str) (endIndex : Z) : result Z :=
  match rest with
  | [] => Raise IndexError
  | nextCharacter :: rest' =>
      if isdigit nextCharacter then scan_digits rest' (endIndex + 1)
      else Ok endIndex
  end.

Definition get_page_id (onclick objectId : str) : result str :=
  let beginIndex := find onclick objectId + len objectId + 1 in
  let pageId := slice_from onclick beginIndex in
  endIndex <- scan_digits pageId 0 ;;
  Ok (slice_to pageId endIndex).

Definition get_epo_id (href : str) : result str :=
  let beginIndex := find href "contextId=" + len "contextId=" in
  let epoId := slice_from href beginIndex in
  endIndex <- scan_digits epoId 0 ;;
  Ok (slice_to epoId endIndex).


(** ** The fileDict *)

Record fileDict : Type := mkFileDict {
  pageUrls : list str;
  pageFileNames : list str;
  pageIds : list str;
  fileUrls : list str;
  fileIds : list str;
  fileNames : list str;
  cssUrls : list str;
  cssFileNames : list str;
  imgUrls : list str;
  imgFileNames : list str
}.

Definition make_file_dict : fileDict :=
  mkFileDict [] [] [] [] [] [] [] [] [] [].

(** [fileDict[key].append(x)], one list at a time. *)
Definition append_fileIds (epoId : str) (fd : fileDict) : fileDict :=
  mkFileDict (pageUrls fd) (pageFileNames fd) (pageIds fd)
    (fileUrls fd) (fileIds fd ++ [epoId]) (fileNames fd)
    (cssUrls fd) (cssFileNames fd) (imgUrls fd) (imgFileNames fd).

Definition append_fileUrls (url : str) (fd : fileDict) : fileDict :=
  mkFileDict (pageUrls fd) (pageFileNames fd) (pageIds fd)
    (fileUrls fd ++ [url]) (fileIds fd) (fileNames fd)
    (cssUrls fd) (cssFileNames fd) (imgUrls fd) (imgFileNames fd).

Definition append_fileNames (fileName : str) (fd : fileDict) : fileDict :=
  mkFileDict (pageUrls fd) (pageFileNames fd) (pageIds fd)
    (fileUrls fd) (fileIds fd) (fileNames fd ++ [fileName])
    (cssUrls fd) (cssFileNames fd) (imgUrls fd) (imgFileNames fd).

Definition append_cssUrls (css : str) (fd : fileDict) : fileDict :=
  mkFileDict (pageUrls fd) (pageFileNames fd) (pageIds fd)
    (fileUrls fd) (fileIds fd) (fileNames fd)
    (cssUrls fd ++ [css]) (cssFileNames fd) (imgUrls fd) (imgFileNames fd).

Definition append_cssFileNames (fileName : str) (fd : fileDict) : fileDict :=
  mkFileDict (pageUrls fd) (pageFileNames fd) (pageIds fd)
    (fileUrls fd) (fileIds fd) (fileNames fd)
    (cssUrls fd) (cssFileNames fd ++ [fileName]) (imgUrls fd) (imgFileNames fd).

Definition append_imgUrls (img : str) (fd : fileDict) : fileDict :=
  mkFileDict (pageUrls fd) (pageFileNames fd) (pageIds fd)
    (fileUrls fd) (fileIds fd) (fileNames fd)
    (cssUrls fd) (cssFileNames fd) (imgUrls fd ++ [img]) (imgFileNames fd).

(** The appends of one complete entry, together: an embedded asset with
    its id, URL and file name, a stylesheet with its URL and file name, a
    formatting image with its URL. *)
Definition append_file (fd : fileDict) (epoId url fileName : str) : fileDict :=
  append_fileNames fileName (append_fileUrls url (append_fileIds epoId fd)).

Definition append_css (fd : fileDict) (css fileName : str) : fileDict :=
  append_cssFileNames fileName (append_cssUrls css fd).

Definition append_img (fd : fileDict) (img : str) : fileDict :=
  append_imgUrls img fd.

(** *** The fileDict as the state of the collectors *)

(** The collectors are handed the fileDict and append to its lists; what
    a call has appended stays in the fileDict when the call raises.  A
    [collector] is run on the fileDict as it is before the call, and
    gives the fileDict as the call leaves it together with the value the
    call returns or the exception it raises. *)
Definition collector (A : Type) : Type := fileDict -> fileDict * result A.

Definition ret {A : Type} (x : A) : collector A := fun fd => (fd, Ok x).

Definition bindC {A B : Type} (m : collector A) (k : A -> collector B)
  : collector B :=
  fun fd =>
    match m fd with
    | (fd', Ok x) => k x fd'
    | (fd', Raise e) => (fd', Raise e)
    end.

Notation "x <~ m ;; k" := (bindC m (fun x => k))
  (at level 61, m at next level, right associativity).

Notation "m ;;; k" := (bindC m (fun _ => k))
  (at level 61, right associativity).

(** An expression that does not touch the fileDict. *)
Definition lift {A : Type} (r : result A) : collector A := fun fd => (fd, r).

(** [fileDict[key]] *)
Definition read {A : Type} (key : fileDict -> A) : collector A :=
  fun fd => (fd, Ok (key fd)).

(** [fileDict[key].append(x)] *)
Definition update (append : fileDict -> fileDict) : collector unit :=
  fun fd => (append fd, Ok tt).

(** [for x in l: body(x)]: the first exception ends the loop, and leaves
    the fileDict as the turns before it and the failing turn made it. *)
Fixpoint iterate {A : Type} (body : A -> collector unit) (l : list A)
  : collector unit :=
  match l with
  | [] => ret tt
  | x :: l' => body x ;;; iterate body l'
  end.

(** What a call gives its caller: the fileDict it returns, or the
    exception it raises. *)
Definition returned (o : fileDict * result unit) : result fileDict :=
  match o with
  | (fd, Ok _) => Ok fd
  | (_, Raise e) => Raise e
  end.

(** The same for one turn of a loop, from the fileDict [fd]. *)
Definition value_of {A : Type} (body : A -> collector unit) (fd : fileDict)
  (x : A) : result fileDict :=
  returned (body x fd).

(** ** Parsed documents *)

(** The attribute dictionary of a tag, in insertion order. *)
Definition attrs := list (str * str).

Fixpoint get_attr (a : attrs) (k : str) : option str :=
  match a with
  | [] => None
  | (k', v) :: a' => if eqb k' k then Some v else get_attr a' k
  end.

(** [tag[k] = v]: the value of an existing key is replaced in place, a new
    key goes to the end. *)
Fixpoint set_attr (a : attrs) (k v : str) : attrs :=
  match a with
  | [] => [(k, v)]
  | (k', v') :: a' =>
      if eqb k' k then (k', v) :: a' else (k', v') :: set_attr a' k v
  end.

(** [tag[k]]: KeyError when the tag has no attribute [k]. *)
Definition getitem (a : attrs) (k : str) : result str :=
  match get_attr a k with
  | Some v => Ok v
  | None => Raise KeyError
  end.

Unset Elimination Schemes.
Inductive node : Type :=
| NavigableString (s : str)
| Tag (name : str) (a : attrs) (contents : list node).
Set Elimination Schemes.

Definition soup := list node.

(** The tags of a document in document order, each with its name and its
    attributes. *)
Fixpoint tags_of (n : node) : list (str * attrs) :=
  match n with
  | NavigableString _ => []
  | Tag name a contents => (name, a) :: flat_map tags_of contents
  end.

Definition tags (d : soup) : list (str * attrs) := flat_map tags_of d.

(** [soup.find_all(...)]: the attribute dictionaries of the selected tags. *)
Definition find_all (sel : str -> attrs -> bool) (d : soup) : list attrs :=
  map snd (filter (fun t => sel (fst t) (snd t)) (tags d)).

(** Selections used by the program. *)
Definition named (n : str) : str -> attrs -> bool :=
  fun name _ => eqb name n.

Definition named_in (ns : list str) : str -> attrs -> bool :=
  fun name _ => mem name ns.

Definition attr_is (a : attrs) (k v : str) : bool :=
  match get_attr a k with
  | Some v' => eqb v' v
  | None => false
  end.

Definition named_with (n k v : str) : str -> attrs -> bool :=
  fun name a => (eqb name n && attr_is a k v)%bool.

(** The whitespace-separated words of an attribute value: [class] is a
    multi-valued attribute, and a class selection matches any of them. *)
Fixpoint words (s cur : str) : list str :=
  match s with
  | [] => match cur with [] => [] | _ => [rev cur] end
  | c :: s' =>
      if isspace c
      then match cur with [] => words s' [] | _ => rev cur :: words s' [] end
      else words s' (c :: cur)
  end.

Definition has_class (a : attrs) (cls : str) : bool :=
  match get_attr a "class" with
  | Some v => mem cls (words v [])
  | None => false
  end.

Definition named_with_class (n cls : str) : str -> attrs -> bool :=
  fun name a => (eqb name n && has_class a cls)%bool.

(** Sequencing over a list, stopping at the first exception. *)
Definition mapM {A B : Type} (f : A -> result B) : list A -> result (list B) :=
  fix go (l : list A) : result (list B) :=
    match l with
    | [] => Ok []
    | x :: l' =>
        match f x with
        | Raise e => Raise e
        | Ok y => match go l' with
                  | Raise e => Raise e
                  | Ok l'' => Ok (y :: l'')
                  end
        end
    end.

Fixpoint foldM {A S : Type} (f : S -> A -> result S) (l : list A) (s : S)
  : result S :=
  match l with
  | [] => Ok s
  | x :: l' => s' <- f s x ;; foldM f l' s'
  end.

(** [for tag in soup.find_all(sel): body(tag)], where [body] assigns
    attributes of [tag] only: the tags are visited in document order and
    the first exception ends the loop. *)
Fixpoint for_each_node (sel : str -> attrs -> bool)
  (body : attrs -> result attrs) (n : node) : result node :=
  match n with
  | NavigableString _ => Ok n
  | Tag name a contents =>
      match (if sel name a then body a else Ok a) with
      | Raise e => Raise e
      | Ok a' =>
          match mapM (for_each_node sel body) contents with
          | Raise e => Raise e
          | Ok contents' => Ok (Tag name a' contents')
          end
      end
  end.

Definition for_each (sel : str -> attrs -> bool)
  (body : attrs -> result attrs) (d : soup) : result soup :=
  mapM (for_each_node sel body) d.

(** What the loop [for_each sel body] does to one tag. *)
Definition visit (sel : str -> attrs -> bool) (body : attrs -> result attrs)
  (name : str) (a : attrs) : result attrs :=
  if sel name a then body a else Ok a.

(** [t'] is the tag [t] after the loop. *)
Definition visited (sel : str -> attrs -> bool) (body : attrs -> result attrs)
  (t t' : str * attrs) : Prop :=
  fst t' = fst t /\ visit sel body (fst t) (snd t) = Ok (snd t').

(** ** The program *)

(** The value of [DOMAIN] in the source; the module asks for it to be
    customized. *)
Definition DOMAIN_source : str := "https://uwosh-beta.courses.wisconsin.edu".

(** The state [update_css_file] leaves behind: the lines written to the
    output file, what was printed, and the downloads done, each with the
    address and the name of the local file. *)
Record css_state : Type := mkCssState {
  written : list str;
  printed : list exn;
  retrieved : list (str * str)
}.

(** The module imports [eportfolio] and binds no name [d2lepoexport]:
    evaluating [d2lepoexport.get_ep_object_properties(uc, epoId)] raises
    NameError at the name, for every [epoId]. *)
Definition d2lepoexport_unbound (epoId : str) : result str := Raise NameError.

Section Program.

(** The configured source domain. *)
Variable DOMAIN : str.

(** What evaluating
    [d2lepoexport.get_ep_object_properties(uc, epoId).FileName] does, for
    each [epoId].  The collectors take it as a parameter, so that a
    statement can say what holds whatever it does; in the module as it
    is this is [d2lepoexport_unbound]. *)
Variable get_ep_object_properties : str -> result str.

(** [urllib.parse.urlparse(url).path] *)
Variable urlparse_path : str -> str.

(** [urllib.request.urlretrieve(address, fileName)] *)
Variable urlretrieve : str -> str -> result unit.

(** *** ResourceCollector *)

(** The body of the loop of [get_embedded_object], for the anchor [a]:
<<
  href = str(a['href'])
  if href.find('d2lfile') > 0:
      epoId = get_epo_id(href)
      if epoId not in fileDict['fileIds']:
          fileDict['fileIds'].append(epoId)
          fileDict['fileUrls'].append(DOMAIN + href)
          fileName = d2lepoexport.get_ep_object_properties(uc, epoId).\
              FileName.strip()
          fileDict['fileNames'].append(fileName)
>>
    The id and the URL are appended before the lookup is made. *)
Definition get_embedded_object_body (a : attrs) : collector unit :=
  href <~ lift (getitem a "href") ;;
  if 0 <? find href "d2lfile" then
    epoId <~ lift (get_epo_id href) ;;
    ids <~ read fileIds ;;
    if negb (mem epoId ids) then
      update (append_fileIds epoId) ;;;
      update (append_fileUrls (DOMAIN ++ href)) ;;;
      fileName <~ lift (get_ep_object_properties epoId) ;;
      update (append_fileNames (strip fileName))
    else ret tt
  else ret tt.

Definition get_embedded_object (d : soup) : collector unit :=
  iterate get_embedded_object_body (find_all (named "a") d).

(** The local file name of an address, as [get_css] and
    [update_css_file] compute it:
<<
  fileName = css[css.rfind("/") + 1:]
  if fileName.find("?") > 0:
      fileName = fileName[:fileName.find("?")]
>> *)
Definition tail_name (css : str) : str :=
  let fileName := slice_from css (rfind css "/" + 1) in
  if 0 <? find fileName "?" then slice_to fileName (find fileName "?")
  else fileName.

(** The body of the loop of [get_css], for the element [link]. *)
Definition get_css_body (link : attrs) : collector unit :=
  type <~ lift (getitem link "type") ;;
  if eqb type "text/css" then
    href <~ lift (getitem link "href") ;;
    let css := DOMAIN ++ href in
    urls <~ read cssUrls ;;
    if negb (mem css urls) then
      update (append_cssUrls css) ;;;
      update (append_cssFileNames (tail_name css))
    else ret tt
  else ret tt.

Definition get_css (d : soup) : collector unit :=
  iterate get_css_body (find_all (named "link") d).

(** The body of the loop of [get_img], for the image [img]:
<<
  if img['src'].find('d2lFile') < 0:
      img = DOMAIN + img['src']
      if img not in fileDict['imgUrls']:
          fileDict['imgUrls'].append(img)
  else:
      address = DOMAIN + img['src']
      epoId = get_epo_id(img['src'])
      if epoId not in fileDict['fileIds']:
          fileDict['fileIds'].append(epoId)
          fileDict['fileUrls'].append(address)
          fileName = d2lepoexport.get_ep_object_properties(uc, epoId).\
              FileName.strip()
          fileDict['fileNames'].append(fileName)
>> *)
Definition get_img_body (img : attrs) : collector unit :=
  src <~ lift (getitem img "src") ;;
  if find src "d2lFile" <? 0 then
    let img := DOMAIN ++ src in
    urls <~ read imgUrls ;;
    if negb (mem img urls) then update (append_imgUrls img)
    else ret tt
  else
    let address := DOMAIN ++ src in
    epoId <~ lift (get_epo_id src) ;;
    ids <~ read fileIds ;;
    if negb (mem epoId ids) then
      update (append_fileIds epoId) ;;;
      update (append_fileUrls address) ;;;
      fileName <~ lift (get_ep_object_properties epoId) ;;
      update (append_fileNames (strip fileName))
    else ret tt.

Definition get_img (d : soup) : collector unit :=
  iterate get_img_body (find_all (named "img") d).

(** The body of the loop of [populate_file_dict] for one fetched page. *)
Definition collect_page (d : soup) : collector unit :=
  get_embedded_object d ;;;
  get_css d ;;;
  get_img d.

(** *** LinkRewriter *)

(** [index] is the [index=True] argument: the document rewritten is the
    root document. *)

(** One turn of the inner loop of [update_file_urls]. *)
Definition update_file_urls_step (index : bool) (item : attrs)
  (entry : str * str) : attrs :=
  let '(fileId, fileName) := entry in
  let item :=
    match get_attr item "href" with
    | Some href =>
        if 0 <? find href fileId then
          if index
          then set_attr item "href" ("./content/" ++ fileName)
          else set_attr item "href" ("../content/" ++ fileName)
        else item
    | None => item
    end in
  match get_attr item "src" with
  | Some src =>
      if 0 <? find src fileId then
        if index
        then set_attr item "src" ("./content/" ++ fileName)
        else set_attr item "src" ("../content/" ++ fileName)
      else item
  | None => item
  end.

Definition update_file_urls_item (fd : fileDict) (index : bool)
  (item : attrs) : result attrs :=
  Ok (fold_left (update_file_urls_step index)
        (combine (fileIds fd) (fileNames fd)) item).

Definition update_file_urls (d : soup) (fd : fileDict) (index : bool)
  : result soup :=
  for_each (named_in [lit "a"; lit "img"]) (update_file_urls_item fd index) d.

(** One turn of the inner loop of [update_css_urls]. *)
Definition update_css_urls_step (index : bool) (a : attrs)
  (entry : str * str) : result attrs :=
  let '(cssUrl, cssFileName) := entry in
  href <- getitem a "href" ;;
  if 0 <? find cssUrl href then
    if index
    then Ok (set_attr a "href" ("./formatting/" ++ cssFileName))
    else Ok (set_attr a "href" ("../formatting/" ++ cssFileName))
  else Ok a.

Definition update_css_urls_item (fd : fileDict) (index : bool) (a : attrs)
  : result attrs :=
  foldM (update_css_urls_step index)
    (combine (cssUrls fd) (cssFileNames fd)) a.

Definition update_css_urls (d : soup) (fd : fileDict) (index : bool)
  : result soup :=
  for_each (named_with "link" "type" "text/css")
    (update_css_urls_item fd index) d.

(** One turn of the inner loop of [update_image_urls]. *)
Definition update_image_urls_step (index : bool) (img : attrs)
  (entry : str * str) : result attrs :=
  let '(imgUrl, imgFileName) := entry in
  src <- getitem img "src" ;;
  if find src "d2lFile" <? 0 then
    if eqb src (urlparse_path imgUrl) then
      if index
      then Ok (set_attr img "src" ("./formatting/" ++ imgFileName))
      else Ok (set_attr img "src" ("../formatting/" ++ imgFileName))
    else Ok img
  else Ok img.

Definition update_image_urls_item (fd : fileDict) (index : bool)
  (img : attrs) : result attrs :=
  foldM (update_image_urls_step index)
    (combine (imgUrls fd) (imgFileNames fd)) img.

Definition update_image_urls (d : soup) (fd : fileDict) (index : bool)
  : result soup :=
  for_each (named "img") (update_image_urls_item fd index) d.

(** [div.contents[0]['href'] = "#"] on the contents of a div. *)
Definition set_first_href (contents : list node) : list node :=
  match contents with
  | Tag name a c :: rest => Tag name (set_attr a "href" "#") c :: rest
  | _ => contents
  end.

(** The first loop of [update_page_urls]:
<<
  for div in soup.find_all('div', {'class': "d_t_nav_current_page"}):
      div.contents[0]['href'] = "#"
>>
    [div.contents[0]] raises IndexError on a div without contents, and
    the assignment raises TypeError when the first node is a string.  A
    div is tested when it is reached, before its descendants; its first
    node gets the attribute once the descendants are done, which gives
    the same document because no selection of this loop reads [href]. *)
Fixpoint mark_current_node (n : node) : result node :=
  match n with
  | NavigableString _ => Ok n
  | Tag name a contents =>
      if named_with_class "div" "d_t_nav_current_page" name a then
        match contents with
        | [] => Raise IndexError
        | NavigableString _ :: _ => Raise TypeError
        | Tag _ _ _ :: _ =>
            match mapM mark_current_node contents with
            | Raise e => Raise e
            | Ok contents' => Ok (Tag name a (set_first_href contents'))
            end
        end
      else
        match mapM mark_current_node contents with
        | Raise e => Raise e
        | Ok contents' => Ok (Tag name a contents')
        end
  end.

Definition mark_current_page (d : soup) : result soup :=
  mapM mark_current_node d.

(** One turn of the inner loop of the second loop of
    [update_page_urls]. *)
Definition update_page_urls_step (index : bool) (a : attrs)
  (entry : str * str) : result attrs :=
  let '(pageId, pageFileName) := entry in
  onclick <- getitem a "onclick" ;;
  if 0 <? find onclick pageId then
    if index then
      Ok (set_attr a "href" ("./pages/" ++ pageFileName))
    else if (negb index && negb (eqb pageFileName "index.html"))%bool
    then Ok (set_attr a "href" pageFileName)
    else Ok (set_attr a "href" ("../" ++ pageFileName))
  else Ok a.

Definition update_page_urls_item (fd : fileDict) (index : bool) (a : attrs)
  : result attrs :=
  foldM (update_page_urls_step index)
    (combine (pageIds fd) (pageFileNames fd)) a.

(** The second loop of [update_page_urls]. *)
Definition update_nav_anchors (d : soup) (fd : fileDict) (index : bool)
  : result soup :=
  for_each (named_with "a" "href" "javascript://")
    (update_page_urls_item fd index) d.

Definition update_page_urls (d : soup) (fd : fileDict) (index : bool)
  : result soup :=
  d <- mark_current_page d ;;
  update_nav_anchors d fd index.

(** [soup.script.decompose()]: the first script tag of the document, in
    document order, is removed with everything in it. *)
Inductive found : Type :=
| NotFound
| Gone
| Inside (n : node).

Definition decompose_in (f : node -> found) : list node -> option (list node) :=
  fix go (l : list node) : option (list node) :=
    match l with
    | [] => None
    | c :: l' =>
        match f c with
        | Gone => Some l'
        | Inside c' => Some (c' :: l')
        | NotFound => match go l' with
                      | Some l'' => Some (c :: l'')
                      | None => None
                      end
        end
    end.

Fixpoint decompose_node (n : node) : found :=
  match n with
  | NavigableString _ => NotFound
  | Tag name a contents =>
      if eqb name "script" then Gone
      else match decompose_in decompose_node contents with
           | Some contents' => Inside (Tag name a contents')
           | None => NotFound
           end
  end.

Definition decompose_script (d : soup) : option soup :=
  decompose_in decompose_node d.

(** [for script in soup.find_all('script'): soup.script.decompose()]:
    one removal per script tag found before the loop; [soup.script] is
    [None] once no script tag is left, and calling [decompose] on it
    raises AttributeError. *)
Fixpoint strip_loop (n : nat) (d : soup) : result soup :=
  match n with
  | O => Ok d
  | S n' =>
      match decompose_script d with
      | None => Raise AttributeError
      | Some d' => strip_loop n' d'
      end
  end.

Definition strip_script (d : soup) : result soup :=
  strip_loop (List.length (find_all (named "script") d)) d.

(** [update_page], from the parsed document to the document written. *)
Definition update_page (d : soup) (fd : fileDict) (index : bool)
  : result soup :=
  d <- update_file_urls d fd index ;;
  d <- update_css_urls d fd index ;;
  d <- update_image_urls d fd index ;;
  d <- update_page_urls d fd index ;;
  strip_script d.

(** *** CssAssetResolver *)

(** [while url[count] != "/": count += 1], with [rest = url[count:]]:
    IndexError when the text ends before a "/". *)
Fixpoint scan_slash (rest : str) (count : Z) : result Z :=
  match rest with
  | [] => Raise IndexError
  | c :: rest' =>
      if Ascii.eqb c "/" then Ok count else scan_slash rest' (count + 1)
  end.

(** [while not address[-1].isalnum(): address = address[:-1]], on the
    reversed address: IndexError when no character is left. *)
Fixpoint trim_rev (r : str) : result str :=
  match r with
  | [] => Raise IndexError
  | c :: r' => if isalnum c then Ok r else trim_rev r'
  end.

Definition trim_tail (address : str) : result str :=
  r <- trim_rev (rev address) ;; Ok (rev r).

(** The address of one [url(...)] argument, lines 446-457. *)
Definition resolve_css_url (cssUrl url : str) : result str :=
  c <- index url 0 ;;
  if Ascii.eqb c "/" then Ok (DOMAIN ++ url)
  else if isalnum c then
    let url := "/" ++ url in
    Ok (slice_to cssUrl (rfind cssUrl "/") ++ url)
  else
    count <- scan_slash url 0 ;;
    trim_tail (DOMAIN ++ slice_from url count).

(** The text between "url(" and the next ")" of a line. *)
Definition url_argument (line : str) : str :=
  let beginIndex := find line "url(" + 4 in
  let endIndex := find_from line ")" beginIndex in
  slice line beginIndex endIndex.

(** The line with [newAddress] in the place of the argument. *)
Definition substitute (line newAddress : str) : str :=
  let beginIndex := find line "url(" + 4 in
  let endIndex := find_from line ")" beginIndex in
  slice_to line beginIndex ++ newAddress ++ slice_from line endIndex.

(** One turn of the loop over the lines of the CSS file.  Lines are
    held as decoded text. *)
Definition update_css_line (cssUrl : str) (st : css_state) (line : str)
  : result css_state :=
  let contains_link := find line "url(" in
  if negb (contains_link =? -1) then
    address <- resolve_css_url cssUrl (url_argument line) ;;
    let newAddress := tail_name address in
    st <- match urlretrieve address newAddress with
          | Ok _ =>
              Ok (mkCssState (written st) (printed st)
                    (retrieved st ++ [(address, newAddress)]))
          | Raise HTTPError =>
              Ok (mkCssState (written st) (printed st ++ [HTTPError])
                    (retrieved st))
          | Raise e => Raise e
          end ;;
    let line := substitute line newAddress in
    Ok (mkCssState (written st ++ [line]) (printed st) (retrieved st))
  else
    Ok (mkCssState (written st ++ [line]) (printed st) (retrieved st)).

(** [update_css_file(cssUrl, temp, fileName)]: [temp] is the list of the
    lines of the file fetched, and the lines written go to [fileName]. *)
Definition update_css_file (cssUrl : str) (temp : list str)
  : result css_state :=
  foldM (update_css_line cssUrl) temp (mkCssState [] [] []).

End Program.


(** ** Vocabulary of the statements *)

(** [sub] occurs in [s]. *)
Definition occurs (sub s : str) : Prop :=
  exists pre post, s = pre ++ sub ++ post.

(** The first occurrence of [sub] in [s] starts right after [pre]. *)
Definition first_at (sub s pre : str) : Prop :=
  (exists post, s = pre ++ sub ++ post) /\
  forall pre' post', s = pre' ++ sub ++ post' ->
                     (List.length pre <= List.length pre')%nat.

(** The offset of the first occurrence, counted in characters. *)
Fixpoint first_occ (s sub : str) : option nat :=
  if starts_with s sub then Some O
  else match s with
       | [] => None
       | _ :: s' => option_map S (first_occ s' sub)
       end.

(** The longest prefix of digits, and what follows it. *)
Fixpoint digit_run (s : str) : str :=
  match s with
  | c :: s' => if isdigit c then c :: digit_run s' else []
  | [] => []
  end.

Fixpoint after_digit_run (s : str) : str :=
  match s with
  | c :: s' => if isdigit c then after_digit_run s' else s
  | [] => []
  end.

(** What a scan for digits gives on [s]: the digits in front of the first
    character that is not one, IndexError when there is no such character. *)
Definition digits_before_stop (s : str) : result str :=
  match after_digit_run s with
  | [] => Raise IndexError
  | _ :: _ => Ok (digit_run s)
  end.




(** Two fetchers for the examples: every download succeeds, every
    download ends in an HTTP error. *)
Definition fetch_ok (address fileName : str) : result unit := Ok tt.
Definition fetch_http_error (address fileName : str) : result unit :=
  Raise HTTPError.

(** A character that [isalnum] rejects. *)
Definition not_alnum (c : ascii) : bool := negb (isalnum c).

Definition str_eq_dec : forall s t : str, {s = t} + {s <> t} :=
  list_eq_dec ascii_dec.

(** How many entries of a table of the fileDict are [x]. *)
Definition entries (x : str) (table : list str) : nat :=
  count_occ str_eq_dec table x.

(** Every identity key of [fd1] is a key of [fd2]. *)
Definition extends (fd1 fd2 : fileDict) : Prop :=
  incl (fileIds fd1) (fileIds fd2) /\
  incl (cssUrls fd1) (cssUrls fd2) /\
  incl (imgUrls fd1) (imgUrls fd2).

(** The three tables of the embedded assets have one row per asset. *)
Definition files_aligned (fd : fileDict) : Prop :=
  List.length (fileUrls fd) = List.length (fileIds fd) /\
  List.length (fileNames fd) = List.length (fileIds fd).

(** Example documents. *)
Definition doc_two_stylesheets : soup :=
  [Tag "head" []
     [Tag "link" [(lit "type", lit "text/css"); (lit "href", lit "/css/a.css?v=1")] [];
      Tag "link" [(lit "type", lit "text/css"); (lit "href", lit "/css/a.css?v=2")] []]].

Definition doc_two_images : soup :=
  [Tag "body" []
     [Tag "img" [(lit "src", lit "/img/bg.png?v=1")] [];
      Tag "img" [(lit "src", lit "/img/bg.png?v=2")] []]].

(** One embedded object, linked from an anchor and shown by an image. *)
Definition doc_same_object : soup :=
  [Tag "body" []
     [Tag "a" [(lit "href", lit "/d2l/eP/viewFile.d2lfile?contextId=9001&v=1")]
        [NavigableString "report"];
      Tag "img" [(lit "src", lit "/d2l/eP/inline.d2lFile?contextId=9001&w=200")] []]].

(** A page without embedded object: an ordinary anchor, a stylesheet
    and a formatting image. *)
Definition doc_formatting_page : soup :=
  [Tag "html" []
     [Tag "head" []
        [Tag "link" [(lit "type", lit "text/css"); (lit "href", lit "/css/theme.css")] []];
      Tag "body" []
        [Tag "a" [(lit "href", lit "/d2l/home")] [NavigableString "home"];
         Tag "img" [(lit "src", lit "/d2l/img/bg.png")] []]]].

(** An anchor without [href], a link without [type], an image without
    [src]. *)
Definition doc_bare_anchor : soup :=
  [Tag "body" [] [Tag "a" [(lit "name", lit "top")] []]].

Definition doc_bare_link : soup :=
  [Tag "head" [] [Tag "link" [(lit "rel", lit "icon"); (lit "href", lit "/favicon.ico")] []]].

Definition doc_bare_img : soup :=
  [Tag "body" [] [Tag "img" [(lit "alt", lit "logo")] []]].

(** A page with one formatting image, and the fileDict [get_img] builds
    from it. *)
Definition doc_formatting_image : soup :=
  [Tag "body" [] [Tag "img" [(lit "src", lit "/d2l/img/bg.png")] []]].

Definition fd_formatting_image : fileDict :=
  mkFileDict [] [] [] [] [] [] [] []
    [lit "https://uwosh-beta.courses.wisconsin.edu/d2l/img/bg.png"] [].

(** The reference the page-link pass writes for the page file
    [pageFileName]. *)
Definition page_href (index : bool) (pageFileName : str) : str :=
  if index then "./pages/" ++ pageFileName
  else if (negb index && negb (eqb pageFileName "index.html"))%bool
       then pageFileName
       else "../" ++ pageFileName.

(** The file name of the last page whose id occurs in [onclick] after its
    first character, going through the page tables in order. *)
Definition last_match (onclick : str) (entries : list (str * str))
  (found : option str) : option str :=
  fold_left (fun found '(pageId, pageFileName) =>
               if 0 <? find onclick pageId then Some pageFileName else found)
            entries found.

(** The rule of the page-link pass for one tag, [t] before the second loop
    of [update_page_urls] and [t'] after it. *)
Definition nav_rule (fd : fileDict) (index : bool) (t t' : str * attrs) : Prop :=
  forall (onclick pageId pageFileName : str) (before after : list (str * str)),
    fst t = lit "a" ->
    get_attr (snd t) "href" = Some (lit "javascript://") ->
    get_attr (snd t) "onclick" = Some onclick ->
    combine (pageIds fd) (pageFileNames fd) =
    before ++ (pageId, pageFileName) :: after ->
    0 < find onclick pageId ->
    (forall p n, In (p, n) after -> find onclick p <= 0) ->
    get_attr (snd t') "href" = Some (page_href index pageFileName).

(** The index of the example of the specification, and a page of it. *)
Definition fd_two_pages : fileDict :=
  mkFileDict [] [lit "index.html"; lit "reflections.html"]
    [lit "1234"; lit "5678"] [] [] [] [] [] [] [].

Definition doc_menu : soup :=
  [Tag "div" [(lit "class", lit "d_t_nav")]
     [Tag "a" [(lit "href", lit "javascript://");
               (lit "onclick", lit "return GotoPage(1234,0);")]
        [NavigableString "Home"];
      Tag "a" [(lit "href", lit "javascript://");
               (lit "onclick", lit "return GotoPage(1234,5678);")]
        [NavigableString "Reflections"]]].

(** An index in which one page id is the beginning of another. *)
Definition fd_overlapping_ids : fileDict :=
  mkFileDict [] [lit "index.html"; lit "a.html"; lit "b.html"]
    [lit "1234"; lit "5678"; lit "567"] [] [] [] [] [] [] [].

Definition doc_one_link : soup :=
  [Tag "a" [(lit "href", lit "javascript://");
            (lit "onclick", lit "return GotoPage(1234,5678);")]
     [NavigableString "A"]].

(** A fileDict with one formatting image, its file name included. *)
Definition fd_one_image : fileDict :=
  mkFileDict [] [] [] [] [] [] [] []
    [lit "https://uwosh-beta.courses.wisconsin.edu/img/bg.png"] [lit "bg.png"].

(** A stand-in for [urlparse(url).path] on the URLs of the examples, which
    have the shape scheme://host/path?query: the text from the first "/"
    after the host up to the query. *)
Definition path_of_url (url : str) : str :=
  let rest := slice_from url (find url "://" + 3) in
  let path := if find rest "/" <? 0 then [] else slice_from rest (find rest "/") in
  if find path "?" <? 0 then path else slice_to path (find path "?").

(** The fileDict after each of them has been collected. *)
Definition fd_two_stylesheets : fileDict :=
  mkFileDict [] [] [] [] [] []
    [lit "https://uwosh-beta.courses.wisconsin.edu/css/a.css?v=1";
     lit "https://uwosh-beta.courses.wisconsin.edu/css/a.css?v=2"]
    [lit "a.css"; lit "a.css"] [] [].

Definition fd_two_images : fileDict :=
  mkFileDict [] [] [] [] [] [] [] []
    [lit "https://uwosh-beta.courses.wisconsin.edu/img/bg.png?v=1";
     lit "https://uwosh-beta.courses.wisconsin.edu/img/bg.png?v=2"] [].

(** The fileDict [get_embedded_object] leaves behind on
    [doc_same_object]: the id and the URL of the object, and no name. *)
Definition fd_object_without_name : fileDict :=
  mkFileDict [] [] []
    [lit "https://uwosh-beta.courses.wisconsin.edu/d2l/eP/viewFile.d2lfile?contextId=9001&v=1"]
    [lit "9001"] [] [] [] [] [].

Definition fd_formatting_page : fileDict :=
  mkFileDict [] [] [] [] [] []
    [lit "https://uwosh-beta.courses.wisconsin.edu/css/theme.css"]
    [lit "theme.css"]
    [lit "https://uwosh-beta.courses.wisconsin.edu/d2l/img/bg.png"] [].

(** *** Rewriting a document twice *)

(** No pattern the passes search for matches the value [v]: no file id
    occurs in it after its first character, it occurs in no stylesheet URL
    after the first character of the URL, and it is the path of no
    formatting image. *)
Definition stable_value (urlparse_path : str -> str) (fd : fileDict) (v : str)
  : bool :=
  (forallb (fun e : str * str => negb (0 <? find v (fst e)))
     (combine (fileIds fd) (fileNames fd))
   && forallb (fun e : str * str => negb (0 <? find (fst e) v))
        (combine (cssUrls fd) (cssFileNames fd))
   && forallb (fun e : str * str =>
                 negb ((find v "d2lFile" <? 0) && eqb v (urlparse_path (fst e))))
        (combine (imgUrls fd) (imgFileNames fd)))%bool.

(** The references the passes write. *)
Definition content_href (index : bool) (fileName : str) : str :=
  if index then "./content/" ++ fileName else "../content/" ++ fileName.

Definition formatting_href (index : bool) (fileName : str) : str :=
  if index then "./formatting/" ++ fileName else "../formatting/" ++ fileName.

Definition written_values (fd : fileDict) (index : bool) : list str :=
  lit "#"
  :: map (fun e : str * str => content_href index (snd e))
       (combine (fileIds fd) (fileNames fd))
  ++ map (fun e : str * str => formatting_href index (snd e))
       (combine (cssUrls fd) (cssFileNames fd))
  ++ map (fun e : str * str => formatting_href index (snd e))
       (combine (imgUrls fd) (imgFileNames fd))
  ++ map (fun e : str * str => page_href index (snd e))
       (combine (pageIds fd) (pageFileNames fd)).

(** No reference the passes write is matched by a pattern they search
    for. *)
Definition paths_stable (urlparse_path : str -> str) (fd : fileDict)
  (index : bool) : bool :=
  forallb (stable_value urlparse_path fd) (written_values fd index).

(** The div that marks the current page in the navigation menu. *)
Definition is_current (name : str) (a : attrs) : bool :=
  named_with_class "div" "d_t_nav_current_page" name a.

(** A test of the first node of a div: [h] on its name and attributes when
    it is a tag, [otherwise] when the div is empty or begins with a
    string. *)
Definition head_is (h : str -> attrs -> bool) (otherwise : bool)
  (contents : list node) : bool :=
  match contents with
  | Tag name a _ :: _ => h name a
  | _ => otherwise
  end.

(** Every div of the current page passes the test of its first node. *)
Fixpoint divs_ok (h : str -> attrs -> bool) (otherwise : bool) (n : node)
  : bool :=
  match n with
  | NavigableString _ => true
  | Tag name a contents =>
      ((negb (is_current name a) || head_is h otherwise contents)
       && forallb (divs_ok h otherwise) contents)%bool
  end.

Definition not_script (name : str) (a : attrs) : bool :=
  negb (eqb name "script").

Definition href_is_hash (name : str) (a : attrs) : bool :=
  attr_is a "href" "#".

(** No div of the current page has a script tag as its first node. *)
Definition heads_ok (n : node) : bool := divs_ok not_script true n.

(** The first node of every div of the current page is a tag whose [href]
    is "#". *)
Definition marked (n : node) : bool := divs_ok href_is_hash false n.

(** [a'] is [a] after some assignments of values to [href] and [src], all
    of them values that no pattern matches. *)
Inductive rewrites (good : str -> Prop) : attrs -> attrs -> Prop :=
| rewrites_refl (a : attrs) : rewrites good a a
| rewrites_set (a a' : attrs) (k w : str) :
    rewrites good a a' -> k = lit "href" \/ k = lit "src" -> good w ->
    rewrites good a (set_attr a' k w).

(** Two embedded files, the name of the second containing the id of the
    first, and a page that links to the second. *)
Definition fd_name_with_id : fileDict :=
  mkFileDict [] [] []
    [lit "https://uwosh-beta.courses.wisconsin.edu/d2l/eP/a.d2lfile?contextId=9001";
     lit "https://uwosh-beta.courses.wisconsin.edu/d2l/eP/b.d2lfile?contextId=77"]
    [lit "9001"; lit "77"] [lit "a.pdf"; lit "x9001.pdf"] [] [] [] [].

Definition doc_file_link : soup :=
  [Tag "a" [(lit "href", lit "/d2l/eP/b.d2lfile?contextId=77")]
     [NavigableString "notes"]].

(** A fileDict whose written references no pattern matches, and a page. *)
Definition fd_site : fileDict :=
  mkFileDict
    [lit "https://uwosh-beta.courses.wisconsin.edu/d2l/eP/view?id=1234";
     lit "https://uwosh-beta.courses.wisconsin.edu/d2l/eP/view?id=1234&pageId=5678"]
    [lit "index.html"; lit "reflections.html"]
    [lit "1234"; lit "5678"]
    [lit "https://uwosh-beta.courses.wisconsin.edu/d2l/eP/b.d2lfile?contextId=9001"]
    [lit "9001"] [lit "notes.pdf"]
    [lit "https://uwosh-beta.courses.wisconsin.edu/css/theme.css?v=3"]
    [lit "theme.css"] [] [].

Definition doc_site_page : soup :=
  [Tag "html" []
     [Tag "head" []
        [Tag "link" [(lit "type", lit "text/css"); (lit "href", lit "/css/theme.css?v=3")] [];
         Tag "script" [(lit "src", lit "/js/nav.js")] []];
      Tag "body" []
        [Tag "div" [(lit "class", lit "d_t_nav_current_page")]
           [Tag "a" [(lit "href", lit "javascript://");
                     (lit "onclick", lit "return GotoPage(1234,0);")]
              [NavigableString "Home"]];
         Tag "a" [(lit "href", lit "javascript://");
                  (lit "onclick", lit "return GotoPage(1234,5678);")]
           [NavigableString "Reflections"];
         Tag "a" [(lit "href", lit "/d2l/eP/b.d2lfile?contextId=9001")]
           [NavigableString "notes"];
         Tag "script" [] [NavigableString "init();"]]]].

(** [if test(tag[k]): tag[k] = w], for a tag that may lack [k]. *)
Definition assign_if (k : str) (test : str -> bool) (w : str) (a : attrs)
  : attrs :=
  match get_attr a k with
  | Some v => if test v then set_attr a k w else a
  | None => a
  end.

(** The same when [tag[k]] is read without a test for its presence. *)
Definition assign_when (k : str) (test : str -> bool) (w : str) (a : attrs)
  : result attrs :=
  v <- getitem a k ;;
  if test v then Ok (set_attr a k w) else Ok a.

(** No file id occurs, after its first character, in the [href] or the
    [src] of the tag. *)
Definition files_quiet (fd : fileDict) (a : attrs) : Prop :=
  forall k v, k = lit "href" \/ k = lit "src" -> get_attr a k = Some v ->
    forall e, In e (combine (fileIds fd) (fileNames fd)) ->
              (0 <? find v (fst e)) = false.

(** The [href] of the tag occurs in no stylesheet URL. *)
Definition css_quiet (fd : fileDict) (a : attrs) : Prop :=
  combine (cssUrls fd) (cssFileNames fd) = [] \/
  exists v, get_attr a "href" = Some v /\
    forall e, In e (combine (cssUrls fd) (cssFileNames fd)) ->
              (0 <? find (fst e) v) = false.

(** The [src] of the tag is the path of no formatting image. *)
Definition img_quiet (urlparse_path : str -> str) (fd : fileDict) (a : attrs)
  : Prop :=
  combine (imgUrls fd) (imgFileNames fd) = [] \/
  exists v, get_attr a "src" = Some v /\
    forall e, In e (combine (imgUrls fd) (imgFileNames fd)) ->
      ((find v "d2lFile" <? 0) && eqb v (urlparse_path (fst e)))%bool = false.

(** The tag is one that no pass of [update_page] changes. *)
Definition settled (urlparse_path : str -> str) (fd : fileDict) (index : bool)
  (t : str * attrs) : Prop :=
  (named_in [lit "a"; lit "img"] (fst t) (snd t) = true ->
   files_quiet fd (snd t)) /\
  (named_with "link" "type" "text/css" (fst t) (snd t) = true ->
   css_quiet fd (snd t)) /\
  (named "img" (fst t) (snd t) = true -> img_quiet urlparse_path fd (snd t)) /\
  visit (named_with "a" "href" "javascript://") (update_page_urls_item fd index)
    (fst t) (snd t) = Ok (snd t).

(** No pattern the passes search for matches [v]. *)
Definition stable (urlparse_path : str -> str) (fd : fileDict) (v : str)
  : Prop :=
  stable_value urlparse_path fd v = true.

(** The number of script tags in a list of tags. *)
Definition scripts (l : list (str * attrs)) : nat :=
  List.length (filter (fun t => named "script" (fst t) (snd t)) l).

(** What the removal of one script tag keeps: the tags left are tags of
    the document, there are fewer script tags, and a test of the divs of
    the current page that held still holds, when no such div begins with a
    script tag. *)
Definition removal (l l' : list node) : Prop :=
  incl (tags l') (tags l) /\
  (scripts (tags l') < scripts (tags l))%nat /\
  forall h otherwise,
    forallb heads_ok l = true ->
    forallb (divs_ok h otherwise) l = true ->
    forallb (divs_ok h otherwise) l' = true.

(** The page of the example after [update_page], for a page that is not
    the root. *)
Definition doc_site_page_rewritten : soup :=
  [Tag "html" []
     [Tag "head" []
        [Tag "link" [(lit "type", lit "text/css");
                     (lit "href", lit "../formatting/theme.css")] []];
      Tag "body" []
        [Tag "div" [(lit "class", lit "d_t_nav_current_page")]
           [Tag "a" [(lit "href", lit "#");
                     (lit "onclick", lit "return GotoPage(1234,0);")]
              [NavigableString "Home"]];
         Tag "a" [(lit "href", lit "reflections.html");
                  (lit "onclick", lit "return GotoPage(1234,5678);")]
           [NavigableString "Reflections"];
         Tag "a" [(lit "href", lit "../content/notes.pdf")]
           [NavigableString "notes"]]]].

(** The file name [download_presentation] gives to a formatting image
    (lines 286-288):
<<
    fileName = imgUrl[imgUrl.rfind("/"): ]
    if fileName.find("?") > 0:
        fileName = fileName[: fileName.find("?")]
>> *)
Definition img_file_name (imgUrl : str) : str :=
  let fileName := slice_from imgUrl (rfind imgUrl "/") in
  if 0 <? find fileName "?" then slice_to fileName (find fileName "?")
  else fileName.

(** The stylesheet tables have one row per stylesheet. *)
Definition css_aligned (fd : fileDict) : Prop :=
  List.length (cssFileNames fd) = List.length (cssUrls fd).

(** The invariant of the asset tables: no key twice, one row per key. *)
Definition tables_ok (fd : fileDict) : Prop :=
  NoDup (fileIds fd) /\ NoDup (cssUrls fd) /\ NoDup (imgUrls fd) /\
  files_aligned fd /\ css_aligned fd.

(** The asset tables as a call of a collector leaves them: no key twice,
    one URL per file id and one file name per stylesheet; one file name
    per file id when the call returns, and at most the last one missing
    when it raises. *)
Definition tables_left (fd : fileDict) (r : result unit) : Prop :=
  NoDup (fileIds fd) /\ NoDup (cssUrls fd) /\ NoDup (imgUrls fd) /\
  css_aligned fd /\
  List.length (fileUrls fd) = List.length (fileIds fd) /\
  match r with
  | Ok _ => List.length (fileNames fd) = List.length (fileIds fd)
  | Raise _ =>
      List.length (fileNames fd) = List.length (fileIds fd) \/
      S (List.length (fileNames fd)) = List.length (fileIds fd)
  end.

(** The tables the collectors of a page leave alone. *)
Definition same_pages (fd fd' : fileDict) : Prop :=
  pageUrls fd' = pageUrls fd /\ pageFileNames fd' = pageFileNames fd /\
  pageIds fd' = pageIds fd /\ imgFileNames fd' = imgFileNames fd.

(** The fileDict [fd] after a call that ends as [o]. *)
Definition left_in_order (fd : fileDict) (o : fileDict * result unit) : Prop :=
  tables_left (fst o) (snd o) /\ same_pages fd (fst o).

(** The number of lines of a CSS file that hold a "url(" marker. *)
Definition url_lines (temp : list str) : nat :=
  List.length (filter (fun line => negb (find line "url(" =? -1)) temp).

(** The number of script tags that are not inside another script tag. *)
Fixpoint outer_scripts_of (n : node) : nat :=
  match n with
  | NavigableString _ => O
  | Tag name a contents =>
      if eqb name "script" then 1%nat
      else list_sum (map outer_scripts_of contents)
  end.

Definition outer_scripts (d : soup) : nat :=
  list_sum (map outer_scripts_of d).

(** The document with every script tag, and what is in it, left out. *)
Fixpoint without_scripts_of (n : node) : list node :=
  match n with
  | NavigableString s => [NavigableString s]
  | Tag name a contents =>
      if eqb name "script" then []
      else [Tag name a (flat_map without_scripts_of contents)]
  end.

Definition without_scripts (d : soup) : soup :=
  flat_map without_scripts_of d.

(** What [update_css_file] writes for one line of the file fetched. *)
Definition css_line_written (DOMAIN cssUrl line out : str) : Prop :=
  (find line "url(" = -1 -> out = line) /\
  (find line "url(" <> -1 ->
   exists address,
     resolve_css_url DOMAIN cssUrl (url_argument line) = Ok address /\
     out = substitute line (tail_name address)).

(** ** Strings: [find], slices *)

Lemma eqb_eq (s t : str) : eqb s t = true <-> s = t.
Proof.
  revert t; induction s as [|c s IH]; intros [|d t]; simpl;
    try (split; [discriminate | congruence]); try tauto.
  rewrite andb_true_iff, Ascii.eqb_eq, IH. split.
  - intros [-> ->]; reflexivity.
  - intros H; injection H; auto.
Qed.

Lemma eqb_refl (s : str) : eqb s s = true.
Proof. apply eqb_eq; reflexivity. Qed.

Lemma eqb_neq (s t : str) : eqb s t = false <-> s <> t.
Proof.
  split.
  - intros H E. apply eqb_eq in E. congruence.
  - intros H. destruct (eqb s t) eqn:E; [apply eqb_eq in E; contradiction | reflexivity].
Qed.

Lemma mem_In (x : str) (l : list str) : mem x l = true <-> In x l.
Proof.
  unfold mem. rewrite existsb_exists. split.
  - intros [y [Hy E]]. apply eqb_eq in E. subst; assumption.
  - intros H. exists x. split; [assumption | apply eqb_refl].
Qed.

Lemma mem_app (x : str) (l1 l2 : list str) :
  mem x (l1 ++ l2) = (mem x l1 || mem x l2)%bool.
Proof. unfold mem. apply existsb_app. Qed.

Lemma starts_with_app (sub post : str) : starts_with (sub ++ post) sub = true.
Proof.
  induction sub as [|d sub IH]; simpl.
  - destruct post; reflexivity.
  - rewrite Ascii.eqb_refl. exact IH.
Qed.

Lemma starts_with_inv (s sub : str) :
  starts_with s sub = true -> exists post, s = sub ++ post.
Proof.
  revert s; induction sub as [|d sub IH]; intros s H.
  - exists s; reflexivity.
  - destruct s as [|c s]; simpl in H; [discriminate|].
    apply andb_true_iff in H. destruct H as [Hc Hs].
    apply Ascii.eqb_eq in Hc. subst d.
    destruct (IH _ Hs) as [post ->]. exists post; reflexivity.
Qed.

Lemma starts_with_nil (s : str) : starts_with s [] = true.
Proof. destruct s; reflexivity. Qed.

Lemma find_at_first_occ (s sub : str) (i : Z) :
  find_at s sub i =
  match first_occ s sub with
  | Some k => i + Z.of_nat k
  | None => -1
  end.
Proof.
  revert i; induction s as [|c s IH]; intros i; cbn [find_at first_occ].
  - destruct (starts_with [] sub); [simpl; lia | reflexivity].
  - destruct (starts_with (c :: s) sub); [simpl; lia|].
    rewrite IH. destruct (first_occ s sub); simpl; lia.
Qed.

Lemma find_first_occ (s sub : str) :
  find s sub =
  match first_occ s sub with
  | Some k => Z.of_nat k
  | None => -1
  end.
Proof. unfold find. rewrite find_at_first_occ. destruct (first_occ s sub); lia. Qed.

Lemma first_occ_Some (s sub : str) (k : nat) :
  first_occ s sub = Some k ->
  exists pre post, s = pre ++ sub ++ post /\ List.length pre = k.
Proof.
  revert k; induction s as [|c s IH]; intros k; cbn [first_occ].
  - destruct (starts_with [] sub) eqn:E; [|discriminate].
    intros H; injection H as <-.
    apply starts_with_inv in E. destruct E as [post E].
    exists [], post. split; [exact E | reflexivity].
  - destruct (starts_with (c :: s) sub) eqn:E.
    + intros H; injection H as <-.
      apply starts_with_inv in E. destruct E as [post E].
      exists [], post. split; [exact E | reflexivity].
    + destruct (first_occ s sub) as [k'|]; [|discriminate].
      simpl. intros H; injection H as <-.
      destruct (IH k' eq_refl) as [pre [post [-> Hl]]].
      exists (c :: pre), post. split; [reflexivity | simpl; congruence].
Qed.

Lemma first_occ_least (s sub pre post : str) :
  s = pre ++ sub ++ post ->
  exists k, first_occ s sub = Some k /\ (k <= List.length pre)%nat.
Proof.
  revert s; induction pre as [|c pre IH]; intros s ->.
  - exists O. rewrite app_nil_l.
    assert (H : first_occ (sub ++ post) sub = Some O).
    { pose proof (starts_with_app sub post) as H.
      destruct (sub ++ post); cbn [first_occ]; rewrite H; reflexivity. }
    split; [exact H | lia].
  - rewrite <- app_comm_cons. cbn [first_occ].
    destruct (starts_with (c :: pre ++ sub ++ post) sub).
    + exists O. split; [reflexivity | lia].
    + destruct (IH _ eq_refl) as [k [-> Hk]].
      exists (S k). split; [reflexivity | simpl; lia].
Qed.

Lemma first_occ_None (s sub : str) :
  first_occ s sub = None <-> ~ occurs sub s.
Proof.
  split.
  - intros H [pre [post E]].
    destruct (first_occ_least _ _ _ _ E) as [k [Hk _]]. congruence.
  - intros H. destruct (first_occ s sub) as [k|] eqn:E; [|reflexivity].
    exfalso. apply H. destruct (first_occ_Some _ _ _ E) as [pre [post [-> _]]].
    exists pre, post; reflexivity.
Qed.

Lemma find_absent (s sub : str) : ~ occurs sub s -> find s sub = -1.
Proof.
  intros H. rewrite find_first_occ.
  apply first_occ_None in H. rewrite H. reflexivity.
Qed.

Lemma find_absent_iff (s sub : str) : find s sub = -1 <-> ~ occurs sub s.
Proof.
  split; [|apply find_absent].
  rewrite find_first_occ. destruct (first_occ s sub) eqn:E; [lia|].
  intros _. apply first_occ_None. exact E.
Qed.

Lemma find_first_at (s sub pre : str) :
  first_at sub s pre -> find s sub = len pre.
Proof.
  intros [[post E] Hmin].
  destruct (first_occ_least _ _ _ _ E) as [k [Hk Hle]].
  rewrite find_first_occ, Hk. unfold len.
  destruct (first_occ_Some _ _ _ Hk) as [pre' [post' [E' Hl]]].
  specialize (Hmin _ _ E'). lia.
Qed.

Lemma find_range (s sub : str) : -1 <= find s sub <= len s.
Proof.
  rewrite find_first_occ. destruct (first_occ s sub) as [k|] eqn:E.
  - destruct (first_occ_Some _ _ _ E) as [pre [post [-> Hl]]].
    unfold len. rewrite !length_app. lia.
  - unfold len. lia.
Qed.

Lemma bound_nonneg (s : str) (i : Z) :
  0 <= i -> bound s i = Nat.min (Z.to_nat i) (List.length s).
Proof.
  intros H. unfold bound, len.
  destruct (i <? 0) eqn:E; [apply Z.ltb_lt in E; lia|]. lia.
Qed.

Lemma slice_from_skipn (s : str) (n : nat) :
  slice_from s (Z.of_nat n) = skipn n s.
Proof.
  unfold slice_from. rewrite bound_nonneg by lia. rewrite Nat2Z.id.
  destruct (Nat.le_gt_cases n (List.length s)) as [H|H].
  - rewrite Nat.min_l by exact H. reflexivity.
  - rewrite Nat.min_r by lia.
    rewrite !skipn_all2 by lia. reflexivity.
Qed.

Lemma slice_to_firstn (s : str) (n : nat) :
  slice_to s (Z.of_nat n) = firstn n s.
Proof.
  unfold slice_to. rewrite bound_nonneg by lia. rewrite Nat2Z.id.
  destruct (Nat.le_gt_cases n (List.length s)) as [H|H].
  - rewrite Nat.min_l by exact H. reflexivity.
  - rewrite Nat.min_r by lia.
    rewrite !firstn_all2 by lia. reflexivity.
Qed.

(** ** IdentifierParser *)

Lemma digit_run_split (s : str) : s = digit_run s ++ after_digit_run s.
Proof.
  induction s as [|c s IH]; simpl; [reflexivity|].
  destruct (isdigit c); simpl; [f_equal; exact IH | reflexivity].
Qed.

Lemma scan_digits_spec (s : str) (i : Z) :
  scan_digits s i =
  match after_digit_run s with
  | [] => Raise IndexError
  | _ :: _ => Ok (i + len (digit_run s))
  end.
Proof.
  revert i; induction s as [|c s IH]; intros i; simpl; [reflexivity|].
  destruct (isdigit c) eqn:E.
  - rewrite IH. destruct (after_digit_run s); [reflexivity|].
    f_equal. unfold len. simpl List.length. lia.
  - f_equal. unfold len; simpl. lia.
Qed.

Lemma firstn_digit_run (s : str) :
  firstn (List.length (digit_run s)) s = digit_run s.
Proof.
  induction s as [|c s IH]; simpl; [reflexivity|].
  destruct (isdigit c); simpl; [f_equal; exact IH | reflexivity].
Qed.

(** The scan and the cut that follows it, as one function of the text
    scanned. *)
Lemma scan_then_cut (s : str) :
  (endIndex <- scan_digits s 0 ;; Ok (slice_to s endIndex)) =
  digits_before_stop s.
Proof.
  rewrite scan_digits_spec. unfold digits_before_stop.
  destruct (after_digit_run s) eqn:E; cbn [bind]; [reflexivity|].
  f_equal. unfold len. rewrite Z.add_0_l, slice_to_firstn.
  apply firstn_digit_run.
Qed.

Lemma digit_run_app (ds rest : str) (c : ascii) :
  forallb isdigit ds = true -> isdigit c = false ->
  digit_run (ds ++ c :: rest) = ds /\
  after_digit_run (ds ++ c :: rest) = c :: rest.
Proof.
  intros Hds Hc. induction ds as [|d ds IH]; simpl in *.
  - rewrite Hc. split; reflexivity.
  - apply andb_true_iff in Hds. destruct Hds as [Hd Hds].
    rewrite Hd. destruct (IH Hds) as [-> ->]. split; reflexivity.
Qed.

Lemma get_page_id_absent (onclick objectId : str) :
  ~ occurs objectId onclick ->
  get_page_id onclick objectId =
  digits_before_stop (skipn (List.length objectId) onclick).
Proof.
  intros H. unfold get_page_id. rewrite (find_absent _ _ H).
  replace (-1 + len objectId + 1) with (Z.of_nat (List.length objectId))
    by (unfold len; lia).
  rewrite slice_from_skipn. apply scan_then_cut.
Qed.

Lemma get_epo_id_absent (href : str) :
  ~ occurs "contextId=" href ->
  get_epo_id href = digits_before_stop (skipn 9 href).
Proof.
  intros H. unfold get_epo_id. rewrite (find_absent _ _ H).
  change (-1 + len "contextId=") with (Z.of_nat 9).
  rewrite slice_from_skipn. apply scan_then_cut.
Qed.

Lemma digits_before_stop_empty (s : str) :
  digits_before_stop s = Ok [] <->
  exists c rest, s = c :: rest /\ isdigit c = false.
Proof.
  unfold digits_before_stop. destruct s as [|c s]; simpl.
  - split; [discriminate | intros [c [rest [H _]]]; discriminate].
  - destruct (isdigit c) eqn:E.
    + split.
      * destruct (after_digit_run s); discriminate.
      * intros [c' [rest [H H']]]. injection H as <- <-. congruence.
    + split; [|reflexivity]. intros _. exists c, s. split; [reflexivity | exact E].
Qed.

(** C2 (amended).  When the marker is absent [find] gives [-1] and the
    parsers use it as an offset all the same: [get_page_id] scans the
    script text from the character at offset [len objectId], [get_epo_id]
    scans the reference from the character at offset 9, and each returns
    the digits found there in front of the first character that is not a
    digit.  The result is empty exactly when the character at that offset
    exists and is not a digit; any digits there come back as an id. *)
Theorem absent_marker_scans_from_fixed_offset :
  (forall onclick objectId : str,
      ~ occurs objectId onclick ->
      get_page_id onclick objectId =
      digits_before_stop (skipn (List.length objectId) onclick)) /\
  (forall href : str,
      ~ occurs "contextId=" href ->
      get_epo_id href = digits_before_stop (skipn 9 href)) /\
  (forall s : str,
      digits_before_stop s = Ok [] <->
      exists c rest, s = c :: rest /\ isdigit c = false).
Proof.
  split; [exact get_page_id_absent|].
  split; [exact get_epo_id_absent | exact digits_before_stop_empty].
Qed.

Lemma absent_marker_scans_from_fixed_offset_witness :
  get_page_id "n=42;GotoPage(n);" "99" =
  digits_before_stop (skipn 2 (lit "n=42;GotoPage(n);")) /\
  get_epo_id "/d2lfile/9001/x.pdf" =
  digits_before_stop (skipn 9 (lit "/d2lfile/9001/x.pdf")).
Proof.
  destruct absent_marker_scans_from_fixed_offset as [Hpage [Hepo _]].
  split.
  - apply (Hpage "n=42;GotoPage(n);" "99").
    apply find_absent_iff. reflexivity.
  - apply (Hepo "/d2lfile/9001/x.pdf").
    apply find_absent_iff. reflexivity.
Defined.

(** C2 as stated fails: the root id "99" does not occur in the script
    text and [get_page_id] returns the id "42"; "contextId=" does not occur
    in the reference and [get_epo_id] returns the id "9001". *)
Lemma absent_marker_gives_spurious_id :
  (~ occurs "99" "n=42;GotoPage(n);" /\
   get_page_id "n=42;GotoPage(n);" "99" = Ok (lit "42")) /\
  (~ occurs "contextId=" "/d2lfile/9001/x.pdf" /\
   get_epo_id "/d2lfile/9001/x.pdf" = Ok (lit "9001")).
Proof.
  split; split; try reflexivity; apply find_absent_iff; reflexivity.
Qed.

Lemma skipn_prefix {A : Type} (l1 l2 : list A) :
  skipn (List.length l1) (l1 ++ l2) = l2.
Proof. induction l1; simpl; auto. Qed.

(** C7 (amended).  When the root id occurs in the script text and the
    digits that follow its first occurrence and one separator character
    are followed by a character that is not a digit, [get_page_id] returns
    exactly those digits, whatever that character and the text after it
    are.  Digits are the characters [str.isdigit] accepts. *)
Theorem get_page_id_returns_digit_run
  (pre objectId digits rest : str) (sep stop : ascii) :
  first_at objectId (pre ++ objectId ++ sep :: digits ++ stop :: rest) pre ->
  forallb isdigit digits = true ->
  isdigit stop = false ->
  get_page_id (pre ++ objectId ++ sep :: digits ++ stop :: rest) objectId =
  Ok digits.
Proof.
  intros Hfirst Hdigits Hstop. unfold get_page_id.
  rewrite (find_first_at _ _ _ Hfirst).
  replace (len pre + len objectId + 1)
    with (Z.of_nat (List.length (pre ++ objectId ++ [sep])))
    by (unfold len; rewrite !length_app; simpl; lia).
  rewrite slice_from_skipn.
  replace (pre ++ objectId ++ sep :: digits ++ stop :: rest)
    with ((pre ++ objectId ++ [sep]) ++ digits ++ stop :: rest)
    by (rewrite <- !app_assoc; reflexivity).
  rewrite skipn_prefix, scan_then_cut. unfold digits_before_stop.
  destruct (digit_run_app digits rest stop Hdigits Hstop) as [-> ->].
  reflexivity.
Qed.

Lemma first_at_by_find (sub s pre post : str) :
  s = pre ++ sub ++ post -> find s sub = len pre -> first_at sub s pre.
Proof.
  intros E Hfind. split; [exists post; exact E|].
  intros pre' post' E'.
  destruct (first_occ_least _ _ _ _ E') as [k [Hk Hle]].
  rewrite find_first_occ, Hk in Hfind. unfold len in Hfind. lia.
Qed.

Lemma get_page_id_returns_digit_run_witness :
  get_page_id "GotoPage(1234,5678abc" "1234" = Ok (lit "5678").
Proof.
  apply (get_page_id_returns_digit_run "GotoPage(" "1234" "5678" "bc"
           ","%char "a"%char).
  - apply (first_at_by_find _ _ _ (lit ",5678abc")); reflexivity.
  - reflexivity.
  - reflexivity.
Defined.

(** C7 as stated fails when the digits are the end of the text: the read
    of the character after them raises IndexError and no id is returned. *)
Lemma get_page_id_at_end_of_text :
  get_page_id "GotoPage(1234,5678" "1234" = Raise IndexError.
Proof. reflexivity. Qed.

(** ** CssAssetResolver *)

Lemma index_head (c : ascii) (s : str) : index (c :: s) 0 = Ok c.
Proof.
  unfold index, len. simpl List.length.
  destruct (Z.of_nat (S (List.length s)) <=? 0) eqn:E;
    [apply Z.leb_le in E; lia | reflexivity].
Qed.

Lemma starts_with_char (c d : ascii) (s : str) :
  starts_with (c :: s) [d] = Ascii.eqb c d.
Proof. simpl. rewrite starts_with_nil. apply andb_true_r. Qed.

Lemma find_at_char (c : ascii) (pre post : str) (i : Z) :
  ~ In c pre -> find_at (pre ++ c :: post) [c] i = i + len pre.
Proof.
  revert i; induction pre as [|d pre IH]; intros i H.
  - simpl app. cbn [find_at]. rewrite starts_with_char, Ascii.eqb_refl.
    unfold len; simpl; lia.
  - simpl app. cbn [find_at]. rewrite starts_with_char.
    destruct (Ascii.eqb d c) eqn:E.
    + apply Ascii.eqb_eq in E. exfalso. apply H. left. exact E.
    + rewrite IH by (intros Hin; apply H; right; exact Hin).
      unfold len; simpl List.length; lia.
Qed.

Lemma find_char (c : ascii) (pre post : str) :
  ~ In c pre -> find (pre ++ c :: post) [c] = len pre.
Proof. intros H. unfold find. rewrite find_at_char by exact H. lia. Qed.

Lemma find_char_absent (c : ascii) (s : str) : ~ In c s -> find s [c] = -1.
Proof.
  intros H. apply find_absent. intros [pre [post E]]. apply H. subst s.
  apply in_or_app. right. left. reflexivity.
Qed.

Lemma rfind_at_char_absent (c : ascii) (s : str) (i : Z) :
  ~ In c s -> rfind_at s [c] i = -1.
Proof.
  revert i; induction s as [|d s IH]; intros i H; [reflexivity|].
  cbn [rfind_at]. rewrite IH by (intros Hin; apply H; right; exact Hin).
  rewrite starts_with_char. simpl.
  destruct (Ascii.eqb d c) eqn:E; [|reflexivity].
  apply Ascii.eqb_eq in E. exfalso. apply H. left. exact E.
Qed.

Lemma rfind_at_char (c : ascii) (pre post : str) (i : Z) :
  0 <= i -> ~ In c post -> rfind_at (pre ++ c :: post) [c] i = i + len pre.
Proof.
  revert i; induction pre as [|d pre IH]; intros i Hi H.
  - simpl app. cbn [rfind_at]. rewrite rfind_at_char_absent by exact H.
    rewrite starts_with_char, Ascii.eqb_refl. unfold len; simpl; lia.
  - simpl app. cbn [rfind_at]. rewrite IH by (lia || exact H).
    assert (Hle : (0 <=? i + 1 + len pre) = true)
      by (apply Z.leb_le; unfold len; lia).
    rewrite Hle. unfold len; simpl List.length; lia.
Qed.

Lemma rfind_char (c : ascii) (pre post : str) :
  ~ In c post -> rfind (pre ++ c :: post) [c] = len pre.
Proof. intros H. unfold rfind. rewrite rfind_at_char by (lia || exact H). lia. Qed.

Lemma firstn_prefix {A : Type} (l1 l2 : list A) :
  firstn (List.length l1) (l1 ++ l2) = l1.
Proof. induction l1; simpl; [destruct l2; reflexivity | f_equal; assumption]. Qed.

(** The name is the last segment of the address, without its query. *)
Lemma tail_name_plain (dir seg : str) :
  ~ In "/"%char seg -> ~ In "?"%char seg ->
  tail_name (dir ++ "/"%char :: seg) = seg.
Proof.
  intros Hslash Hquery. unfold tail_name.
  change (lit "/") with ["/"%char]. change (lit "?") with ["?"%char].
  rewrite rfind_char by exact Hslash.
  replace (len dir + 1) with (Z.of_nat (List.length (dir ++ ["/"%char])))
    by (unfold len; rewrite length_app; simpl; lia).
  rewrite slice_from_skipn.
  replace (dir ++ "/"%char :: seg) with ((dir ++ ["/"%char]) ++ seg)
    by (rewrite <- app_assoc; reflexivity).
  rewrite skipn_prefix, find_char_absent by exact Hquery. reflexivity.
Qed.

Lemma tail_name_query (dir name query : str) (c : ascii) :
  ~ In "/"%char (c :: name ++ "?"%char :: query) ->
  ~ In "?"%char (c :: name) ->
  tail_name (dir ++ "/"%char :: c :: name ++ "?"%char :: query) = c :: name.
Proof.
  intros Hslash Hquery. unfold tail_name.
  change (lit "/") with ["/"%char]. change (lit "?") with ["?"%char].
  rewrite rfind_char by exact Hslash.
  replace (len dir + 1) with (Z.of_nat (List.length (dir ++ ["/"%char])))
    by (unfold len; rewrite length_app; simpl; lia).
  rewrite slice_from_skipn.
  replace (dir ++ "/"%char :: c :: name ++ "?"%char :: query)
    with ((dir ++ ["/"%char]) ++ (c :: name) ++ "?"%char :: query)
    by (rewrite <- !app_assoc; reflexivity).
  rewrite skipn_prefix, find_char by exact Hquery.
  assert (H : (0 <? len (c :: name)) = true)
    by (apply Z.ltb_lt; unfold len; simpl List.length; lia).
  rewrite H. unfold len. rewrite slice_to_firstn. apply firstn_prefix.
Qed.

Lemma scan_slash_spec (junk rest : str) (i : Z) :
  ~ In "/"%char junk ->
  scan_slash (junk ++ "/"%char :: rest) i = Ok (i + len junk).
Proof.
  revert i; induction junk as [|d junk IH]; intros i H; simpl.
  - f_equal. unfold len; simpl; lia.
  - destruct (Ascii.eqb d "/") eqn:E.
    + apply Ascii.eqb_eq in E. exfalso. apply H. left. exact E.
    + rewrite IH by (intros Hin; apply H; right; exact Hin).
      f_equal. unfold len; simpl List.length; lia.
Qed.

Lemma trim_rev_spec (junk keep : str) (k : ascii) :
  forallb not_alnum junk = true -> isalnum k = true ->
  trim_rev (junk ++ k :: keep) = Ok (k :: keep).
Proof.
  intros Hjunk Hk. induction junk as [|d junk IH]; simpl in *.
  - rewrite Hk. reflexivity.
  - apply andb_true_iff in Hjunk. destruct Hjunk as [Hd Hjunk].
    unfold not_alnum in Hd. apply negb_true_iff in Hd. rewrite Hd.
    apply IH. exact Hjunk.
Qed.

Lemma trim_tail_spec (keep junk : str) (k : ascii) :
  isalnum k = true -> forallb not_alnum junk = true ->
  trim_tail ((keep ++ [k]) ++ junk) = Ok (keep ++ [k]).
Proof.
  intros Hk Hjunk. unfold trim_tail.
  rewrite rev_app_distr, rev_app_distr. simpl rev at 2. simpl app at 2.
  rewrite trim_rev_spec.
  - cbn [bind]. f_equal. simpl. rewrite rev_involutive. reflexivity.
  - rewrite forallb_forall in *. intros c Hc. apply Hjunk.
    apply in_rev. exact Hc.
  - exact Hk.
Qed.

Section CssProperties.

Variable DOMAIN : str.
Variable urlretrieve : str -> str -> result unit.
Variable cssUrl : str.

Lemma resolve_absolute (path : str) :
  resolve_css_url DOMAIN cssUrl ("/"%char :: path) =
  Ok (DOMAIN ++ "/"%char :: path).
Proof. unfold resolve_css_url. rewrite index_head. reflexivity. Qed.

Lemma isalnum_not_slash (c : ascii) :
  isalnum c = true -> Ascii.eqb c "/" = false.
Proof.
  intros H. destruct (Ascii.eqb c "/") eqn:E; [|reflexivity].
  apply Ascii.eqb_eq in E. subst c. discriminate H.
Qed.

Lemma resolve_relative (c : ascii) (rest : str) :
  isalnum c = true ->
  resolve_css_url DOMAIN cssUrl (c :: rest) =
  Ok (slice_to cssUrl (rfind cssUrl "/") ++ "/"%char :: c :: rest).
Proof.
  intros H. unfold resolve_css_url. rewrite index_head. cbn [bind].
  rewrite (isalnum_not_slash _ H), H. reflexivity.
Qed.

Lemma resolve_other (c : ascii) (junk path : str) :
  c <> "/"%char -> isalnum c = false -> ~ In "/"%char junk ->
  resolve_css_url DOMAIN cssUrl (c :: junk ++ "/"%char :: path) =
  trim_tail (DOMAIN ++ "/"%char :: path).
Proof.
  intros Hc Halnum Hjunk. unfold resolve_css_url.
  rewrite index_head. cbn [bind].
  apply Ascii.eqb_neq in Hc. rewrite Hc, Halnum.
  change (c :: junk ++ "/"%char :: path)
    with ((c :: junk) ++ "/"%char :: path).
  rewrite (scan_slash_spec (c :: junk) path 0).
  - cbn [bind]. rewrite Z.add_0_l. unfold len. rewrite slice_from_skipn.
    rewrite skipn_prefix. reflexivity.
  - intros [E|Hin]; [apply Ascii.eqb_neq in Hc; congruence | exact (Hjunk Hin)].
Qed.

End CssProperties.

(** C6 (amended).  The address of a [url(...)] argument follows the
    three-way rule, tried in this order: a leading "/" gives the source
    domain followed by the argument; a leading alphanumeric character gives
    the directory of the CSS file's own address, a "/" and the argument; any
    other leading character gives the source domain followed by the argument
    from its next "/" on, with the characters after the last alphanumeric
    one cut off.  The address keeps the query string of the argument.  The
    local file name is the text after the last "/" of the address, cut at
    its first "?" (when the name does not begin with it).  So
    [url(/images/bg.png)] with domain [https://example.org] is fetched from
    [https://example.org/images/bg.png] into [bg.png], and
    [url(icon.png?v=2)] in [https://example.org/css/theme.css] is fetched
    from [https://example.org/css/icon.png?v=2] into [icon.png]. *)
Theorem css_url_three_way_rule :
  (forall DOMAIN cssUrl path : str,
      resolve_css_url DOMAIN cssUrl ("/"%char :: path) =
      Ok (DOMAIN ++ "/"%char :: path)) /\
  (forall (DOMAIN dir file rest : str) (c : ascii),
      isalnum c = true -> ~ In "/"%char file ->
      resolve_css_url DOMAIN (dir ++ "/"%char :: file) (c :: rest) =
      Ok (dir ++ "/"%char :: c :: rest)) /\
  (forall (DOMAIN cssUrl junk path keep tail : str) (c k : ascii),
      c <> "/"%char -> isalnum c = false -> ~ In "/"%char junk ->
      DOMAIN ++ "/"%char :: path = (keep ++ [k]) ++ tail ->
      isalnum k = true -> forallb not_alnum tail = true ->
      resolve_css_url DOMAIN cssUrl (c :: junk ++ "/"%char :: path) =
      Ok (keep ++ [k])) /\
  (forall dir seg : str,
      ~ In "/"%char seg -> ~ In "?"%char seg ->
      tail_name (dir ++ "/"%char :: seg) = seg) /\
  (forall (dir name query : str) (c : ascii),
      ~ In "/"%char (c :: name ++ "?"%char :: query) ->
      ~ In "?"%char (c :: name) ->
      tail_name (dir ++ "/"%char :: c :: name ++ "?"%char :: query) =
      c :: name) /\
  update_css_file "https://example.org" fetch_ok
    "https://example.org/css/theme.css"
    [lit "background: url(/images/bg.png);"] =
  Ok (mkCssState [lit "background: url(bg.png);"] []
        [(lit "https://example.org/images/bg.png", lit "bg.png")]) /\
  update_css_file "https://example.org" fetch_ok
    "https://example.org/css/theme.css"
    [lit "background: url(icon.png?v=2);"] =
  Ok (mkCssState [lit "background: url(icon.png);"] []
        [(lit "https://example.org/css/icon.png?v=2", lit "icon.png")]).
Proof.
  split; [exact resolve_absolute|].
  split.
  { intros DOMAIN dir file rest c Hc Hfile.
    rewrite resolve_relative by exact Hc. f_equal.
    change (lit "/") with ["/"%char].
    rewrite rfind_char by exact Hfile. unfold len.
    rewrite slice_to_firstn, firstn_prefix. reflexivity. }
  split.
  { intros DOMAIN cssUrl junk path keep tail c k Hc Halnum Hjunk E Hk Htail.
    rewrite resolve_other by assumption. rewrite E.
    apply trim_tail_spec; assumption. }
  split; [exact tail_name_plain|].
  split; [exact tail_name_query|].
  split; reflexivity.
Qed.

Lemma css_url_three_way_rule_witness :
  resolve_css_url "https://example.org" "https://example.org/css/theme.css"
    "icon.png?v=2" = Ok (lit "https://example.org/css/icon.png?v=2") /\
  resolve_css_url "https://example.org" "https://example.org/css/theme.css"
    "'../img/x.png' " = Ok (lit "https://example.org/img/x.png") /\
  tail_name "https://example.org/images/bg.png" = lit "bg.png" /\
  tail_name "https://example.org/css/icon.png?v=2" = lit "icon.png".
Proof.
  destruct css_url_three_way_rule as [_ [Hrel [Hother [Hplain [Hquery _]]]]].
  split.
  { apply (Hrel "https://example.org" "https://example.org/css" "theme.css"
             "con.png?v=2" "i"%char).
    - reflexivity.
    - simpl. intuition discriminate. }
  split.
  { apply (Hother "https://example.org" "https://example.org/css/theme.css"
             ".." "img/x.png' " "https://example.org/img/x.pn" "' "
             "'"%char "g"%char).
    - discriminate.
    - reflexivity.
    - simpl. intuition discriminate.
    - reflexivity.
    - reflexivity.
    - reflexivity. }
  split.
  { apply (Hplain "https://example.org/images" "bg.png");
      simpl; intuition discriminate. }
  { apply (Hquery "https://example.org/css" "con.png" "v=2" "i"%char);
      simpl; intuition discriminate. }
Defined.

(** C6 as stated fails on its second example: the address resolved for
    [url(icon.png?v=2)] keeps the query string. *)
Lemma css_relative_address_keeps_query :
  resolve_css_url "https://example.org" "https://example.org/css/theme.css"
    "icon.png?v=2" = Ok (lit "https://example.org/css/icon.png?v=2") /\
  resolve_css_url "https://example.org" "https://example.org/css/theme.css"
    "icon.png?v=2" <> Ok (lit "https://example.org/css/icon.png").
Proof.
  split; [vm_compute; reflexivity|].
  intros H. vm_compute in H. discriminate H.
Qed.

Lemma foldM_app {A S : Type} (f : S -> A -> result S) (l1 l2 : list A) (s : S) :
  foldM f (l1 ++ l2) s = (s' <- foldM f l1 s ;; foldM f l2 s').
Proof.
  revert s; induction l1 as [|x l1 IH]; intros s; simpl; [reflexivity|].
  destruct (f s x); simpl; [apply IH | reflexivity].
Qed.

Section CssFetchFailure.

Variable DOMAIN : str.
Variable urlretrieve : str -> str -> result unit.
Variable cssUrl : str.



End CssFetchFailure.



(** ** ResourceCollector: the tables of the fileDict *)

Lemma foldM_preserves {A S : Type} (f : S -> A -> result S) (P : S -> Prop) :
  (forall s x s', P s -> f s x = Ok s' -> P s') ->
  forall l s s', P s -> foldM f l s = Ok s' -> P s'.
Proof.
  intros Hstep l. induction l as [|x l IH]; intros s s' Hs H; simpl in H.
  - injection H as <-. exact Hs.
  - destruct (f s x) as [s1|e] eqn:E; simpl in H; [|discriminate].
    exact (IH _ _ (Hstep _ _ _ Hs E) H).
Qed.

Lemma foldM_fixed {A S : Type} (f : S -> A -> result S) (l : list A) (s : S) :
  (forall x, In x l -> f s x = Ok s) -> foldM f l s = Ok s.
Proof.
  induction l as [|x l IH]; intros H; simpl; [reflexivity|].
  rewrite (H x (or_introl eq_refl)). simpl.
  apply IH. intros y Hy. apply H. right. exact Hy.
Qed.

(** Once an element has been taken in, taking it in again changes nothing,
    in any later state. *)
Lemma foldM_settles {A S : Type} (f : S -> A -> result S) (R : S -> S -> Prop) :
  (forall s, R s s) ->
  (forall s1 s2 s3, R s1 s2 -> R s2 s3 -> R s1 s3) ->
  (forall s x s1, f s x = Ok s1 -> R s s1) ->
  (forall s x s1 s2, f s x = Ok s1 -> R s1 s2 -> f s2 x = Ok s2) ->
  forall l s s', foldM f l s = Ok s' ->
                 R s s' /\ forall x, In x l -> f s' x = Ok s'.
Proof.
  intros Hrefl Htrans Hgrow Hstable l.
  induction l as [|x l IH]; intros s s' H; simpl in H.
  - injection H as <-. split; [apply Hrefl | intros x []].
  - destruct (f s x) as [s1|e] eqn:E; simpl in H; [|discriminate].
    destruct (IH _ _ H) as [HR Hl]. split.
    + exact (Htrans _ _ _ (Hgrow _ _ _ E) HR).
    + intros y [<-|Hy]; [exact (Hstable _ _ _ _ E HR) | exact (Hl y Hy)].
Qed.

Lemma foldM_raises {A S : Type} (f : S -> A -> result S) (l : list A) (x : A) :
  In x l -> (forall s, exists e, f s x = Raise e) ->
  forall s, exists e, foldM f l s = Raise e.
Proof.
  intros Hin Hx. induction l as [|y l IH]; [destruct Hin|]. intros s. simpl.
  destruct (f s y) as [s1|e] eqn:E; simpl.
  - destruct Hin as [->|Hin]; [|exact (IH Hin s1)].
    destruct (Hx s) as [e He]. congruence.
  - exists e; reflexivity.
Qed.

Lemma extends_refl (fd : fileDict) : extends fd fd.
Proof. repeat split; apply incl_refl. Qed.

Lemma extends_trans (fd1 fd2 fd3 : fileDict) :
  extends fd1 fd2 -> extends fd2 fd3 -> extends fd1 fd3.
Proof.
  intros [H1 [H2 H3]] [K1 [K2 K3]].
  repeat split; eapply incl_tran; eassumption.
Qed.

Lemma mem_false_not_In (x : str) (l : list str) : mem x l = false -> ~ In x l.
Proof. intros H Hin. apply mem_In in Hin. congruence. Qed.

Lemma NoDup_snoc (x : str) (l : list str) :
  NoDup l -> ~ In x l -> NoDup (l ++ [x]).
Proof.
  intros Hl Hx. apply NoDup_app; [exact Hl | repeat constructor; intros [] |].
  intros y Hy [<-|[]]. exact (Hx Hy).
Qed.

Lemma getitem_Ok (a : attrs) (k v : str) :
  getitem a k = Ok v <-> get_attr a k = Some v.
Proof.
  unfold getitem. destruct (get_attr a k); split; intros H;
    try discriminate; injection H as <-; reflexivity.
Qed.

Lemma getitem_missing (a : attrs) (k : str) :
  get_attr a k = None -> getitem a k = Raise KeyError.
Proof. unfold getitem. intros ->. reflexivity. Qed.

(** Case analysis on a loop body that returned. *)
Ltac body_cases H :=
  repeat match type of H with
    | bind ?r _ = Ok _ =>
        let E := fresh "E" in
        destruct r eqn:E; cbn [bind] in H; [|discriminate H]
    | (if ?b then _ else _) = Ok _ =>
        let E := fresh "E" in destruct b eqn:E
    | (let _ := _ in _) = Ok _ => cbv zeta in H
    end;
  try (injection H as <-).

(** ** The collectors: what a call gives its caller *)

Lemma iterate_value {A : Type} (body : A -> collector unit) (l : list A)
  (fd : fileDict) :
  returned (iterate body l fd) = foldM (value_of body) l fd.
Proof.
  revert fd; induction l as [|x l IH]; intros fd; [reflexivity|].
  cbn [iterate foldM]. unfold bindC, value_of.
  destruct (body x fd) as [fd1 [[]|e]]; cbn [returned bind];
    [apply IH | reflexivity].
Qed.

Lemma iterate_app {A : Type} (body : A -> collector unit) (l1 l2 : list A)
  (fd : fileDict) :
  iterate body (l1 ++ l2) fd =
  match iterate body l1 fd with
  | (fd1, Ok _) => iterate body l2 fd1
  | (fd1, Raise e) => (fd1, Raise e)
  end.
Proof.
  revert fd; induction l1 as [|x l1 IH]; intros fd; [reflexivity|].
  cbn [app iterate]. unfold bindC.
  destruct (body x fd) as [fd1 [[]|e]]; [apply IH | reflexivity].
Qed.

(** The value of one turn of [get_embedded_object]: the entry is
    complete when the turn returns. *)
Lemma embedded_body_value DOMAIN lookup (fd : fileDict) (a : attrs) :
  value_of (get_embedded_object_body DOMAIN lookup) fd a =
  (href <- getitem a "href" ;;
   if 0 <? find href "d2lfile" then
     epoId <- get_epo_id href ;;
     if negb (mem epoId (fileIds fd)) then
       fileName <- lookup epoId ;;
       Ok (append_file fd epoId (DOMAIN ++ href) (strip fileName))
     else Ok fd
   else Ok fd).
Proof.
  unfold value_of, get_embedded_object_body, bindC, lift, read, update, ret.
  destruct (getitem a "href") as [href|]; cbn [bind returned]; [|reflexivity].
  destruct (0 <? find href "d2lfile"); [|reflexivity].
  destruct (get_epo_id href) as [epoId|]; cbn [bind returned]; [|reflexivity].
  destruct (mem epoId (fileIds fd)); cbn [negb]; [reflexivity|].
  cbn [fileIds append_fileIds append_fileUrls].
  destruct (lookup epoId); reflexivity.
Qed.

Lemma css_body_value DOMAIN (fd : fileDict) (link : attrs) :
  value_of (get_css_body DOMAIN) fd link =
  (type <- getitem link "type" ;;
   if eqb type "text/css" then
     href <- getitem link "href" ;;
     let css := DOMAIN ++ href in
     if negb (mem css (cssUrls fd)) then
       Ok (append_css fd css (tail_name css))
     else Ok fd
   else Ok fd).
Proof.
  unfold value_of, get_css_body, bindC, lift, read, update, ret.
  destruct (getitem link "type") as [type|]; cbn [bind returned];
    [|reflexivity].
  destruct (eqb type "text/css"); [|reflexivity].
  destruct (getitem link "href") as [href|]; cbn [bind returned];
    [|reflexivity].
  cbv zeta. destruct (mem (DOMAIN ++ href) (cssUrls fd)); reflexivity.
Qed.

Lemma img_body_value DOMAIN lookup (fd : fileDict) (img : attrs) :
  value_of (get_img_body DOMAIN lookup) fd img =
  (src <- getitem img "src" ;;
   if find src "d2lFile" <? 0 then
     let img := DOMAIN ++ src in
     if negb (mem img (imgUrls fd)) then Ok (append_img fd img)
     else Ok fd
   else
     let address := DOMAIN ++ src in
     epoId <- get_epo_id src ;;
     if negb (mem epoId (fileIds fd)) then
       fileName <- lookup epoId ;;
       Ok (append_file fd epoId address (strip fileName))
     else Ok fd).
Proof.
  unfold value_of, get_img_body, bindC, lift, read, update, ret.
  destruct (getitem img "src") as [src|]; cbn [bind returned]; [|reflexivity].
  destruct (find src "d2lFile" <? 0); cbv zeta.
  - destruct (mem (DOMAIN ++ src) (imgUrls fd)); reflexivity.
  - destruct (get_epo_id src) as [epoId|]; cbn [bind returned];
      [|reflexivity].
    destruct (mem epoId (fileIds fd)); cbn [negb]; [reflexivity|].
    destruct (lookup epoId); reflexivity.
Qed.

Lemma get_embedded_object_value DOMAIN lookup (d : soup) (fd : fileDict) :
  returned (get_embedded_object DOMAIN lookup d fd) =
  foldM (value_of (get_embedded_object_body DOMAIN lookup))
    (find_all (named "a") d) fd.
Proof. apply iterate_value. Qed.

Lemma get_css_value DOMAIN (d : soup) (fd : fileDict) :
  returned (get_css DOMAIN d fd) =
  foldM (value_of (get_css_body DOMAIN)) (find_all (named "link") d) fd.
Proof. apply iterate_value. Qed.

Lemma get_img_value DOMAIN lookup (d : soup) (fd : fileDict) :
  returned (get_img DOMAIN lookup d fd) =
  foldM (value_of (get_img_body DOMAIN lookup)) (find_all (named "img") d) fd.
Proof. apply iterate_value. Qed.

Lemma collect_page_value DOMAIN lookup (d : soup) (fd : fileDict) :
  returned (collect_page DOMAIN lookup d fd) =
  (fd <- returned (get_embedded_object DOMAIN lookup d fd) ;;
   fd <- returned (get_css DOMAIN d fd) ;;
   returned (get_img DOMAIN lookup d fd)).
Proof.
  unfold collect_page, bindC.
  destruct (get_embedded_object DOMAIN lookup d fd) as [fd1 [[]|e]];
    cbn [returned bind]; [|reflexivity].
  destruct (get_css DOMAIN d fd1) as [fd2 [[]|e]]; cbn [returned bind];
    reflexivity.
Qed.

Section Collector.

Variable DOMAIN : str.
Variable get_ep_object_properties : str -> result str.

Lemma embedded_body_extends fd a fd1 :
  (value_of (get_embedded_object_body DOMAIN get_ep_object_properties)) fd a = Ok fd1 -> extends fd fd1.
Proof.
  rewrite !embedded_body_value. intros H. body_cases H;
    try apply extends_refl.
  repeat split; simpl; try apply incl_refl. apply incl_appl, incl_refl.
Qed.

Lemma css_body_extends fd a fd1 : value_of (get_css_body DOMAIN) fd a = Ok fd1 -> extends fd fd1.
Proof.
  rewrite !css_body_value. intros H. body_cases H; try apply extends_refl.
  repeat split; simpl; try apply incl_refl. apply incl_appl, incl_refl.
Qed.

Lemma img_body_extends fd a fd1 : value_of (get_img_body DOMAIN get_ep_object_properties) fd a = Ok fd1 -> extends fd fd1.
Proof.
  rewrite !img_body_value. intros H. body_cases H; try apply extends_refl;
    repeat split; simpl; try apply incl_refl; apply incl_appl, incl_refl.
Qed.

Lemma In_mem (x : str) (l : list str) : In x l -> mem x l = true.
Proof. apply mem_In. Qed.

Lemma embedded_body_stable fd a fd1 fd2 :
  (value_of (get_embedded_object_body DOMAIN get_ep_object_properties)) fd a = Ok fd1 -> extends fd1 fd2 ->
  (value_of (get_embedded_object_body DOMAIN get_ep_object_properties)) fd2 a = Ok fd2.
Proof.
  rewrite !embedded_body_value. intros H [Hids _].
  destruct (getitem a "href") as [href|]; cbn [bind] in *; [|discriminate].
  destruct (0 <? find href "d2lfile"); [|reflexivity].
  destruct (get_epo_id href) as [epoId|]; cbn [bind] in *; [|discriminate].
  assert (Hin : In epoId (fileIds fd1)).
  { destruct (mem epoId (fileIds fd)) eqn:Em; cbn [negb] in H.
    - injection H as <-. apply mem_In. exact Em.
    - destruct (get_ep_object_properties epoId); cbn [bind] in H;
        [|discriminate].
      injection H as <-. simpl. apply in_or_app. right. left. reflexivity. }
  rewrite (In_mem _ _ (Hids _ Hin)). reflexivity.
Qed.

Lemma css_body_stable fd a fd1 fd2 :
  value_of (get_css_body DOMAIN) fd a = Ok fd1 -> extends fd1 fd2 -> value_of (get_css_body DOMAIN) fd2 a = Ok fd2.
Proof.
  rewrite !css_body_value. intros H [_ [Hcss _]].
  destruct (getitem a "type") as [type|]; cbn [bind] in *; [|discriminate].
  destruct (eqb type "text/css"); [|reflexivity].
  destruct (getitem a "href") as [href|]; cbn [bind] in *; [|discriminate].
  cbv zeta in *.
  assert (Hin : In (DOMAIN ++ href) (cssUrls fd1)).
  { destruct (mem (DOMAIN ++ href) (cssUrls fd)) eqn:Em; cbn [negb] in H.
    - injection H as <-. apply mem_In. exact Em.
    - injection H as <-. simpl. apply in_or_app. right. left. reflexivity. }
  rewrite (In_mem _ _ (Hcss _ Hin)). reflexivity.
Qed.

Lemma img_body_stable fd a fd1 fd2 :
  value_of (get_img_body DOMAIN get_ep_object_properties) fd a = Ok fd1 -> extends fd1 fd2 -> value_of (get_img_body DOMAIN get_ep_object_properties) fd2 a = Ok fd2.
Proof.
  rewrite !img_body_value. intros H [Hids [_ Himg]].
  destruct (getitem a "src") as [src|]; cbn [bind] in *; [|discriminate].
  destruct (find src "d2lFile" <? 0); cbv zeta in *.
  - assert (Hin : In (DOMAIN ++ src) (imgUrls fd1)).
    { destruct (mem (DOMAIN ++ src) (imgUrls fd)) eqn:Em; cbn [negb] in H.
      - injection H as <-. apply mem_In. exact Em.
      - injection H as <-. simpl. apply in_or_app. right. left. reflexivity. }
    rewrite (In_mem _ _ (Himg _ Hin)). reflexivity.
  - destruct (get_epo_id src) as [epoId|]; cbn [bind] in *; [|discriminate].
    assert (Hin : In epoId (fileIds fd1)).
    { destruct (mem epoId (fileIds fd)) eqn:Em; cbn [negb] in H.
      - injection H as <-. apply mem_In. exact Em.
      - destruct (get_ep_object_properties epoId); cbn [bind] in H;
          [|discriminate].
        injection H as <-. simpl. apply in_or_app. right. left. reflexivity. }
    rewrite (In_mem _ _ (Hids _ Hin)). reflexivity.
Qed.

End Collector.

Lemma snoc_neq {A : Type} (l : list A) (x : A) : l ++ [x] <> l.
Proof.
  intros H. apply (f_equal (@List.length A)) in H.
  rewrite length_app in H. simpl in H. lia.
Qed.

Lemma NoDup_entries (x : str) (l : list str) :
  NoDup l -> In x l -> entries x l = 1%nat.
Proof.
  intros Hl Hx. unfold entries.
  exact (proj1 (NoDup_count_occ' str_eq_dec l) Hl x Hx).
Qed.

Section CollectorTables.

Variable DOMAIN : str.
Variable get_ep_object_properties : str -> result str.

Lemma css_body_nodup fd a fd1 :
  NoDup (cssUrls fd) -> value_of (get_css_body DOMAIN) fd a = Ok fd1 -> NoDup (cssUrls fd1).
Proof.
  rewrite !css_body_value. intros Hnd H. body_cases H; try exact Hnd.
  simpl. apply NoDup_snoc; [exact Hnd|].
  apply mem_false_not_In, negb_true_iff. assumption.
Qed.

Lemma img_body_nodup fd a fd1 :
  NoDup (imgUrls fd) -> value_of (get_img_body DOMAIN get_ep_object_properties) fd a = Ok fd1 -> NoDup (imgUrls fd1).
Proof.
  rewrite !img_body_value. intros Hnd H. body_cases H; try exact Hnd.
  simpl. apply NoDup_snoc; [exact Hnd|].
  apply mem_false_not_In, negb_true_iff. assumption.
Qed.

(** A turn that leaves the fileDict as it is has found the key of its
    element in the table. *)
Lemma img_body_fixed_img fd img src :
  value_of (get_img_body DOMAIN get_ep_object_properties) fd img = Ok fd ->
  get_attr img "src" = Some src -> find src "d2lFile" < 0 ->
  In (DOMAIN ++ src) (imgUrls fd).
Proof.
  rewrite !img_body_value. intros H Hsrc Hfind.
  apply getitem_Ok in Hsrc. rewrite Hsrc in H. cbn [bind] in H.
  apply Z.ltb_lt in Hfind. rewrite Hfind in H. cbv zeta in H.
  destruct (mem (DOMAIN ++ src) (imgUrls fd)) eqn:E; [apply mem_In; exact E|].
  cbn [negb] in H. injection H as H. apply (f_equal imgUrls) in H.
  simpl in H. exfalso. exact (snoc_neq _ _ H).
Qed.

Lemma css_body_fixed fd link href :
  value_of (get_css_body DOMAIN) fd link = Ok fd ->
  get_attr link "type" = Some (lit "text/css") ->
  get_attr link "href" = Some href ->
  In (DOMAIN ++ href) (cssUrls fd).
Proof.
  rewrite !css_body_value. intros H Htype Hhref.
  apply getitem_Ok in Htype, Hhref. rewrite Htype in H. cbn [bind] in H.
  rewrite eqb_refl, Hhref in H. cbn [bind] in H. cbv zeta in H.
  destruct (mem (DOMAIN ++ href) (cssUrls fd)) eqn:E; [apply mem_In; exact E|].
  cbn [negb] in H. injection H as H. apply (f_equal cssUrls) in H.
  simpl in H. exfalso. exact (snoc_neq _ _ H).
Qed.

Lemma get_embedded_object_settles d fd fd1 :
  returned (get_embedded_object DOMAIN get_ep_object_properties d fd) = Ok fd1 ->
  extends fd fd1 /\
  forall a, In a (find_all (named "a") d) -> (value_of (get_embedded_object_body DOMAIN get_ep_object_properties)) fd1 a = Ok fd1.
Proof.
  rewrite get_embedded_object_value.
  apply (foldM_settles (value_of (get_embedded_object_body DOMAIN get_ep_object_properties)) extends).
  - exact extends_refl.
  - exact extends_trans.
  - intros s x s1. apply embedded_body_extends.
  - intros s x s1 s2. apply embedded_body_stable.
Qed.

Lemma get_img_settles d fd fd1 :
  returned (get_img DOMAIN get_ep_object_properties d fd) = Ok fd1 ->
  extends fd fd1 /\
  forall a, In a (find_all (named "img") d) -> value_of (get_img_body DOMAIN get_ep_object_properties) fd1 a = Ok fd1.
Proof.
  rewrite get_img_value.
  apply (foldM_settles (value_of (get_img_body DOMAIN get_ep_object_properties)) extends).
  - exact extends_refl.
  - exact extends_trans.
  - intros s x s1. apply img_body_extends.
  - intros s x s1 s2. apply img_body_stable.
Qed.

Lemma get_css_settles d fd fd1 :
  returned (get_css DOMAIN d fd) = Ok fd1 ->
  extends fd fd1 /\
  forall a, In a (find_all (named "link") d) -> value_of (get_css_body DOMAIN) fd1 a = Ok fd1.
Proof.
  rewrite get_css_value.
  apply (foldM_settles (value_of (get_css_body DOMAIN)) extends).
  - exact extends_refl.
  - exact extends_trans.
  - intros s x s1. apply css_body_extends.
  - intros s x s1 s2. apply css_body_stable.
Qed.

(** C4 (amended).  The identity of a Stylesheet and of a FormattingImage
    is the whole URL, the source domain followed by the attribute value
    with its query string: a URL already in the table is not entered
    again, so each URL met has exactly one entry and collecting the same
    document again changes nothing; URLs that differ, be it only by their
    query string, have an entry each. *)
Theorem url_tables_keyed_by_full_url (d : soup) (fd fd' : fileDict) :
  (NoDup (cssUrls fd) -> returned (get_css DOMAIN d fd) = Ok fd' ->
   NoDup (cssUrls fd') /\
   returned (get_css DOMAIN d fd') = Ok fd' /\
   forall link href,
     In link (find_all (named "link") d) ->
     get_attr link "type" = Some (lit "text/css") ->
     get_attr link "href" = Some href ->
     entries (DOMAIN ++ href) (cssUrls fd') = 1%nat) /\
  (NoDup (imgUrls fd) ->
   returned (get_img DOMAIN get_ep_object_properties d fd) = Ok fd' ->
   NoDup (imgUrls fd') /\
   returned (get_img DOMAIN get_ep_object_properties d fd') = Ok fd' /\
   forall img src,
     In img (find_all (named "img") d) ->
     get_attr img "src" = Some src -> find src "d2lFile" < 0 ->
     entries (DOMAIN ++ src) (imgUrls fd') = 1%nat).
Proof.
  split; intros Hnd H.
  - assert (Hnd' : NoDup (cssUrls fd')).
    { revert H. rewrite get_css_value. apply (foldM_preserves (value_of (get_css_body DOMAIN)) (fun fd => NoDup (cssUrls fd)));
        [|exact Hnd]. intros s x s'. apply css_body_nodup. }
    destruct (get_css_settles _ _ _ H) as [_ Hfix].
    split; [exact Hnd'|].
    split; [rewrite get_css_value; apply foldM_fixed; exact Hfix|].
    intros link href Hin Htype Hhref.
    apply NoDup_entries; [exact Hnd'|].
    exact (css_body_fixed _ _ _ (Hfix _ Hin) Htype Hhref).
  - assert (Hnd' : NoDup (imgUrls fd')).
    { revert H. rewrite get_img_value. apply (foldM_preserves (value_of (get_img_body DOMAIN get_ep_object_properties)) (fun fd => NoDup (imgUrls fd)));
        [|exact Hnd]. intros s x s'. apply img_body_nodup. }
    destruct (get_img_settles _ _ _ H) as [_ Hfix].
    split; [exact Hnd'|].
    split; [rewrite get_img_value; apply foldM_fixed; exact Hfix|].
    intros img src Hin Hsrc Hfind.
    apply NoDup_entries; [exact Hnd'|].
    exact (img_body_fixed_img _ _ _ (Hfix _ Hin) Hsrc Hfind).
Qed.

End CollectorTables.

Lemma url_tables_keyed_by_full_url_witness :
  (NoDup (cssUrls fd_two_stylesheets) /\
   returned (get_css DOMAIN_source doc_two_stylesheets fd_two_stylesheets) =
   Ok fd_two_stylesheets) /\
  (NoDup (imgUrls fd_two_images) /\
   returned (get_img DOMAIN_source d2lepoexport_unbound doc_two_images fd_two_images) =
   Ok fd_two_images).
Proof.
  split.
  - destruct (proj1 (url_tables_keyed_by_full_url DOMAIN_source d2lepoexport_unbound
                       doc_two_stylesheets make_file_dict fd_two_stylesheets))
      as [Hnd [Hagain _]].
    + constructor.
    + reflexivity.
    + split; [exact Hnd | exact Hagain].
  - destruct (proj2 (url_tables_keyed_by_full_url DOMAIN_source d2lepoexport_unbound
                       doc_two_images make_file_dict fd_two_images))
      as [Hnd [Hagain _]].
    + constructor.
    + reflexivity.
    + split; [exact Hnd | exact Hagain].
Defined.

(** C4 as stated fails: two stylesheet URLs that differ only by their query
    string are two entries of [cssUrls], with the same file name twice, and
    two such image URLs are two entries of [imgUrls]. *)
Lemma query_variants_are_two_entries :
  returned (get_css DOMAIN_source doc_two_stylesheets make_file_dict) =
  Ok fd_two_stylesheets /\
  List.length (cssUrls fd_two_stylesheets) = 2%nat /\
  returned (get_img DOMAIN_source d2lepoexport_unbound doc_two_images make_file_dict) =
  Ok fd_two_images /\
  List.length (imgUrls fd_two_images) = 2%nat.
Proof. repeat split. Qed.

(** ** Documents: induction and the loops over tags *)

Fixpoint node_induction (P : node -> Prop)
  (Hstring : forall s, P (NavigableString s))
  (Htag : forall name a contents, Forall P contents -> P (Tag name a contents))
  (n : node) : P n :=
  match n with
  | NavigableString s => Hstring s
  | Tag name a contents =>
      Htag name a contents
        ((fix all (l : list node) : Forall P l :=
            match l with
            | [] => Forall_nil P
            | c :: l' => Forall_cons c (node_induction P Hstring Htag c) (all l')
            end) contents)
  end.

Lemma mapM_fixed {A : Type} (f : A -> result A) (l : list A) :
  Forall (fun x => f x = Ok x) l -> mapM f l = Ok l.
Proof.
  induction 1 as [|x l Hx _ IH]; simpl; [reflexivity|].
  rewrite Hx, IH. reflexivity.
Qed.

Lemma mapM_Ok {A B : Type} (f : A -> result B) (l : list A) (l' : list B) :
  mapM f l = Ok l' -> Forall2 (fun x y => f x = Ok y) l l'.
Proof.
  revert l'; induction l as [|x l IH]; intros l' H; simpl in H.
  - injection H as <-. constructor.
  - destruct (f x) as [y|] eqn:E; [|discriminate].
    destruct (mapM f l) as [l''|]; [|discriminate].
    injection H as <-. constructor; [exact E | apply IH; reflexivity].
Qed.

Lemma mapM_Raise {A B : Type} (f : A -> result B) (l : list A) (e : exn) :
  mapM f l = Raise e -> exists x, In x l /\ f x = Raise e.
Proof.
  induction l as [|x l IH]; intros H; simpl in H; [discriminate|].
  destruct (f x) as [y|e'] eqn:E.
  - destruct (mapM f l) as [l''|e'']; [discriminate|].
    injection H as ->. destruct (IH eq_refl) as [z [Hz Hf]].
    exists z. split; [right; exact Hz | exact Hf].
  - injection H as ->. exists x. split; [left; reflexivity | exact E].
Qed.

Lemma mapM_must_raise {A B : Type} (f : A -> result B) (l : list A) (x : A) :
  In x l -> (exists e, f x = Raise e) -> exists e, mapM f l = Raise e.
Proof.
  intros Hin [e0 Hx]. induction l as [|y l IH]; [destruct Hin|]. simpl.
  destruct (f y) as [z|e] eqn:E; [|exists e; reflexivity].
  destruct Hin as [->|Hin]; [congruence|].
  destruct (IH Hin) as [e ->]. exists e; reflexivity.
Qed.

Lemma in_tags_forest (t : str * attrs) (d : soup) :
  In t (tags d) <-> exists n, In n d /\ In t (tags_of n).
Proof. unfold tags. apply in_flat_map. Qed.

Lemma in_find_all (sel : str -> attrs -> bool) (d : soup) (a : attrs) :
  In a (find_all sel d) <->
  exists name, In (name, a) (tags d) /\ sel name a = true.
Proof.
  unfold find_all. rewrite in_map_iff. split.
  - intros [[name a'] [E H]]. simpl in E. subst a'.
    apply filter_In in H. exists name. exact H.
  - intros [name H]. exists (name, a). split; [reflexivity|].
    apply filter_In. exact H.
Qed.

Section ForEach.

Variable sel : str -> attrs -> bool.
Variable body : attrs -> result attrs.

Lemma for_each_node_tag name a contents :
  for_each_node sel body (Tag name a contents) =
  match visit sel body name a with
  | Raise e => Raise e
  | Ok a' =>
      match for_each sel body contents with
      | Raise e => Raise e
      | Ok contents' => Ok (Tag name a' contents')
      end
  end.
Proof. reflexivity. Qed.

Lemma for_each_node_fixed (n : node) :
  (forall t, In t (tags_of n) -> visit sel body (fst t) (snd t) = Ok (snd t)) ->
  for_each_node sel body n = Ok n.
Proof.
  induction n as [s|name a contents IH] using node_induction; intros H; [reflexivity|].
  rewrite for_each_node_tag.
  pose proof (H (name, a) (or_introl eq_refl)) as Hhead. simpl in Hhead.
  rewrite Hhead. unfold for_each. rewrite mapM_fixed; [reflexivity|].
  rewrite Forall_forall in *. intros c Hc. apply IH; [exact Hc|].
  intros t Ht. apply H. right. apply in_flat_map. exists c. split; assumption.
Qed.

Lemma for_each_fixed (d : soup) :
  (forall t, In t (tags d) -> visit sel body (fst t) (snd t) = Ok (snd t)) ->
  for_each sel body d = Ok d.
Proof.
  intros H. unfold for_each. apply mapM_fixed. apply Forall_forall.
  intros n Hn. apply for_each_node_fixed. intros t Ht. apply H.
  apply in_tags_forest. exists n. split; assumption.
Qed.

Lemma for_each_node_visited (n n' : node) :
  for_each_node sel body n = Ok n' ->
  Forall2 (visited sel body) (tags_of n) (tags_of n').
Proof.
  revert n'; induction n as [s|name a contents IH] using node_induction; intros n' H.
  - injection H as <-. constructor.
  - rewrite for_each_node_tag in H.
    destruct (visit sel body name a) as [a'|] eqn:Ea; [|discriminate].
    destruct (for_each sel body contents) as [contents'|] eqn:Ec;
      [|discriminate].
    injection H as <-. simpl. constructor; [split; [reflexivity | exact Ea]|].
    apply mapM_Ok in Ec. clear Ea.
    induction Ec as [|c c' l l' Hc _ IHl]; simpl; [constructor|].
    inversion IH as [|? ? Pc Pl]; subst.
    apply Forall2_app; [apply Pc; exact Hc | apply IHl; exact Pl].
Qed.

Lemma for_each_visited (d d' : soup) :
  for_each sel body d = Ok d' -> Forall2 (visited sel body) (tags d) (tags d').
Proof.
  intros H. apply mapM_Ok in H.
  induction H as [|n n' l l' Hn _ IH]; simpl; [constructor|].
  apply Forall2_app; [apply for_each_node_visited; exact Hn | exact IH].
Qed.

Lemma for_each_node_Raise (n : node) (e : exn) :
  for_each_node sel body n = Raise e ->
  exists t, In t (tags_of n) /\ visit sel body (fst t) (snd t) = Raise e.
Proof.
  induction n as [s|name a contents IH] using node_induction; intros H; [discriminate|].
  rewrite for_each_node_tag in H.
  destruct (visit sel body name a) as [a'|e'] eqn:Ea.
  - destruct (for_each sel body contents) as [contents'|e''] eqn:Ec;
      [discriminate|].
    injection H as ->. apply mapM_Raise in Ec. destruct Ec as [c [Hc Hf]].
    rewrite Forall_forall in IH. destruct (IH c Hc Hf) as [t [Ht Hv]].
    exists t. split; [|exact Hv]. right. apply in_flat_map.
    exists c. split; assumption.
  - injection H as ->. exists (name, a). split; [left; reflexivity | exact Ea].
Qed.

Lemma for_each_Raise (d : soup) (e : exn) :
  for_each sel body d = Raise e ->
  exists t, In t (tags d) /\ visit sel body (fst t) (snd t) = Raise e.
Proof.
  intros H. apply mapM_Raise in H. destruct H as [n [Hn Hf]].
  destruct (for_each_node_Raise _ _ Hf) as [t [Ht Hv]].
  exists t. split; [|exact Hv]. apply in_tags_forest.
  exists n. split; assumption.
Qed.

Lemma for_each_node_must_raise (n : node) (t : str * attrs) :
  In t (tags_of n) -> (exists e, visit sel body (fst t) (snd t) = Raise e) ->
  exists e, for_each_node sel body n = Raise e.
Proof.
  induction n as [s|name a contents IH] using node_induction; intros Hin Hraise; [destruct Hin|].
  rewrite for_each_node_tag.
  destruct (visit sel body name a) as [a'|e'] eqn:Ea; [|exists e'; reflexivity].
  destruct Hin as [<-|Hin].
  - destruct Hraise as [e He]. simpl in He. congruence.
  - apply in_flat_map in Hin. destruct Hin as [c [Hc Ht]].
    rewrite Forall_forall in IH.
    destruct (mapM_must_raise (for_each_node sel body) contents c Hc
                (IH c Hc Ht Hraise)) as [e He].
    unfold for_each. rewrite He. exists e; reflexivity.
Qed.

Lemma for_each_must_raise (d : soup) (t : str * attrs) :
  In t (tags d) -> (exists e, visit sel body (fst t) (snd t) = Raise e) ->
  exists e, for_each sel body d = Raise e.
Proof.
  intros Hin Hraise. apply in_tags_forest in Hin. destruct Hin as [n [Hn Ht]].
  apply (mapM_must_raise _ _ n Hn).
  exact (for_each_node_must_raise n t Ht Hraise).
Qed.

End ForEach.

(** ** Missing attributes *)

Lemma foldM_Raise {A S : Type} (f : S -> A -> result S) (l : list A) (s : S)
  (e : exn) :
  foldM f l s = Raise e -> exists s0 x, In x l /\ f s0 x = Raise e.
Proof.
  revert s; induction l as [|x l IH]; intros s H; simpl in H; [discriminate|].
  destruct (f s x) as [s1|e'] eqn:E; simpl in H.
  - destruct (IH _ H) as [s0 [y [Hy Hf]]].
    exists s0, y. split; [right; exact Hy | exact Hf].
  - injection H as ->. exists s, x. split; [left; reflexivity | exact E].
Qed.

Lemma get_css_body_raises_KeyError DOMAIN fd link e :
  value_of (get_css_body DOMAIN) fd link = Raise e -> e = KeyError.
Proof.
  rewrite css_body_value. unfold getitem. intros H.
  destruct (get_attr link "type"); cbn [bind] in H; [|congruence].
  destruct (eqb s "text/css"); [|discriminate].
  destruct (get_attr link "href"); cbn [bind] in H; [|congruence].
  cbv zeta in H. destruct (negb _) in H; discriminate.
Qed.

Lemma update_image_urls_step_raises_KeyError urlparse_path index img entry e :
  update_image_urls_step urlparse_path index img entry = Raise e ->
  e = KeyError.
Proof.
  unfold update_image_urls_step, getitem. destruct entry as [imgUrl imgFileName].
  intros H. destruct (get_attr img "src"); cbn [bind] in H; [|congruence].
  destruct (find s "d2lFile" <? 0); [|discriminate].
  destruct (eqb s (urlparse_path imgUrl)); [|discriminate].
  destruct index; discriminate.
Qed.

Lemma update_image_urls_item_missing_src urlparse_path fd index img :
  get_attr img "src" = None ->
  combine (imgUrls fd) (imgFileNames fd) <> [] ->
  update_image_urls_item urlparse_path fd index img = Raise KeyError.
Proof.
  intros Hsrc Hne. unfold update_image_urls_item.
  destruct (combine (imgUrls fd) (imgFileNames fd)) as [|[u n] l];
    [contradiction|].
  cbn [foldM]. unfold update_image_urls_step at 1.
  rewrite (getitem_missing _ _ Hsrc). reflexivity.
Qed.

(** C10.  An element without the attribute a loop reads makes the whole
    operation raise: an anchor without [href] makes [get_embedded_object]
    raise, with KeyError when the anchors before it were taken in without
    an exception; a link element without [type] makes [get_css] raise
    KeyError; and when the image table (the pairs of [imgUrls] and
    [imgFileNames]) is not empty, an image without [src] makes
    [update_image_urls] raise KeyError. *)
Theorem missing_attribute_raises :
  (forall DOMAIN lookup (d : soup) (fd : fileDict) (a : attrs),
      In a (find_all (named "a") d) -> get_attr a "href" = None ->
      exists e, returned (get_embedded_object DOMAIN lookup d fd) = Raise e) /\
  (forall DOMAIN lookup (d : soup) (fd fd1 : fileDict) (a : attrs)
          (before after : list attrs),
      find_all (named "a") d = before ++ a :: after ->
      get_attr a "href" = None ->
      returned (iterate (get_embedded_object_body DOMAIN lookup) before fd) =
      Ok fd1 ->
      returned (get_embedded_object DOMAIN lookup d fd) = Raise KeyError) /\
  (forall DOMAIN (d : soup) (fd : fileDict) (link : attrs),
      In link (find_all (named "link") d) -> get_attr link "type" = None ->
      returned (get_css DOMAIN d fd) = Raise KeyError) /\
  (forall urlparse_path (d : soup) (fd : fileDict) (index : bool) (img : attrs),
      In img (find_all (named "img") d) -> get_attr img "src" = None ->
      combine (imgUrls fd) (imgFileNames fd) <> [] ->
      update_image_urls urlparse_path d fd index = Raise KeyError).
Proof.
  split; [|split; [|split]].
  - intros DOMAIN lookup d fd a Hin Hhref. rewrite get_embedded_object_value.
    apply (foldM_raises _ _ a Hin). intros s. exists KeyError.
    rewrite !embedded_body_value.
    rewrite (getitem_missing _ _ Hhref). reflexivity.
  - intros DOMAIN lookup d fd fd1 a before after Hsplit Hhref Hbefore.
    rewrite iterate_value in Hbefore.
    rewrite get_embedded_object_value, Hsplit, foldM_app, Hbefore.
    cbn [bind foldM]. rewrite embedded_body_value.
    rewrite (getitem_missing _ _ Hhref). reflexivity.
  - intros DOMAIN d fd link Hin Htype. rewrite get_css_value.
    destruct (foldM_raises (value_of (get_css_body DOMAIN)) _ link Hin) with (s := fd)
      as [e He].
    + intros s. exists KeyError. rewrite !css_body_value.
      rewrite (getitem_missing _ _ Htype). reflexivity.
    + rewrite He. f_equal.
      destruct (foldM_Raise _ _ _ _ He) as [s0 [x [_ Hx]]].
      exact (get_css_body_raises_KeyError _ _ _ _ Hx).
  - intros urlparse_path d fd index img Hin Hsrc Hne. unfold update_image_urls.
    apply in_find_all in Hin. destruct Hin as [name [Hin Hsel]].
    destruct (for_each_must_raise (named "img")
                (update_image_urls_item urlparse_path fd index) d (name, img) Hin)
      as [e He].
    + exists KeyError. unfold visit. cbn [fst snd]. rewrite Hsel.
      apply update_image_urls_item_missing_src; assumption.
    + rewrite He. f_equal.
      destruct (for_each_Raise _ _ _ _ He) as [[n a] [_ Hv]].
      unfold visit in Hv. cbn [fst snd] in Hv.
      destruct (named "img" n a); [|discriminate].
      unfold update_image_urls_item in Hv.
      destruct (foldM_Raise _ _ _ _ Hv) as [s0 [x [_ Hx]]].
      exact (update_image_urls_step_raises_KeyError _ _ _ _ _ Hx).
Qed.

Lemma missing_attribute_raises_witness :
  returned (get_embedded_object DOMAIN_source d2lepoexport_unbound doc_bare_anchor make_file_dict) =
  Raise KeyError /\
  returned (get_css DOMAIN_source doc_bare_link make_file_dict) = Raise KeyError /\
  update_image_urls path_of_url doc_bare_img fd_one_image false = Raise KeyError.
Proof.
  destruct missing_attribute_raises as [_ [Hanchor [Hlink Himg]]].
  split; [|split].
  - apply (Hanchor DOMAIN_source d2lepoexport_unbound doc_bare_anchor make_file_dict
             make_file_dict [(lit "name", lit "top")] [] []); reflexivity.
  - apply (Hlink DOMAIN_source doc_bare_link make_file_dict
             [(lit "rel", lit "icon"); (lit "href", lit "/favicon.ico")]).
    + simpl. left. reflexivity.
    + reflexivity.
  - apply (Himg path_of_url doc_bare_img fd_one_image false
             [(lit "alt", lit "logo")]).
    + simpl. left. reflexivity.
    + reflexivity.
    + discriminate.
Defined.

(** ** Attribute dictionaries *)

Lemma get_set_same (a : attrs) (k v : str) :
  get_attr (set_attr a k v) k = Some v.
Proof.
  induction a as [|[k' v'] a IH]; simpl.
  - rewrite eqb_refl. reflexivity.
  - destruct (eqb k' k) eqn:E; simpl; rewrite E; [reflexivity | exact IH].
Qed.

Lemma get_set_other (a : attrs) (k k' v : str) :
  k' <> k -> get_attr (set_attr a k v) k' = get_attr a k'.
Proof.
  intros Hne.
  assert (Hkk : eqb k k' = false) by (apply eqb_neq; congruence).
  induction a as [|[k0 v0] a IH]; simpl.
  - rewrite Hkk. reflexivity.
  - destruct (eqb k0 k) eqn:E; simpl.
    + apply eqb_eq in E. subst k0. rewrite Hkk. reflexivity.
    + destruct (eqb k0 k'); [reflexivity | exact IH].
Qed.

Lemma set_attr_id (a : attrs) (k v : str) :
  get_attr a k = Some v -> set_attr a k v = a.
Proof.
  induction a as [|[k' v'] a IH]; simpl; [discriminate|].
  destruct (eqb k' k) eqn:E.
  - intros H; injection H as ->. reflexivity.
  - intros H. rewrite (IH H). reflexivity.
Qed.

Lemma set_set (a : attrs) (k v v' : str) :
  set_attr (set_attr a k v) k v' = set_attr a k v'.
Proof.
  induction a as [|[k0 v0] a IH]; simpl.
  - rewrite eqb_refl. reflexivity.
  - destruct (eqb k0 k) eqn:E; simpl; rewrite E; [reflexivity|].
    rewrite IH. reflexivity.
Qed.

(** ** LinkRewriter: formatting images *)

Lemma get_img_body_imgFileNames DOMAIN lookup fd img fd1 :
  value_of (get_img_body DOMAIN lookup) fd img = Ok fd1 ->
  imgFileNames fd1 = imgFileNames fd.
Proof. rewrite !img_body_value. intros H. body_cases H; reflexivity. Qed.

Lemma update_image_urls_no_names urlparse_path (d : soup) (fd : fileDict)
  (index : bool) :
  imgFileNames fd = [] -> update_image_urls urlparse_path d fd index = Ok d.
Proof.
  intros H. unfold update_image_urls. apply for_each_fixed.
  intros t _. unfold visit. destruct (named "img" (fst t) (snd t)); [|reflexivity].
  unfold update_image_urls_item. rewrite H, combine_nil. reflexivity.
Qed.

(** C1 (the code does not do it).  [get_img] enters the URL of a
    formatting image in [imgUrls] and nothing in [imgFileNames]; started
    from a fileDict without image file names it returns one without image
    file names, and with such a fileDict [update_image_urls] leaves every
    document as it is, the images whose [src] is the path of a registered
    URL included. *)
Theorem formatting_images_are_not_rewritten DOMAIN lookup urlparse_path
  (page d : soup) (fd0 fd : fileDict) (index : bool) :
  imgFileNames fd0 = [] ->
  returned (get_img DOMAIN lookup page fd0) = Ok fd ->
  imgFileNames fd = [] /\ update_image_urls urlparse_path d fd index = Ok d.
Proof.
  intros H0 H.
  assert (Hfd : imgFileNames fd = []).
  { revert H. rewrite get_img_value.
    apply (foldM_preserves (value_of (get_img_body DOMAIN lookup))
                       (fun fd => imgFileNames fd = [])); [|exact H0].
    intros s x s' Hs Hx. rewrite (get_img_body_imgFileNames _ _ _ _ _ Hx).
    exact Hs. }
  split; [exact Hfd | apply update_image_urls_no_names; exact Hfd].
Qed.

Lemma formatting_images_are_not_rewritten_witness :
  returned (get_img DOMAIN_source d2lepoexport_unbound doc_formatting_image make_file_dict) =
  Ok fd_formatting_image /\
  path_of_url "https://uwosh-beta.courses.wisconsin.edu/d2l/img/bg.png" =
  lit "/d2l/img/bg.png" /\
  update_image_urls path_of_url doc_formatting_image fd_formatting_image true =
  Ok doc_formatting_image /\
  update_image_urls path_of_url doc_formatting_image fd_formatting_image false =
  Ok doc_formatting_image.
Proof.
  split; [reflexivity|]. split; [reflexivity|]. split.
  - apply (formatting_images_are_not_rewritten DOMAIN_source d2lepoexport_unbound
             path_of_url doc_formatting_image doc_formatting_image
             make_file_dict fd_formatting_image true); reflexivity.
  - apply (formatting_images_are_not_rewritten DOMAIN_source d2lepoexport_unbound
             path_of_url doc_formatting_image doc_formatting_image
             make_file_dict fd_formatting_image false); reflexivity.
Defined.

(** ** LinkRewriter: page links *)

Section PageLinks.

Variable fd : fileDict.
Variable index : bool.

(** The anchor [a] with the reference of the page found, if any. *)
Definition with_page (found : option str) (a : attrs) : attrs :=
  match found with
  | Some pageFileName => set_attr a "href" (page_href index pageFileName)
  | None => a
  end.

Lemma href_not_onclick : lit "onclick" <> lit "href".
Proof. discriminate. Qed.

Lemma with_page_onclick found a :
  get_attr (with_page found a) "onclick" = get_attr a "onclick".
Proof.
  destruct found; simpl; [|reflexivity].
  apply get_set_other. exact href_not_onclick.
Qed.

Lemma update_page_urls_step_href a pageId pageFileName onclick :
  get_attr a "onclick" = Some onclick ->
  update_page_urls_step index a (pageId, pageFileName) =
  Ok (if 0 <? find onclick pageId
      then set_attr a "href" (page_href index pageFileName) else a).
Proof.
  intros H. unfold update_page_urls_step.
  rewrite (proj2 (getitem_Ok _ _ _) H). cbn [bind].
  destruct (0 <? find onclick pageId); [|reflexivity].
  unfold page_href. destruct index; [reflexivity|].
  destruct (negb false && negb (eqb pageFileName "index.html"))%bool;
    reflexivity.
Qed.

Lemma update_page_urls_fold entries a onclick found :
  get_attr a "onclick" = Some onclick ->
  foldM (update_page_urls_step index) entries (with_page found a) =
  Ok (with_page (last_match onclick entries found) a).
Proof.
  intros Ho. revert found.
  induction entries as [|[pageId pageFileName] entries IH]; intros found;
    [reflexivity|].
  cbn [foldM].
  rewrite (update_page_urls_step_href _ pageId pageFileName onclick)
    by (rewrite with_page_onclick; exact Ho).
  cbn [bind]. unfold last_match. cbn [fold_left].
  destruct (0 <? find onclick pageId).
  - replace (set_attr (with_page found a) "href" (page_href index pageFileName))
      with (with_page (Some pageFileName) a)
      by (destruct found; simpl; [rewrite set_set|]; reflexivity).
    apply IH.
  - apply IH.
Qed.

(** What the inner loop makes of a navigation anchor. *)
Lemma update_page_urls_item_spec a onclick :
  get_attr a "onclick" = Some onclick ->
  update_page_urls_item fd index a =
  Ok (with_page
        (last_match onclick (combine (pageIds fd) (pageFileNames fd)) None) a).
Proof.
  intros Ho. unfold update_page_urls_item.
  exact (update_page_urls_fold _ a onclick None Ho).
Qed.

Lemma last_match_none onclick entries found :
  (forall p n, In (p, n) entries -> find onclick p <= 0) ->
  last_match onclick entries found = found.
Proof.
  revert found; induction entries as [|[p n] entries IH]; intros found H;
    [reflexivity|].
  unfold last_match. cbn [fold_left].
  assert (E : (0 <? find onclick p) = false).
  { apply Z.ltb_ge. apply (H p n). left. reflexivity. }
  rewrite E. apply IH. intros p' n' Hin. apply (H p' n'). right. exact Hin.
Qed.

Lemma last_match_split onclick before after pageId pageFileName found :
  0 < find onclick pageId ->
  (forall p n, In (p, n) after -> find onclick p <= 0) ->
  last_match onclick (before ++ (pageId, pageFileName) :: after) found =
  Some pageFileName.
Proof.
  intros Hm Hafter. unfold last_match. rewrite fold_left_app. cbn [fold_left].
  apply Z.ltb_lt in Hm. rewrite Hm.
  exact (last_match_none onclick after (Some pageFileName) Hafter).
Qed.

(** C5 (amended).  For every navigation anchor (an anchor whose [href]
    is "javascript://" once the current page has been marked), the
    page-link pass takes the last page of the index whose id occurs in
    the [onclick] text of the anchor after its first character, and sets
    the reference to "./pages/<name>" in the root document; in another
    document, to "<name>" when the file name of that page is not
    "index.html" and to "../<name>" when it is. *)
Theorem page_links_follow_last_match (d d1 d' : soup) :
  mark_current_page d = Ok d1 ->
  update_page_urls d fd index = Ok d' ->
  Forall2 (nav_rule fd index) (tags d1) (tags d').
Proof.
  intros Hmark H. unfold update_page_urls in H. rewrite Hmark in H.
  cbn [bind] in H. unfold update_nav_anchors in H.
  apply for_each_visited in H.
  eapply Forall2_impl; [|exact H].
  intros [name a] [name' a'] [_ Hv].
  intros onclick pageId pageFileName before after Hname Hhref Ho Hsplit Hm Hafter.
  simpl in *. subst name. unfold visit, named_with, attr_is in Hv.
  rewrite Hhref, !eqb_refl in Hv. cbn [andb] in Hv.
  rewrite (update_page_urls_item_spec a onclick Ho), Hsplit in Hv.
  rewrite (last_match_split _ _ _ _ _ _ Hm Hafter) in Hv.
  injection Hv as <-. apply get_set_same.
Qed.

End PageLinks.

Lemma page_links_follow_last_match_witness :
  update_page_urls doc_menu fd_two_pages true =
  Ok [Tag "div" [(lit "class", lit "d_t_nav")]
        [Tag "a" [(lit "href", lit "./pages/index.html");
                  (lit "onclick", lit "return GotoPage(1234,0);")]
           [NavigableString "Home"];
         Tag "a" [(lit "href", lit "./pages/reflections.html");
                  (lit "onclick", lit "return GotoPage(1234,5678);")]
           [NavigableString "Reflections"]]] /\
  get_attr [(lit "href", lit "./pages/reflections.html");
            (lit "onclick", lit "return GotoPage(1234,5678);")] "href" =
  Some (page_href true "reflections.html").
Proof.
  split; [reflexivity|].
  pose proof (page_links_follow_last_match fd_two_pages true doc_menu doc_menu
                _ eq_refl eq_refl) as H.
  simpl in H. inversion H as [|? ? ? ? _ H1]; subst.
  inversion H1 as [|? ? ? ? _ H2]; subst.
  inversion H2 as [|? ? ? ? Hrule _]; subst.
  apply (Hrule "return GotoPage(1234,5678);" "5678" "reflections.html"
           [(lit "1234", lit "index.html")] []).
  - reflexivity.
  - reflexivity.
  - reflexivity.
  - reflexivity.
  - reflexivity.
  - intros p n [].
Defined.

(** C5 as stated fails: the anchor encodes the page id 5678, the id of
    "a.html" in the index, and in a document that is not the root its
    reference becomes "b.html", the page whose id 567 comes later in the
    index and occurs in the same text. *)
Lemma page_link_goes_to_another_page :
  get_page_id "return GotoPage(1234,5678);" "1234" = Ok (lit "5678") /\
  update_page_urls doc_one_link fd_overlapping_ids false =
  Ok [Tag "a" [(lit "href", lit "b.html");
               (lit "onclick", lit "return GotoPage(1234,5678);")]
        [NavigableString "A"]].
Proof. split; reflexivity. Qed.

(** ** LinkRewriter: a second run over a rewritten document *)

Lemma foldM_ext {A S : Type} (f g : S -> A -> result S) (l : list A) (s : S) :
  (forall s x, f s x = g s x) -> foldM f l s = foldM g l s.
Proof.
  intros H. revert s; induction l as [|x l IH]; intros s; simpl; [reflexivity|].
  rewrite H. destruct (g s x); simpl; [apply IH | reflexivity].
Qed.

Lemma rewrites_trans (good : str -> Prop) (a b c : attrs) :
  rewrites good a b -> rewrites good b c -> rewrites good a c.
Proof.
  intros Hab Hbc. induction Hbc as [|b c k w _ IH Hk Hw]; [exact Hab|].
  apply rewrites_set; auto.
Qed.

Lemma rewrites_one (good : str -> Prop) (a : attrs) (k w : str) :
  k = lit "href" \/ k = lit "src" -> good w ->
  rewrites good a (set_attr a k w).
Proof. intros Hk Hw. apply rewrites_set; [apply rewrites_refl | exact Hk | exact Hw]. Qed.

(** Only [href] and [src] are assigned. *)
Lemma rewrites_other (good : str -> Prop) (a a' : attrs) (k : str) :
  rewrites good a a' -> k <> lit "href" -> k <> lit "src" ->
  get_attr a' k = get_attr a k.
Proof.
  intros H Hh Hs. induction H as [|a a' k0 w _ IH Hk _]; [reflexivity|].
  rewrite get_set_other; [exact IH|].
  destruct Hk as [->| ->]; assumption.
Qed.

(** An attribute of a rewritten tag holds a value that was assigned, or the
    value it had. *)
Lemma rewrites_value (good : str -> Prop) (a a' : attrs) (k v : str) :
  rewrites good a a' -> get_attr a' k = Some v ->
  good v \/ get_attr a k = Some v.
Proof.
  intros H. induction H as [|a a' k0 w _ IH Hk Hw]; intros Hv; [right; exact Hv|].
  destruct (str_eq_dec k k0) as [->|Hne].
  - rewrite get_set_same in Hv. injection Hv as <-. left. exact Hw.
  - rewrite get_set_other in Hv by exact Hne. exact (IH Hv).
Qed.

Lemma rewrites_assign_if (good : str -> Prop) (k w : str) (test : str -> bool)
  (a : attrs) :
  k = lit "href" \/ k = lit "src" -> good w ->
  rewrites good a (assign_if k test w a).
Proof.
  intros Hk Hw. unfold assign_if. destruct (get_attr a k); [|apply rewrites_refl].
  destruct (test s); [apply rewrites_one; assumption | apply rewrites_refl].
Qed.

Lemma assign_when_Ok (k w : str) (test : str -> bool) (a a' : attrs) :
  assign_when k test w a = Ok a' ->
  exists v, get_attr a k = Some v /\
            a' = if test v then set_attr a k w else a.
Proof.
  unfold assign_when, getitem. destruct (get_attr a k) as [v|]; cbn [bind];
    [|discriminate].
  intros H. exists v. split; [reflexivity|].
  destruct (test v); injection H as <-; reflexivity.
Qed.

Lemma assign_when_quiet (k w : str) (test : str -> bool) (a : attrs) (v : str) :
  get_attr a k = Some v -> test v = false -> assign_when k test w a = Ok a.
Proof.
  intros Hv Ht. unfold assign_when.
  rewrite (proj2 (getitem_Ok _ _ _) Hv). cbn [bind]. rewrite Ht. reflexivity.
Qed.

Section Stable.

Variable urlparse_path : str -> str.
Variable fd : fileDict.
Variable index : bool.
Hypothesis Hstable : paths_stable urlparse_path fd index = true.

Lemma written_stable (v : str) :
  In v (written_values fd index) -> stable urlparse_path fd v.
Proof.
  unfold paths_stable in Hstable. rewrite forallb_forall in Hstable.
  exact (Hstable v).
Qed.

Lemma stable_hash : stable urlparse_path fd "#".
Proof. apply written_stable. left. reflexivity. Qed.

Lemma stable_content (e : str * str) :
  In e (combine (fileIds fd) (fileNames fd)) ->
  stable urlparse_path fd (content_href index (snd e)).
Proof.
  intros H. apply written_stable. right. apply in_or_app. left.
  apply in_map_iff. exists e. split; [reflexivity | exact H].
Qed.

Lemma stable_css (e : str * str) :
  In e (combine (cssUrls fd) (cssFileNames fd)) ->
  stable urlparse_path fd (formatting_href index (snd e)).
Proof.
  intros H. apply written_stable. right. apply in_or_app. right.
  apply in_or_app. left.
  apply in_map_iff. exists e. split; [reflexivity | exact H].
Qed.

Lemma stable_img (e : str * str) :
  In e (combine (imgUrls fd) (imgFileNames fd)) ->
  stable urlparse_path fd (formatting_href index (snd e)).
Proof.
  intros H. apply written_stable. right. apply in_or_app. right.
  apply in_or_app. right. apply in_or_app. left.
  apply in_map_iff. exists e. split; [reflexivity | exact H].
Qed.

Lemma stable_page (e : str * str) :
  In e (combine (pageIds fd) (pageFileNames fd)) ->
  stable urlparse_path fd (page_href index (snd e)).
Proof.
  intros H. apply written_stable. right. apply in_or_app. right.
  apply in_or_app. right. apply in_or_app. right.
  apply in_map_iff. exists e. split; [reflexivity | exact H].
Qed.

End Stable.

Lemma stable_files urlparse_path fd (v : str) (e : str * str) :
  stable urlparse_path fd v -> In e (combine (fileIds fd) (fileNames fd)) ->
  (0 <? find v (fst e)) = false.
Proof.
  unfold stable, stable_value. intros H Hin.
  apply andb_true_iff in H. destruct H as [H _].
  apply andb_true_iff in H. destruct H as [H _].
  rewrite forallb_forall in H. apply negb_true_iff. exact (H e Hin).
Qed.

Lemma stable_csss urlparse_path fd (v : str) (e : str * str) :
  stable urlparse_path fd v -> In e (combine (cssUrls fd) (cssFileNames fd)) ->
  (0 <? find (fst e) v) = false.
Proof.
  unfold stable, stable_value. intros H Hin.
  apply andb_true_iff in H. destruct H as [H _].
  apply andb_true_iff in H. destruct H as [_ H].
  rewrite forallb_forall in H. apply negb_true_iff. exact (H e Hin).
Qed.

Lemma stable_imgs urlparse_path fd (v : str) (e : str * str) :
  stable urlparse_path fd v -> In e (combine (imgUrls fd) (imgFileNames fd)) ->
  ((find v "d2lFile" <? 0) && eqb v (urlparse_path (fst e)))%bool = false.
Proof.
  unfold stable, stable_value. intros H Hin.
  apply andb_true_iff in H. destruct H as [_ H].
  rewrite forallb_forall in H. apply negb_true_iff. exact (H e Hin).
Qed.

Lemma rewrites_present (good : str -> Prop) (a a' : attrs) (k v : str) :
  rewrites good a a' -> get_attr a k = Some v ->
  exists v', get_attr a' k = Some v'.
Proof.
  intros H Hv. induction H as [|a a' k0 w _ IH Hk Hw]; [exists v; exact Hv|].
  destruct (str_eq_dec k k0) as [->|Hne].
  - exists w. apply get_set_same.
  - rewrite get_set_other by exact Hne. exact (IH Hv).
Qed.

Section Quiet.

Variable urlparse_path : str -> str.
Variable fd : fileDict.

Lemma files_quiet_rewrites (a a' : attrs) :
  rewrites (stable urlparse_path fd) a a' ->
  files_quiet fd a -> files_quiet fd a'.
Proof.
  intros Hr Hq k v Hk Hv e He.
  destruct (rewrites_value _ _ _ _ _ Hr Hv) as [Hgood|Hold].
  - exact (stable_files _ _ _ _ Hgood He).
  - exact (Hq k v Hk Hold e He).
Qed.

Lemma css_quiet_rewrites (a a' : attrs) :
  rewrites (stable urlparse_path fd) a a' ->
  css_quiet fd a -> css_quiet fd a'.
Proof.
  intros Hr [Hnil|[v [Hv Hq]]]; [left; exact Hnil|]. right.
  destruct (rewrites_present _ _ _ _ _ Hr Hv) as [v' Hv'].
  exists v'. split; [exact Hv'|]. intros e He.
  destruct (rewrites_value _ _ _ _ _ Hr Hv') as [Hgood|Hold].
  - exact (stable_csss _ _ _ _ Hgood He).
  - rewrite Hv in Hold. injection Hold as <-. exact (Hq e He).
Qed.

Lemma img_quiet_rewrites (a a' : attrs) :
  rewrites (stable urlparse_path fd) a a' ->
  img_quiet urlparse_path fd a -> img_quiet urlparse_path fd a'.
Proof.
  intros Hr [Hnil|[v [Hv Hq]]]; [left; exact Hnil|]. right.
  destruct (rewrites_present _ _ _ _ _ Hr Hv) as [v' Hv'].
  exists v'. split; [exact Hv'|]. intros e He.
  destruct (rewrites_value _ _ _ _ _ Hr Hv') as [Hgood|Hold].
  - exact (stable_imgs _ _ _ _ Hgood He).
  - rewrite Hv in Hold. injection Hold as <-. exact (Hq e He).
Qed.

End Quiet.

(** *** The pass over the embedded files *)

Lemma update_file_urls_step_assign (index : bool) (item : attrs) (e : str * str) :
  update_file_urls_step index item e =
  assign_if "src" (fun v => 0 <? find v (fst e)) (content_href index (snd e))
    (assign_if "href" (fun v => 0 <? find v (fst e))
       (content_href index (snd e)) item).
Proof.
  destruct e as [fileId fileName]. unfold update_file_urls_step, assign_if,
    content_href. cbn [fst snd].
  destruct (get_attr item "href") as [href|].
  - destruct (0 <? find href fileId); destruct index; reflexivity.
  - destruct index; reflexivity.
Qed.

Lemma assign_if_quiet (k w : str) (test : str -> bool) (a : attrs) :
  (forall v, get_attr a k = Some v -> test v = false) ->
  assign_if k test w a = a.
Proof.
  intros H. unfold assign_if. destruct (get_attr a k) as [v|]; [|reflexivity].
  rewrite (H v eq_refl). reflexivity.
Qed.

Lemma assign_if_other (k k' w : str) (test : str -> bool) (a : attrs) :
  k' <> k -> get_attr (assign_if k test w a) k' = get_attr a k'.
Proof.
  intros Hne. unfold assign_if. destruct (get_attr a k) as [v|]; [|reflexivity].
  destruct (test v); [apply get_set_other; exact Hne | reflexivity].
Qed.

Lemma assign_if_value (k w : str) (test : str -> bool) (a : attrs) (v : str) :
  get_attr (assign_if k test w a) k = Some v ->
  v = w \/ (get_attr a k = Some v /\ test v = false).
Proof.
  unfold assign_if. destruct (get_attr a k) as [v0|] eqn:E.
  - destruct (test v0) eqn:Et.
    + rewrite get_set_same. intros H; injection H as <-. left; reflexivity.
    + rewrite E. intros H; injection H as <-. right. split; [reflexivity | exact Et].
  - rewrite E. discriminate.
Qed.

Section FilePass.

Variable urlparse_path : str -> str.
Variable fd : fileDict.
Variable index : bool.
Hypothesis Hstable : paths_stable urlparse_path fd index = true.

(** The value of [k] is one that was assigned, or one that matches no file
    id of [l]. *)
Definition tested (l : list (str * str)) (a : attrs) (k : str) : Prop :=
  forall v, get_attr a k = Some v ->
    stable urlparse_path fd v \/
    forall e, In e l -> (0 <? find v (fst e)) = false.

Lemma update_file_urls_step_tested (l : list (str * str)) (a : attrs)
  (e : str * str) (k : str) :
  In e (combine (fileIds fd) (fileNames fd)) ->
  k = lit "href" \/ k = lit "src" ->
  tested l a k -> tested (l ++ [e]) (update_file_urls_step index a e) k.
Proof.
  intros He Hk Ht v Hv. rewrite update_file_urls_step_assign in Hv.
  assert (Hcase : v = content_href index (snd e) \/
                  (get_attr a k = Some v /\ (0 <? find v (fst e)) = false)).
  { destruct Hk as [->| ->].
    - rewrite assign_if_other in Hv by discriminate.
      exact (assign_if_value _ _ _ _ _ Hv).
    - apply assign_if_value in Hv. destruct Hv as [Hv|[Hv Hq]];
        [left; exact Hv|].
      rewrite assign_if_other in Hv by discriminate.
      right. split; assumption. }
  destruct Hcase as [->|[Hold Hq]].
  - left. exact (stable_content _ _ _ Hstable e He).
  - destruct (Ht v Hold) as [Hgood|Hl]; [left; exact Hgood|].
    right. intros e' He'. apply in_app_or in He'.
    destruct He' as [He'|[<-|[]]]; [exact (Hl e' He') | exact Hq].
Qed.

Lemma update_file_urls_fold (todo done : list (str * str)) (a : attrs) :
  incl todo (combine (fileIds fd) (fileNames fd)) ->
  tested done a "href" -> tested done a "src" ->
  rewrites (stable urlparse_path fd) a
    (fold_left (update_file_urls_step index) todo a) /\
  tested (done ++ todo) (fold_left (update_file_urls_step index) todo a) "href" /\
  tested (done ++ todo) (fold_left (update_file_urls_step index) todo a) "src".
Proof.
  revert done a. induction todo as [|e todo IH]; intros done a Hin Hh Hs.
  - rewrite app_nil_r. split; [apply rewrites_refl | split; assumption].
  - cbn [fold_left].
    assert (He : In e (combine (fileIds fd) (fileNames fd)))
      by (apply Hin; left; reflexivity).
    destruct (IH (done ++ [e]) (update_file_urls_step index a e)) as [Hr Ht].
    + intros x Hx. apply Hin. right. exact Hx.
    + apply update_file_urls_step_tested; auto.
    + apply update_file_urls_step_tested; auto.
    + rewrite <- app_assoc in Ht. split; [|exact Ht].
      refine (rewrites_trans _ _ _ _ _ Hr).
      rewrite update_file_urls_step_assign.
      eapply rewrites_trans; apply rewrites_assign_if; auto;
        exact (stable_content _ _ _ Hstable e He).
Qed.

Lemma update_file_urls_item_settles (a a' : attrs) :
  update_file_urls_item fd index a = Ok a' ->
  rewrites (stable urlparse_path fd) a a' /\ files_quiet fd a'.
Proof.
  unfold update_file_urls_item. intros H. injection H as <-.
  destruct (update_file_urls_fold (combine (fileIds fd) (fileNames fd)) [] a)
    as [Hr [Hh Hs]].
  - apply incl_refl.
  - intros v _. right. intros e [].
  - intros v _. right. intros e [].
  - split; [exact Hr|]. intros k v Hk Hv e He. simpl in Hh, Hs.
    assert (Ht : stable urlparse_path fd v \/
                 forall e, In e (combine (fileIds fd) (fileNames fd)) ->
                           (0 <? find v (fst e)) = false)
      by (destruct Hk as [->| ->]; [exact (Hh v Hv) | exact (Hs v Hv)]).
    destruct Ht as [Hgood|Hq]; [exact (stable_files _ _ _ _ Hgood He) | exact (Hq e He)].
Qed.

End FilePass.

Lemma update_file_urls_item_quiet (fd : fileDict) (index : bool) (a : attrs) :
  files_quiet fd a -> update_file_urls_item fd index a = Ok a.
Proof.
  intros Hq. unfold update_file_urls_item. f_equal.
  assert (H : forall l, incl l (combine (fileIds fd) (fileNames fd)) ->
                        fold_left (update_file_urls_step index) l a = a).
  { induction l as [|e l IH]; intros Hin; [reflexivity|]. cbn [fold_left].
    rewrite update_file_urls_step_assign.
    assert (He : In e (combine (fileIds fd) (fileNames fd)))
      by (apply Hin; left; reflexivity).
    rewrite (assign_if_quiet "href")
      by (intros v Hv; exact (Hq _ v (or_introl eq_refl) Hv e He)).
    rewrite (assign_if_quiet "src")
      by (intros v Hv; exact (Hq _ v (or_intror eq_refl) Hv e He)).
    apply IH. intros x Hx. apply Hin. right. exact Hx. }
  apply H. apply incl_refl.
Qed.

(** *** The passes over the stylesheets and the formatting images *)

Section AssignWhen.

Variable k : str.
Variable test : str * str -> str -> bool.
Variable w : str * str -> str.
Variable good : str -> Prop.

(** The value of [k] is one that was assigned, or one that no entry of [l]
    matches. *)
Definition checked (l : list (str * str)) (a : attrs) : Prop :=
  l = [] \/
  exists v, get_attr a k = Some v /\
            (good v \/ forall e, In e l -> test e v = false).

Lemma foldM_assign_when (todo done : list (str * str)) (a a' : attrs) :
  k = lit "href" \/ k = lit "src" ->
  (forall e, In e todo -> good (w e)) ->
  checked done a ->
  foldM (fun a e => assign_when k (test e) (w e) a) todo a = Ok a' ->
  rewrites good a a' /\ checked (done ++ todo) a'.
Proof.
  intros Hk. revert done a.
  induction todo as [|e todo IH]; intros done a Hgood Hdone H.
  - injection H as <-. rewrite app_nil_r.
    split; [apply rewrites_refl | exact Hdone].
  - cbn [foldM] in H.
    destruct (assign_when k (test e) (w e) a) as [a1|] eqn:E1; cbn [bind] in H;
      [|discriminate].
    destruct (assign_when_Ok _ _ _ _ _ E1) as [v [Hv Ha1]].
    assert (Hstep : rewrites good a a1 /\ checked (done ++ [e]) a1).
    { destruct (test e v) eqn:Et; subst a1.
      - split; [apply rewrites_one; [exact Hk | apply Hgood; left; reflexivity]|].
        right. exists (w e). split; [apply get_set_same|].
        left. apply Hgood. left. reflexivity.
      - split; [apply rewrites_refl|]. right. exists v. split; [exact Hv|].
        destruct Hdone as [->|[v0 [Hv0 Hq]]].
        + right. intros e' [<-|[]]. exact Et.
        + rewrite Hv in Hv0. injection Hv0 as <-.
          destruct Hq as [Hg|Hq]; [left; exact Hg|].
          right. intros e' He'. apply in_app_or in He'.
          destruct He' as [He'|[<-|[]]]; [exact (Hq e' He') | exact Et]. }
    destruct Hstep as [Hr1 Hc1].
    destruct (IH (done ++ [e]) a1) as [Hr Hc]; auto.
    + intros e' He'. apply Hgood. right. exact He'.
    + rewrite <- app_assoc in Hc. split; [|exact Hc].
      exact (rewrites_trans _ _ _ _ Hr1 Hr).
Qed.

Lemma foldM_assign_when_quiet (l : list (str * str)) (a : attrs) (v : str) :
  get_attr a k = Some v -> (forall e, In e l -> test e v = false) ->
  foldM (fun a e => assign_when k (test e) (w e) a) l a = Ok a.
Proof.
  intros Hv. induction l as [|e l IH]; intros Hq; [reflexivity|].
  cbn [foldM]. rewrite (assign_when_quiet _ _ _ _ v Hv)
    by (apply Hq; left; reflexivity).
  cbn [bind]. apply IH. intros e' He'. apply Hq. right. exact He'.
Qed.

End AssignWhen.

Lemma update_css_urls_step_assign (index : bool) (a : attrs) (e : str * str) :
  update_css_urls_step index a e =
  assign_when "href" (fun v => 0 <? find (fst e) v)
    (formatting_href index (snd e)) a.
Proof.
  destruct e as [cssUrl cssFileName].
  unfold update_css_urls_step, assign_when, formatting_href. cbn [fst snd].
  destruct (getitem a "href") as [href|]; cbn [bind]; [|reflexivity].
  destruct (0 <? find cssUrl href); destruct index; reflexivity.
Qed.

Lemma update_image_urls_step_assign urlparse_path (index : bool) (img : attrs)
  (e : str * str) :
  update_image_urls_step urlparse_path index img e =
  assign_when "src"
    (fun v => ((find v "d2lFile" <? 0) && eqb v (urlparse_path (fst e)))%bool)
    (formatting_href index (snd e)) img.
Proof.
  destruct e as [imgUrl imgFileName].
  unfold update_image_urls_step, assign_when, formatting_href. cbn [fst snd].
  destruct (getitem img "src") as [src|]; cbn [bind]; [|reflexivity].
  destruct (find src "d2lFile" <? 0); cbn [andb]; [|reflexivity].
  destruct (eqb src (urlparse_path imgUrl)); destruct index; reflexivity.
Qed.

Section FormattingPasses.

Variable urlparse_path : str -> str.
Variable fd : fileDict.
Variable index : bool.
Hypothesis Hstable : paths_stable urlparse_path fd index = true.

Lemma update_css_urls_item_settles (a a' : attrs) :
  update_css_urls_item fd index a = Ok a' ->
  rewrites (stable urlparse_path fd) a a' /\ css_quiet fd a'.
Proof.
  unfold update_css_urls_item. intros H.
  rewrite (foldM_ext _ _ _ _ (update_css_urls_step_assign index)) in H.
  destruct (foldM_assign_when "href" (fun e v => 0 <? find (fst e) v)
              (fun e => formatting_href index (snd e)) (stable urlparse_path fd)
              (combine (cssUrls fd) (cssFileNames fd)) [] a a')
    as [Hr Hc].
  - left; reflexivity.
  - intros e He. exact (stable_css _ _ _ Hstable e He).
  - left; reflexivity.
  - exact H.
  - split; [exact Hr|]. simpl in Hc.
    destruct Hc as [Hnil|[v [Hv Hq]]]; [left; exact Hnil|].
    right. exists v. split; [exact Hv|]. intros e He.
    destruct Hq as [Hg|Hq]; [exact (stable_csss _ _ _ _ Hg He) | exact (Hq e He)].
Qed.

Lemma update_image_urls_item_settles (a a' : attrs) :
  update_image_urls_item urlparse_path fd index a = Ok a' ->
  rewrites (stable urlparse_path fd) a a' /\ img_quiet urlparse_path fd a'.
Proof.
  unfold update_image_urls_item. intros H.
  rewrite (foldM_ext _ _ _ _ (update_image_urls_step_assign urlparse_path index))
    in H.
  destruct (foldM_assign_when "src"
              (fun e v => ((find v "d2lFile" <? 0)
                           && eqb v (urlparse_path (fst e)))%bool)
              (fun e => formatting_href index (snd e)) (stable urlparse_path fd)
              (combine (imgUrls fd) (imgFileNames fd)) [] a a')
    as [Hr Hc].
  - right; reflexivity.
  - intros e He. exact (stable_img _ _ _ Hstable e He).
  - left; reflexivity.
  - exact H.
  - split; [exact Hr|]. simpl in Hc.
    destruct Hc as [Hnil|[v [Hv Hq]]]; [left; exact Hnil|].
    right. exists v. split; [exact Hv|]. intros e He.
    destruct Hq as [Hg|Hq]; [exact (stable_imgs _ _ _ _ Hg He) | exact (Hq e He)].
Qed.

End FormattingPasses.

Lemma update_css_urls_item_quiet (fd : fileDict) (index : bool) (a : attrs) :
  css_quiet fd a -> update_css_urls_item fd index a = Ok a.
Proof.
  unfold update_css_urls_item. intros [Hnil|[v [Hv Hq]]].
  - rewrite Hnil. reflexivity.
  - rewrite (foldM_ext _ _ _ _ (update_css_urls_step_assign index)).
    exact (foldM_assign_when_quiet "href" (fun e v => 0 <? find (fst e) v)
             (fun e => formatting_href index (snd e)) _ a v Hv Hq).
Qed.

Lemma update_image_urls_item_quiet urlparse_path (fd : fileDict) (index : bool)
  (a : attrs) :
  img_quiet urlparse_path fd a ->
  update_image_urls_item urlparse_path fd index a = Ok a.
Proof.
  unfold update_image_urls_item. intros [Hnil|[v [Hv Hq]]].
  - rewrite Hnil. reflexivity.
  - rewrite (foldM_ext _ _ _ _
               (update_image_urls_step_assign urlparse_path index)).
    exact (foldM_assign_when_quiet "src"
             (fun e v => ((find v "d2lFile" <? 0)
                          && eqb v (urlparse_path (fst e)))%bool)
             (fun e => formatting_href index (snd e)) _ a v Hv Hq).
Qed.

(** *** The pass over the page links *)

Lemma last_match_In (onclick : str) (l : list (str * str)) (found : option str)
  (n : str) :
  last_match onclick l found = Some n ->
  found = Some n \/ exists e, In e l /\ snd e = n.
Proof.
  revert found; induction l as [|[p m] l IH]; intros found H.
  - left. exact H.
  - unfold last_match in H. cbn [fold_left] in H.
    destruct (IH _ H) as [Hf|[e [He Hn]]].
    + destruct (0 <? find onclick p).
      * injection Hf as <-. right. exists (p, m). split; [left|]; reflexivity.
      * left. exact Hf.
    + right. exists e. split; [right; exact He | exact Hn].
Qed.

Lemma update_page_urls_step_onclick (index : bool) (a a' : attrs) (e : str * str) :
  update_page_urls_step index a e = Ok a' ->
  exists onclick, get_attr a "onclick" = Some onclick.
Proof.
  destruct e as [pageId pageFileName]. unfold update_page_urls_step, getitem.
  destruct (get_attr a "onclick") as [o|]; cbn [bind]; [|discriminate].
  intros _. exists o. reflexivity.
Qed.

Section PagePass.

Variable urlparse_path : str -> str.
Variable fd : fileDict.
Variable index : bool.
Hypothesis Hstable : paths_stable urlparse_path fd index = true.

Lemma with_page_twice (found : option str) (a : attrs) :
  with_page index found (with_page index found a) = with_page index found a.
Proof. destruct found; simpl; [apply set_set | reflexivity]. Qed.

Lemma update_page_urls_item_settles (a a' : attrs) :
  update_page_urls_item fd index a = Ok a' ->
  rewrites (stable urlparse_path fd) a a' /\
  update_page_urls_item fd index a' = Ok a'.
Proof.
  intros H.
  destruct (combine (pageIds fd) (pageFileNames fd)) as [|e l] eqn:El.
  - unfold update_page_urls_item in *. rewrite El in *.
    injection H as <-. split; [apply rewrites_refl | reflexivity].
  - assert (Ho : exists onclick, get_attr a "onclick" = Some onclick).
    { unfold update_page_urls_item in H. rewrite El in H. cbn [foldM] in H.
      destruct (update_page_urls_step index a e) as [a1|] eqn:E1;
        [|discriminate].
      exact (update_page_urls_step_onclick _ _ _ _ E1). }
    destruct Ho as [onclick Ho].
    rewrite (update_page_urls_item_spec fd index a onclick Ho) in H.
    injection H as <-. split.
    + destruct (last_match onclick (combine (pageIds fd) (pageFileNames fd)) None)
        as [n|] eqn:Em; simpl; [|apply rewrites_refl].
      apply rewrites_one; [left; reflexivity|].
      destruct (last_match_In _ _ _ _ Em) as [Hf|[e' [He' <-]]]; [discriminate|].
      exact (stable_page _ _ _ Hstable e' He').
    + rewrite (update_page_urls_item_spec fd index _ onclick)
        by (rewrite with_page_onclick; exact Ho).
      rewrite with_page_twice. reflexivity.
Qed.

End PagePass.

(** *** One tag through the passes *)

Definition files_tag (fd : fileDict) (t : str * attrs) : Prop :=
  named_in [lit "a"; lit "img"] (fst t) (snd t) = true ->
  files_quiet fd (snd t).

Definition css_tag (fd : fileDict) (t : str * attrs) : Prop :=
  named_with "link" "type" "text/css" (fst t) (snd t) = true ->
  css_quiet fd (snd t).

Definition img_tag (urlparse_path : str -> str) (fd : fileDict)
  (t : str * attrs) : Prop :=
  named "img" (fst t) (snd t) = true -> img_quiet urlparse_path fd (snd t).

Section TagThroughPasses.

Variable urlparse_path : str -> str.
Variable fd : fileDict.
Variable index : bool.
Hypothesis Hstable : paths_stable urlparse_path fd index = true.

Lemma named_with_type_rewrites (name : str) (a a' : attrs) :
  rewrites (stable urlparse_path fd) a a' ->
  named_with "link" "type" "text/css" name a' =
  named_with "link" "type" "text/css" name a.
Proof.
  intros Hr. unfold named_with, attr_is.
  rewrite (rewrites_other _ _ _ "type" Hr) by discriminate. reflexivity.
Qed.

Lemma files_tag_rewrites (name : str) (a a' : attrs) :
  rewrites (stable urlparse_path fd) a a' ->
  files_tag fd (name, a) -> files_tag fd (name, a').
Proof.
  intros Hr H Hsel. exact (files_quiet_rewrites _ _ _ _ Hr (H Hsel)).
Qed.

Lemma css_tag_rewrites (name : str) (a a' : attrs) :
  rewrites (stable urlparse_path fd) a a' ->
  css_tag fd (name, a) -> css_tag fd (name, a').
Proof.
  intros Hr H Hsel. cbn [fst snd] in *.
  rewrite (named_with_type_rewrites name a a' Hr) in Hsel.
  exact (css_quiet_rewrites _ _ _ _ Hr (H Hsel)).
Qed.

Lemma img_tag_rewrites (name : str) (a a' : attrs) :
  rewrites (stable urlparse_path fd) a a' ->
  img_tag urlparse_path fd (name, a) -> img_tag urlparse_path fd (name, a').
Proof.
  intros Hr H Hsel. exact (img_quiet_rewrites _ _ _ _ Hr (H Hsel)).
Qed.

(** Each pass assigns stable values only, and leaves a tag that it does
    not change any more. *)
Lemma file_pass_tag (name : str) (a a' : attrs) :
  visit (named_in [lit "a"; lit "img"]) (update_file_urls_item fd index)
    name a = Ok a' ->
  rewrites (stable urlparse_path fd) a a' /\ files_tag fd (name, a').
Proof.
  unfold visit, files_tag. cbn [fst snd].
  destruct (named_in [lit "a"; lit "img"] name a) eqn:Esel; intros H.
  - destruct (update_file_urls_item_settles _ _ _ Hstable _ _ H) as [Hr Hq].
    split; [exact Hr | intros _; exact Hq].
  - injection H as <-. split; [apply rewrites_refl|].
    unfold named_in in *. congruence.
Qed.

Lemma css_pass_tag (name : str) (a a' : attrs) :
  visit (named_with "link" "type" "text/css") (update_css_urls_item fd index)
    name a = Ok a' ->
  rewrites (stable urlparse_path fd) a a' /\ css_tag fd (name, a').
Proof.
  unfold visit, css_tag. cbn [fst snd].
  destruct (named_with "link" "type" "text/css" name a) eqn:Esel; intros H.
  - destruct (update_css_urls_item_settles _ _ _ Hstable _ _ H) as [Hr Hq].
    split; [exact Hr | intros _; exact Hq].
  - injection H as <-. split; [apply rewrites_refl | congruence].
Qed.

Lemma img_pass_tag (name : str) (a a' : attrs) :
  visit (named "img") (update_image_urls_item urlparse_path fd index)
    name a = Ok a' ->
  rewrites (stable urlparse_path fd) a a' /\ img_tag urlparse_path fd (name, a').
Proof.
  unfold visit, img_tag. cbn [fst snd].
  destruct (named "img" name a) eqn:Esel; intros H.
  - destruct (update_image_urls_item_settles _ _ _ Hstable _ _ H) as [Hr Hq].
    split; [exact Hr | intros _; exact Hq].
  - injection H as <-. split; [apply rewrites_refl|].
    unfold named in *. congruence.
Qed.

Lemma page_pass_tag (name : str) (a a' : attrs) :
  visit (named_with "a" "href" "javascript://") (update_page_urls_item fd index)
    name a = Ok a' ->
  rewrites (stable urlparse_path fd) a a' /\
  visit (named_with "a" "href" "javascript://") (update_page_urls_item fd index)
    name a' = Ok a'.
Proof.
  unfold visit.
  destruct (named_with "a" "href" "javascript://" name a) eqn:Esel; intros H.
  - destruct (update_page_urls_item_settles _ _ _ Hstable _ _ H) as [Hr Hq].
    split; [exact Hr|]. rewrite Hq.
    destruct (named_with "a" "href" "javascript://" name a'); reflexivity.
  - injection H as <-. split; [apply rewrites_refl|]. rewrite Esel. reflexivity.
Qed.

End TagThroughPasses.

(** *** The whole document through the passes *)

Lemma Forall2_Forall {A B : Type} (R : A -> B -> Prop) (P : A -> Prop)
  (Q : B -> Prop) (l : list A) (l' : list B) :
  (forall x y, R x y -> P x -> Q y) ->
  Forall2 R l l' -> Forall P l -> Forall Q l'.
Proof.
  intros H HR. induction HR as [|x y l l' Hxy _ IH]; intros HP; [constructor|].
  inversion HP; subst. constructor; [eapply H; eassumption | apply IH; assumption].
Qed.

Lemma for_each_all_tags (sel : str -> attrs -> bool)
  (body : attrs -> result attrs) (P Q : str * attrs -> Prop) (d d' : soup) :
  (forall name a a', P (name, a) -> visit sel body name a = Ok a' ->
                     Q (name, a')) ->
  for_each sel body d = Ok d' -> Forall P (tags d) -> Forall Q (tags d').
Proof.
  intros H Hd. apply for_each_visited in Hd.
  apply (Forall2_Forall (visited sel body)); [|exact Hd].
  intros [name a] [name' a'] [Hn Hv] HP. cbn [fst snd] in *. subst name'.
  exact (H name a a' HP Hv).
Qed.

Lemma mark_current_node_tag (name : str) (a : attrs) (contents : list node)
  (n' : node) :
  mark_current_node (Tag name a contents) = Ok n' ->
  exists contents',
    mapM mark_current_node contents = Ok contents' /\
    n' = Tag name a (if is_current name a then set_first_href contents'
                     else contents') /\
    (is_current name a = true ->
     exists n0 a0 c0 rest, contents = Tag n0 a0 c0 :: rest).
Proof.
  cbn [mark_current_node]. fold (is_current name a).
  destruct (is_current name a).
  - destruct contents as [|[s|n0 a0 c0] rest]; try discriminate.
    destruct (mapM mark_current_node (Tag n0 a0 c0 :: rest)) as [contents'|];
      [|discriminate].
    intros H; injection H as <-. exists contents'.
    split; [reflexivity|]. split; [reflexivity|].
    intros _. exists n0, a0, c0, rest. reflexivity.
  - destruct (mapM mark_current_node contents) as [contents'|]; [|discriminate].
    intros H; injection H as <-. exists contents'.
    split; [reflexivity|]. split; [reflexivity | discriminate].
Qed.

Lemma tags_set_first_href (P : str * attrs -> Prop) (contents : list node) :
  (forall name a, P (name, a) -> P (name, set_attr a "href" "#")) ->
  Forall P (tags contents) -> Forall P (tags (set_first_href contents)).
Proof.
  intros HP H. destruct contents as [|[s|n0 a0 c0] rest]; try exact H.
  unfold set_first_href. unfold tags in *. cbn [flat_map tags_of] in *.
  rewrite <- app_comm_cons in *. inversion H; subst.
  constructor; [apply HP; assumption | assumption].
Qed.

Lemma mark_current_node_all_tags (P : str * attrs -> Prop) (n n' : node) :
  (forall name a, P (name, a) -> P (name, set_attr a "href" "#")) ->
  mark_current_node n = Ok n' -> Forall P (tags_of n) -> Forall P (tags_of n').
Proof.
  intros HP. revert n'.
  induction n as [s|name a contents IH] using node_induction; intros n' H Hall.
  - injection H as <-. exact Hall.
  - destruct (mark_current_node_tag _ _ _ _ H) as [contents' [Hc [-> _]]].
    cbn [tags_of] in *. inversion Hall as [|? ? Hhead Hrest]; subst.
    constructor; [exact Hhead|].
    assert (Hall' : Forall P (tags contents')).
    { clear H Hhead Hall. apply mapM_Ok in Hc. unfold tags.
      revert IH Hrest.
      induction Hc as [|c c' l l' Hcc _ IHl]; intros IH Hrest; [constructor|].
      cbn [flat_map] in *. apply Forall_app in Hrest. destruct Hrest as [H1 H2].
      inversion IH as [|? ? Pc Pl]; subst.
      apply Forall_app. split; [exact (Pc c' Hcc H1) | exact (IHl Pl H2)]. }
    destruct (is_current name a);
      [apply tags_set_first_href; assumption | exact Hall'].
Qed.

Lemma mark_current_page_all_tags (P : str * attrs -> Prop) (d d' : soup) :
  (forall name a, P (name, a) -> P (name, set_attr a "href" "#")) ->
  mark_current_page d = Ok d' -> Forall P (tags d) -> Forall P (tags d').
Proof.
  intros HP H. unfold mark_current_page in H. apply mapM_Ok in H. unfold tags.
  induction H as [|n n' l l' Hn _ IH]; intros Hall; [constructor|].
  cbn [flat_map] in *. apply Forall_app in Hall. destruct Hall as [H1 H2].
  apply Forall_app. split; [|apply IH; exact H2].
  exact (mark_current_node_all_tags P n n' HP Hn H1).
Qed.

(** *** The divs of the current page *)

Lemma is_current_set_attr (name : str) (a : attrs) (k v : str) :
  k <> lit "class" ->
  is_current name (set_attr a k v) = is_current name a.
Proof.
  intros Hk. unfold is_current, named_with_class, has_class.
  rewrite get_set_other by congruence. reflexivity.
Qed.

Lemma is_current_rewrites (good : str -> Prop) (name : str) (a a' : attrs) :
  rewrites good a a' -> is_current name a' = is_current name a.
Proof.
  intros Hr. unfold is_current, named_with_class, has_class.
  rewrite (rewrites_other _ _ _ "class" Hr) by discriminate. reflexivity.
Qed.

Lemma mapM_mark_head (n0 : str) (a0 : attrs) (c0 rest contents' : list node) :
  mapM mark_current_node (Tag n0 a0 c0 :: rest) = Ok contents' ->
  exists c0' rest', contents' = Tag n0 a0 c0' :: rest'.
Proof.
  intros H. cbn [mapM] in H.
  destruct (mark_current_node (Tag n0 a0 c0)) as [n'|] eqn:E; [|discriminate].
  destruct (mark_current_node_tag _ _ _ _ E) as [c0' [_ [-> _]]].
  destruct (mapM mark_current_node rest) as [rest'|]; [|discriminate].
  injection H as <-. eexists. eexists. reflexivity.
Qed.

Section DivsOk.

Variable h : str -> attrs -> bool.
Variable otherwise : bool.

Lemma divs_ok_tag (name : str) (a : attrs) (contents : list node) :
  divs_ok h otherwise (Tag name a contents) =
  ((negb (is_current name a) || head_is h otherwise contents)
   && forallb (divs_ok h otherwise) contents)%bool.
Proof. reflexivity. Qed.

(** A loop over tags keeps the test when it keeps the class of every tag
    and the test of every tag. *)
Lemma for_each_node_divs_ok (sel : str -> attrs -> bool)
  (body : attrs -> result attrs) (n n' : node) :
  (forall name a a', visit sel body name a = Ok a' ->
     is_current name a' = is_current name a /\
     (h name a = true -> h name a' = true)) ->
  for_each_node sel body n = Ok n' ->
  divs_ok h otherwise n = true -> divs_ok h otherwise n' = true.
Proof.
  intros Hvisit. revert n'.
  induction n as [s|name a contents IH] using node_induction; intros n' H Hok.
  - injection H as <-. reflexivity.
  - rewrite for_each_node_tag in H.
    destruct (visit sel body name a) as [a'|] eqn:Ea; [|discriminate].
    destruct (for_each sel body contents) as [contents'|] eqn:Ec; [|discriminate].
    injection H as <-. rewrite divs_ok_tag in *.
    apply andb_true_iff in Hok. destruct Hok as [Hhead Hall].
    destruct (Hvisit _ _ _ Ea) as [Hcur _]. rewrite Hcur.
    unfold for_each in Ec. apply andb_true_iff. split.
    + apply orb_true_iff in Hhead. apply orb_true_iff.
      destruct Hhead as [Hnc|Hh]; [left; exact Hnc|]. right.
      destruct contents as [|[s|n0 a0 c0] rest]; cbn [mapM] in Ec.
      * injection Ec as <-. exact Hh.
      * cbn [for_each_node] in Ec.
        destruct (mapM (for_each_node sel body) rest); [|discriminate].
        injection Ec as <-. exact Hh.
      * destruct (for_each_node sel body (Tag n0 a0 c0)) as [n1|] eqn:E0;
          [|discriminate].
        destruct (mapM (for_each_node sel body) rest); [|discriminate].
        injection Ec as <-. rewrite for_each_node_tag in E0.
        destruct (visit sel body n0 a0) as [a0'|] eqn:Ea0; [|discriminate].
        destruct (for_each sel body c0); [|discriminate].
        injection E0 as <-. cbn [head_is] in *.
        exact (proj2 (Hvisit _ _ _ Ea0) Hh).
    + apply mapM_Ok in Ec. clear Hhead Ea. revert IH Hall.
      induction Ec as [|c c' l l' Hc _ IHl]; intros IH Hall; [reflexivity|].
      cbn [forallb] in *. apply andb_true_iff in Hall. destruct Hall as [H1 H2].
      inversion IH as [|? ? Pc Pl]; subst.
      apply andb_true_iff. split; [exact (Pc c' Hc H1) | exact (IHl Pl H2)].
Qed.

Lemma for_each_divs_ok (sel : str -> attrs -> bool)
  (body : attrs -> result attrs) (d d' : soup) :
  (forall name a a', visit sel body name a = Ok a' ->
     is_current name a' = is_current name a /\
     (h name a = true -> h name a' = true)) ->
  for_each sel body d = Ok d' ->
  forallb (divs_ok h otherwise) d = true ->
  forallb (divs_ok h otherwise) d' = true.
Proof.
  intros Hvisit H. unfold for_each in H. apply mapM_Ok in H.
  induction H as [|n n' l l' Hn _ IH]; intros Hall; [reflexivity|].
  cbn [forallb] in *. apply andb_true_iff in Hall. destruct Hall as [H1 H2].
  apply andb_true_iff. split; [|exact (IH H2)].
  exact (for_each_node_divs_ok sel body n n' Hvisit Hn H1).
Qed.

Hypothesis Hset : forall name a,
    h name a = true -> h name (set_attr a "href" "#") = true.

Lemma divs_ok_set_first_href (contents : list node) :
  forallb (divs_ok h otherwise) contents = true ->
  forallb (divs_ok h otherwise) (set_first_href contents) = true.
Proof.
  destruct contents as [|[s|n0 a0 c0] rest]; try (intros H; exact H).
  unfold set_first_href. cbn [forallb]. rewrite !divs_ok_tag.
  rewrite is_current_set_attr by discriminate. intros H; exact H.
Qed.

Lemma head_is_set_first_href (contents : list node) :
  head_is h otherwise contents = true ->
  head_is h otherwise (set_first_href contents) = true.
Proof.
  destruct contents as [|[s|n0 a0 c0] rest]; try (intros H; exact H).
  cbn [set_first_href head_is]. apply Hset.
Qed.

Lemma mapM_mark_head_is (contents contents' : list node) :
  mapM mark_current_node contents = Ok contents' ->
  head_is h otherwise contents' = head_is h otherwise contents.
Proof.
  intros H. destruct contents as [|[s|n0 a0 c0] rest].
  - injection H as <-. reflexivity.
  - cbn [mapM mark_current_node] in H.
    destruct (mapM mark_current_node rest); [|discriminate].
    injection H as <-. reflexivity.
  - destruct (mapM_mark_head _ _ _ _ _ H) as [c0' [rest' ->]]. reflexivity.
Qed.

(** Marking the current page keeps the test. *)
Lemma mark_current_node_divs_ok (n n' : node) :
  mark_current_node n = Ok n' ->
  divs_ok h otherwise n = true -> divs_ok h otherwise n' = true.
Proof.
  revert n'.
  induction n as [s|name a contents IH] using node_induction; intros n' H Hok.
  - injection H as <-. reflexivity.
  - destruct (mark_current_node_tag _ _ _ _ H) as [contents' [Hc [-> _]]].
    rewrite divs_ok_tag in *.
    apply andb_true_iff in Hok. destruct Hok as [Hhead Hall].
    assert (Hall' : forallb (divs_ok h otherwise) contents' = true).
    { apply mapM_Ok in Hc. clear Hhead H. revert IH Hall.
      induction Hc as [|c c' l l' Hcc _ IHl]; intros IH Hall; [reflexivity|].
      cbn [forallb] in *. apply andb_true_iff in Hall. destruct Hall as [H1 H2].
      inversion IH as [|? ? Pc Pl]; subst.
      apply andb_true_iff. split; [exact (Pc c' Hcc H1) | exact (IHl Pl H2)]. }
    rewrite <- (mapM_mark_head_is _ _ Hc) in Hhead.
    destruct (is_current name a) eqn:Ecur.
    + cbn [negb orb] in *. apply andb_true_iff. split.
      * apply head_is_set_first_href. exact Hhead.
      * apply divs_ok_set_first_href. exact Hall'.
    + cbn [negb orb]. exact Hall'.
Qed.

Lemma mark_current_page_divs_ok (d d' : soup) :
  mark_current_page d = Ok d' ->
  forallb (divs_ok h otherwise) d = true ->
  forallb (divs_ok h otherwise) d' = true.
Proof.
  intros H. unfold mark_current_page in H. apply mapM_Ok in H.
  induction H as [|n n' l l' Hn _ IH]; intros Hall; [reflexivity|].
  cbn [forallb] in *. apply andb_true_iff in Hall. destruct Hall as [H1 H2].
  apply andb_true_iff. split; [|exact (IH H2)].
  exact (mark_current_node_divs_ok n n' Hn H1).
Qed.

End DivsOk.

Lemma attr_is_true (a : attrs) (k v : str) :
  attr_is a k v = true <-> get_attr a k = Some v.
Proof.
  unfold attr_is. destruct (get_attr a k) as [v'|].
  - rewrite eqb_eq. split; [intros ->; reflexivity | intros H; injection H; auto].
  - split; discriminate.
Qed.

(** After the first loop of [update_page_urls] the current page is
    marked. *)
Lemma mark_current_node_marked (n n' : node) :
  mark_current_node n = Ok n' -> marked n' = true.
Proof.
  revert n'.
  induction n as [s|name a contents IH] using node_induction; intros n' H.
  - injection H as <-. reflexivity.
  - destruct (mark_current_node_tag _ _ _ _ H) as [contents' [Hc [-> Hhead]]].
    unfold marked in *. rewrite divs_ok_tag.
    assert (Hall' : forallb (divs_ok href_is_hash false) contents' = true).
    { pose proof (mapM_Ok _ _ _ Hc) as HF. clear Hc Hhead H. revert IH.
      induction HF as [|c c' l l' Hcc _ IHl]; intros IH; [reflexivity|].
      cbn [forallb]. inversion IH as [|? ? Pc Pl]; subst.
      apply andb_true_iff. split; [exact (Pc c' Hcc) | exact (IHl Pl)]. }
    destruct (is_current name a) eqn:Ecur; cbn [negb orb]; [|exact Hall'].
    apply andb_true_iff. split.
    + destruct (Hhead eq_refl) as [n0 [a0 [c0 [rest ->]]]].
      destruct (mapM_mark_head _ _ _ _ _ Hc) as [c0' [rest' ->]].
      cbn [set_first_href head_is]. unfold href_is_hash.
      apply attr_is_true. apply get_set_same.
    + apply divs_ok_set_first_href. exact Hall'.
Qed.

Lemma mark_current_page_marked (d d' : soup) :
  mark_current_page d = Ok d' -> forallb marked d' = true.
Proof.
  intros H. unfold mark_current_page in H. apply mapM_Ok in H.
  induction H as [|n n' l l' Hn _ IH]; [reflexivity|].
  cbn [forallb]. apply andb_true_iff. split; [|exact IH].
  exact (mark_current_node_marked n n' Hn).
Qed.

(** On a document whose current page is marked the first loop changes
    nothing. *)
Lemma mark_current_node_fixed (n : node) :
  marked n = true -> mark_current_node n = Ok n.
Proof.
  induction n as [s|name a contents IH] using node_induction; intros H;
    [reflexivity|].
  unfold marked in H. rewrite divs_ok_tag in H.
  apply andb_true_iff in H. destruct H as [Hhead Hall].
  assert (Hc : mapM mark_current_node contents = Ok contents).
  { apply mapM_fixed. rewrite Forall_forall in *. intros c Hin.
    apply IH; [exact Hin|]. rewrite forallb_forall in Hall. exact (Hall c Hin). }
  cbn [mark_current_node]. fold (is_current name a).
  destruct (is_current name a); cbn [negb orb] in Hhead.
  - destruct contents as [|[s|n0 a0 c0] rest]; try discriminate.
    rewrite Hc. cbn [head_is] in Hhead. unfold href_is_hash in Hhead.
    apply attr_is_true in Hhead. cbn [set_first_href].
    rewrite (set_attr_id _ _ _ Hhead). reflexivity.
  - rewrite Hc. reflexivity.
Qed.

Lemma mark_current_page_fixed (d : soup) :
  forallb marked d = true -> mark_current_page d = Ok d.
Proof.
  intros H. unfold mark_current_page. apply mapM_fixed.
  apply Forall_forall. intros n Hn. apply mark_current_node_fixed.
  rewrite forallb_forall in H. exact (H n Hn).
Qed.

(** *** Removing the scripts *)

Lemma scripts_app (l1 l2 : list (str * attrs)) :
  scripts (l1 ++ l2) = (scripts l1 + scripts l2)%nat.
Proof. unfold scripts. rewrite filter_app, length_app. reflexivity. Qed.

Lemma scripts_cons (name : str) (a : attrs) (l : list (str * attrs)) :
  scripts ((name, a) :: l) =
  ((if eqb name "script" then 1 else 0) + scripts l)%nat.
Proof.
  unfold scripts. cbn [filter fst snd]. unfold named.
  destruct (eqb name "script"); reflexivity.
Qed.

Lemma find_all_scripts (d : soup) :
  List.length (find_all (named "script") d) = scripts (tags d).
Proof. unfold find_all, scripts. apply length_map. Qed.

Lemma decompose_node_Gone (n : node) :
  decompose_node n = Gone ->
  exists name a contents, n = Tag name a contents /\ eqb name "script" = true.
Proof.
  destruct n as [s|name a contents]; cbn [decompose_node]; [discriminate|].
  destruct (eqb name "script") eqn:E.
  - intros _. exists name, a, contents. split; [reflexivity | exact E].
  - destruct (decompose_in decompose_node contents); discriminate.
Qed.

Lemma decompose_node_Inside (n n' : node) :
  decompose_node n = Inside n' ->
  exists name a contents contents',
    n = Tag name a contents /\ n' = Tag name a contents' /\
    eqb name "script" = false /\
    decompose_in decompose_node contents = Some contents'.
Proof.
  destruct n as [s|name a contents]; cbn [decompose_node]; [discriminate|].
  destruct (eqb name "script") eqn:E; [discriminate|].
  destruct (decompose_in decompose_node contents) as [contents'|] eqn:Ec;
    [|discriminate].
  intros H; injection H as <-. exists name, a, contents, contents'. auto.
Qed.

(** The removal in a forest, from the removal in each of its nodes. *)
Lemma decompose_in_removal (l l' : list node) :
  Forall (fun c => forall c', decompose_node c = Inside c' -> removal [c] [c']) l ->
  decompose_in decompose_node l = Some l' ->
  removal l l' /\
  forall h otherwise,
    head_is not_script true l = true ->
    head_is h otherwise l' = head_is h otherwise l.
Proof.
  intros Hnodes. revert l'.
  induction Hnodes as [|c l Hc _ IH]; intros l' H; [discriminate|].
  cbn [decompose_in] in H. destruct (decompose_node c) as [| |c1] eqn:Ec.
  - destruct (decompose_in decompose_node l) as [l''|] eqn:El; [|discriminate].
    injection H as <-. destruct (IH l'' eq_refl) as [[Hincl [Hlt Hdiv]] _].
    split; [split; [|split]|].
    + unfold tags in *. cbn [flat_map]. intros t Ht. apply in_app_or in Ht.
      apply in_or_app. destruct Ht as [Ht|Ht]; [left; exact Ht|].
      right. exact (Hincl t Ht).
    + unfold tags in *. cbn [flat_map]. rewrite !scripts_app. lia.
    + intros h o Hh Hd. cbn [forallb] in *.
      apply andb_true_iff in Hh, Hd. destruct Hh as [Hh1 Hh2], Hd as [Hd1 Hd2].
      apply andb_true_iff. split; [exact Hd1 | exact (Hdiv h o Hh2 Hd2)].
    + intros h o _. destruct c; reflexivity.
  - injection H as <-. destruct (decompose_node_Gone _ Ec)
      as [name [a [contents [-> Escript]]]].
    split; [split; [|split]|].
    + unfold tags. cbn [flat_map]. intros t Ht. apply in_or_app. right. exact Ht.
    + unfold tags. cbn [flat_map tags_of]. rewrite <- app_comm_cons.
      rewrite scripts_cons, Escript, scripts_app. lia.
    + intros h o Hh Hd. cbn [forallb] in Hd. apply andb_true_iff in Hd.
      exact (proj2 Hd).
    + intros h o Hhead. cbn [head_is] in Hhead. unfold not_script in Hhead.
      rewrite Escript in Hhead. discriminate.
  - injection H as <-. destruct (Hc c1 eq_refl) as [Hincl [Hlt Hdiv]].
    destruct (decompose_node_Inside _ _ Ec)
      as [name [a [contents [contents' [-> [-> _]]]]]].
    split; [split; [|split]|].
    + unfold tags in *. cbn [flat_map] in *. rewrite !app_nil_r in Hincl.
      intros t Ht. apply in_app_or in Ht. apply in_or_app.
      destruct Ht as [Ht|Ht]; [left; exact (Hincl t Ht) | right; exact Ht].
    + unfold tags in *. cbn [flat_map] in *. rewrite !app_nil_r in Hlt.
      rewrite !scripts_app. lia.
    + intros h o Hh Hd. cbn [forallb] in *.
      apply andb_true_iff in Hh, Hd. destruct Hh as [Hh1 Hh2], Hd as [Hd1 Hd2].
      apply andb_true_iff. split; [|exact Hd2].
      specialize (Hdiv h o). rewrite !andb_true_r in Hdiv. exact (Hdiv Hh1 Hd1).
    + intros h o _. reflexivity.
Qed.

Lemma decompose_node_removal (n n' : node) :
  decompose_node n = Inside n' -> removal [n] [n'].
Proof.
  revert n'.
  induction n as [s|name a contents IH] using node_induction; intros n' H;
    [discriminate|].
  destruct (decompose_node_Inside _ _ H)
    as [name0 [a0 [contents0 [contents' [E [-> [Escript Hc]]]]]]].
  injection E as <- <- <-.
  destruct (decompose_in_removal contents contents' IH Hc)
    as [[Hincl [Hlt Hdiv]] Hhead].
  split; [|split].
  - unfold tags in *. cbn [flat_map tags_of]. rewrite !app_nil_r.
    intros t [<-|Ht]; [left; reflexivity | right; exact (Hincl t Ht)].
  - unfold tags in *. cbn [flat_map tags_of]. rewrite !app_nil_r.
    rewrite !scripts_cons. lia.
  - intros h o Hh Hd. cbn [forallb] in *. rewrite andb_true_r in *.
    unfold heads_ok in Hh. rewrite divs_ok_tag in *.
    apply andb_true_iff in Hh, Hd. destruct Hh as [Hh1 Hh2], Hd as [Hd1 Hd2].
    apply andb_true_iff. split; [|exact (Hdiv h o Hh2 Hd2)].
    destruct (is_current name a); cbn [negb orb] in *; [|reflexivity].
    rewrite (Hhead h o Hh1). exact Hd1.
Qed.

Lemma decompose_script_removal (d d' : soup) :
  decompose_script d = Some d' -> removal d d'.
Proof.
  intros H. apply decompose_in_removal; [|exact H].
  apply Forall_forall. intros c _ c'. apply decompose_node_removal.
Qed.

Lemma strip_loop_removal (n : nat) (d d' : soup) :
  strip_loop n d = Ok d' ->
  incl (tags d') (tags d) /\
  (scripts (tags d') + n <= scripts (tags d))%nat /\
  forall h otherwise,
    forallb heads_ok d = true ->
    forallb (divs_ok h otherwise) d = true ->
    forallb (divs_ok h otherwise) d' = true.
Proof.
  revert d. induction n as [|n IH]; intros d H; cbn [strip_loop] in H.
  - injection H as <-. split; [apply incl_refl|]. split; [lia | auto].
  - destruct (decompose_script d) as [d1|] eqn:E; [|discriminate].
    destruct (decompose_script_removal _ _ E) as [Hincl [Hlt Hdiv]].
    destruct (IH _ H) as [Hincl' [Hle Hdiv']].
    split; [exact (incl_tran Hincl' Hincl)|]. split; [lia|].
    intros h o Hh Hd. apply Hdiv'; [|exact (Hdiv h o Hh Hd)].
    exact (Hdiv not_script true Hh Hh).
Qed.

(** [strip_script], when it returns, leaves no script tag; the tags left
    are tags of the document. *)
Lemma strip_script_removal (d d' : soup) :
  strip_script d = Ok d' ->
  incl (tags d') (tags d) /\
  find_all (named "script") d' = [] /\
  forall h otherwise,
    forallb heads_ok d = true ->
    forallb (divs_ok h otherwise) d = true ->
    forallb (divs_ok h otherwise) d' = true.
Proof.
  unfold strip_script. rewrite find_all_scripts. intros H.
  destruct (strip_loop_removal _ _ _ H) as [Hincl [Hle Hdiv]].
  split; [exact Hincl|]. split; [|exact Hdiv].
  apply length_zero_iff_nil. rewrite find_all_scripts. lia.
Qed.

Lemma strip_script_fixed (d : soup) :
  find_all (named "script") d = [] -> strip_script d = Ok d.
Proof. intros H. unfold strip_script. rewrite H. reflexivity. Qed.

(** *** Rewriting a rewritten document *)

Section RewriteTwice.

Variable urlparse_path : str -> str.
Variable fd : fileDict.
Variable index : bool.
Hypothesis Hstable : paths_stable urlparse_path fd index = true.

Lemma rewrites_keep_divs (h : str -> attrs -> bool) (otherwise : bool)
  (sel : str -> attrs -> bool) (body : attrs -> result attrs) (d d' : soup) :
  (forall name a a', visit sel body name a = Ok a' ->
     rewrites (stable urlparse_path fd) a a') ->
  (forall name a a', visit sel body name a = Ok a' ->
     h name a = true -> h name a' = true) ->
  for_each sel body d = Ok d' ->
  forallb (divs_ok h otherwise) d = true ->
  forallb (divs_ok h otherwise) d' = true.
Proof.
  intros Hr Hh. apply for_each_divs_ok. intros name a a' Hv. split.
  - exact (is_current_rewrites _ name a a' (Hr name a a' Hv)).
  - exact (Hh name a a' Hv).
Qed.

Lemma settled_is_fixed (d : soup) :
  Forall (settled urlparse_path fd index) (tags d) ->
  update_file_urls d fd index = Ok d /\
  update_css_urls d fd index = Ok d /\
  update_image_urls urlparse_path d fd index = Ok d /\
  update_nav_anchors d fd index = Ok d.
Proof.
  intros H. rewrite Forall_forall in H.
  split; [|split; [|split]]; apply for_each_fixed; intros t Ht;
    destruct (H t Ht) as [H1 [H2 [H3 H4]]]; unfold visit.
  - destruct (named_in [lit "a"; lit "img"] (fst t) (snd t)); [|reflexivity].
    apply update_file_urls_item_quiet. exact (H1 eq_refl).
  - destruct (named_with "link" "type" "text/css" (fst t) (snd t));
      [|reflexivity].
    apply update_css_urls_item_quiet. exact (H2 eq_refl).
  - destruct (named "img" (fst t) (snd t)); [|reflexivity].
    apply update_image_urls_item_quiet. exact (H3 eq_refl).
  - exact H4.
Qed.

(** C9 (amended).  [update_page] is a function of the document, the
    fileDict and the flag.  When no reference the passes write ("#" and
    the content, formatting and page references of the fileDict) is
    matched by a pattern they search for, and no div of the current page
    begins with a script tag, rewriting the document [update_page]
    returned gives that document again: no pass changes it, and none
    raises. *)
Theorem update_page_twice (d d' : soup) :
  forallb heads_ok d = true ->
  update_page urlparse_path d fd index = Ok d' ->
  update_page urlparse_path d' fd index = Ok d'.
Proof.
  intros Hheads H. unfold update_page in H.
  destruct (update_file_urls d fd index) as [d1|] eqn:E1; cbn [bind] in H;
    [|discriminate].
  destruct (update_css_urls d1 fd index) as [d2|] eqn:E2; cbn [bind] in H;
    [|discriminate].
  destruct (update_image_urls urlparse_path d2 fd index) as [d3|] eqn:E3;
    cbn [bind] in H; [|discriminate].
  destruct (update_page_urls d3 fd index) as [d4|] eqn:E4; cbn [bind] in H;
    [|discriminate].
  unfold update_page_urls in E4.
  destruct (mark_current_page d3) as [d3m|] eqn:Em; cbn [bind] in E4;
    [|discriminate].
  unfold update_file_urls in E1. unfold update_css_urls in E2.
  unfold update_image_urls in E3. unfold update_nav_anchors in E4.
  (* the tags *)
  assert (T1 : Forall (files_tag fd) (tags d1)).
  { refine (for_each_all_tags _ _ (fun _ => True) (files_tag fd) d d1 _ E1 _);
      [| apply Forall_forall; intros; exact I].
    intros name a a' _ Hv. exact (proj2 (file_pass_tag _ _ _ Hstable _ _ _ Hv)). }
  assert (T2 : Forall (fun t => files_tag fd t /\ css_tag fd t) (tags d2)).
  { refine (for_each_all_tags _ _ (files_tag fd)
              (fun t => files_tag fd t /\ css_tag fd t) d1 d2 _ E2 T1).
    intros name a a' Hf Hv.
    destruct (css_pass_tag _ _ _ Hstable _ _ _ Hv) as [Hr Hc].
    split; [exact (files_tag_rewrites _ _ _ _ _ Hr Hf) | exact Hc]. }
  assert (T3 : Forall (fun t => files_tag fd t /\ css_tag fd t /\
                                img_tag urlparse_path fd t) (tags d3)).
  { refine (for_each_all_tags _ _ (fun t => files_tag fd t /\ css_tag fd t)
              (fun t => files_tag fd t /\ css_tag fd t /\
                        img_tag urlparse_path fd t) d2 d3 _ E3 T2).
    intros name a a' [Hf Hc] Hv.
    destruct (img_pass_tag _ _ _ Hstable _ _ _ Hv) as [Hr Hi].
    split; [exact (files_tag_rewrites _ _ _ _ _ Hr Hf)|].
    split; [exact (css_tag_rewrites _ _ _ _ _ Hr Hc) | exact Hi]. }
  assert (T3m : Forall (fun t => files_tag fd t /\ css_tag fd t /\
                                 img_tag urlparse_path fd t) (tags d3m)).
  { revert T3. apply mark_current_page_all_tags; [|exact Em].
    intros name a [Hf [Hc Hi]].
    assert (Hr : rewrites (stable urlparse_path fd) a (set_attr a "href" "#"))
      by (apply rewrites_one; [left; reflexivity | exact (stable_hash _ _ _ Hstable)]).
    split; [exact (files_tag_rewrites _ _ _ _ _ Hr Hf)|].
    split; [exact (css_tag_rewrites _ _ _ _ _ Hr Hc)
           | exact (img_tag_rewrites _ _ _ _ _ Hr Hi)]. }
  assert (T4 : Forall (settled urlparse_path fd index) (tags d4)).
  { refine (for_each_all_tags _ _ (fun t => files_tag fd t /\ css_tag fd t /\
                                            img_tag urlparse_path fd t)
              (settled urlparse_path fd index) d3m d4 _ E4 T3m).
    intros name a a' [Hf [Hc Hi]] Hv.
    destruct (page_pass_tag _ _ _ Hstable _ _ _ Hv) as [Hr Hp].
    split; [exact (files_tag_rewrites _ _ _ _ _ Hr Hf)|].
    split; [exact (css_tag_rewrites _ _ _ _ _ Hr Hc)|].
    split; [exact (img_tag_rewrites _ _ _ _ _ Hr Hi) | exact Hp]. }
  (* the divs of the current page *)
  assert (Hname : forall sel body name a a',
             visit sel body name a = Ok a' ->
             not_script name a = true -> not_script name a' = true)
    by (intros; assumption).
  assert (Hh1 : forallb heads_ok d1 = true).
  { refine (rewrites_keep_divs not_script true _ _ d d1 _ (Hname _ _) E1 Hheads).
    intros name a a' Hv. exact (proj1 (file_pass_tag _ _ _ Hstable _ _ _ Hv)). }
  assert (Hh2 : forallb heads_ok d2 = true).
  { refine (rewrites_keep_divs not_script true _ _ d1 d2 _ (Hname _ _) E2 Hh1).
    intros name a a' Hv. exact (proj1 (css_pass_tag _ _ _ Hstable _ _ _ Hv)). }
  assert (Hh3 : forallb heads_ok d3 = true).
  { refine (rewrites_keep_divs not_script true _ _ d2 d3 _ (Hname _ _) E3 Hh2).
    intros name a a' Hv. exact (proj1 (img_pass_tag _ _ _ Hstable _ _ _ Hv)). }
  assert (Hh3m : forallb heads_ok d3m = true).
  { refine (mark_current_page_divs_ok not_script true _ d3 d3m Em Hh3).
    intros name a Hn. exact Hn. }
  assert (Hh4 : forallb heads_ok d4 = true).
  { refine (rewrites_keep_divs not_script true _ _ d3m d4 _ (Hname _ _) E4 Hh3m).
    intros name a a' Hv. exact (proj1 (page_pass_tag _ _ _ Hstable _ _ _ Hv)). }
  assert (Hm4 : forallb marked d4 = true).
  { refine (rewrites_keep_divs href_is_hash false _ _ d3m d4 _ _ E4
              (mark_current_page_marked _ _ Em)).
    - intros name a a' Hv.
      exact (proj1 (page_pass_tag _ _ _ Hstable _ _ _ Hv)).
    - intros name a a' Hv Hhash. unfold href_is_hash in *.
      unfold visit, named_with in Hv. apply attr_is_true in Hhash.
      unfold attr_is in Hv at 1. rewrite Hhash in Hv.
      replace (eqb (lit "#") (lit "javascript://")) with false in Hv
        by reflexivity.
      rewrite andb_false_r in Hv. injection Hv as <-.
      apply attr_is_true. exact Hhash. }
  (* the scripts *)
  destruct (strip_script_removal _ _ H) as [Hincl [Hnone Hdiv]].
  assert (T5 : Forall (settled urlparse_path fd index) (tags d')).
  { rewrite Forall_forall in *. intros t Ht. exact (T4 t (Hincl t Ht)). }
  assert (Hm5 : forallb marked d' = true) by exact (Hdiv _ _ Hh4 Hm4).
  destruct (settled_is_fixed d' T5) as [F1 [F2 [F3 F4]]].
  unfold update_page. rewrite F1. cbn [bind]. rewrite F2. cbn [bind].
  rewrite F3. cbn [bind]. unfold update_page_urls.
  rewrite (mark_current_page_fixed _ Hm5). cbn [bind]. rewrite F4. cbn [bind].
  apply strip_script_fixed. exact Hnone.
Qed.

End RewriteTwice.

Lemma update_page_twice_witness :
  update_page path_of_url doc_site_page fd_site false =
  Ok doc_site_page_rewritten /\
  update_page path_of_url doc_site_page_rewritten fd_site false =
  Ok doc_site_page_rewritten.
Proof.
  assert (H : update_page path_of_url doc_site_page fd_site false =
              Ok doc_site_page_rewritten) by (vm_compute; reflexivity).
  split; [exact H|].
  refine (update_page_twice path_of_url fd_site false _
            doc_site_page doc_site_page_rewritten _ H).
  - vm_compute; reflexivity.
  - vm_compute; reflexivity.
Defined.

(** C9 as stated fails: the name of a file contains the id of another
    file, and the second run sends the link to that other file. *)
Lemma update_page_twice_differs :
  update_page path_of_url doc_file_link fd_name_with_id false =
  Ok [Tag "a" [(lit "href", lit "../content/x9001.pdf")]
        [NavigableString "notes"]] /\
  update_page path_of_url
    [Tag "a" [(lit "href", lit "../content/x9001.pdf")]
       [NavigableString "notes"]] fd_name_with_id false =
  Ok [Tag "a" [(lit "href", lit "../content/a.pdf")]
        [NavigableString "notes"]].
Proof. split; vm_compute; reflexivity. Qed.

(** ** More on the identifier parsers *)










(** The text the scan of [get_epo_id] starts at, when the marker occurs. *)
Lemma get_epo_id_after_marker (pre rest : str) :
  first_at "contextId=" (pre ++ lit "contextId=" ++ rest) pre ->
  get_epo_id (pre ++ lit "contextId=" ++ rest) = digits_before_stop rest.
Proof.
  intros Hfirst. unfold get_epo_id. cbv zeta.
  rewrite (find_first_at _ _ _ Hfirst).
  replace (len pre + len "contextId=")
    with (Z.of_nat (List.length (pre ++ lit "contextId=")))
    by (unfold len; rewrite length_app; lia).
  rewrite slice_from_skipn, app_assoc, skipn_prefix.
  apply scan_then_cut.
Qed.

Lemma get_page_id_after_marker (pre objectId rest : str) (sep : ascii) :
  first_at objectId (pre ++ objectId ++ sep :: rest) pre ->
  get_page_id (pre ++ objectId ++ sep :: rest) objectId =
  digits_before_stop rest.
Proof.
  intros Hfirst. unfold get_page_id. cbv zeta.
  rewrite (find_first_at _ _ _ Hfirst).
  replace (len pre + len objectId + 1)
    with (Z.of_nat (List.length (pre ++ objectId ++ [sep])))
    by (unfold len; rewrite !length_app; simpl; lia).
  rewrite slice_from_skipn.
  replace (pre ++ objectId ++ sep :: rest)
    with ((pre ++ objectId ++ [sep]) ++ rest)
    by (rewrite <- !app_assoc; reflexivity).
  rewrite skipn_prefix. apply scan_then_cut.
Qed.

Lemma digits_before_stop_run (digits rest : str) (stop : ascii) :
  forallb isdigit digits = true -> isdigit stop = false ->
  digits_before_stop (digits ++ stop :: rest) = Ok digits.
Proof.
  intros Hd Hs. unfold digits_before_stop.
  destruct (digit_run_app digits rest stop Hd Hs) as [-> ->]. reflexivity.
Qed.

Lemma digits_before_stop_end (digits : str) :
  forallb isdigit digits = true ->
  digits_before_stop digits = Raise IndexError.
Proof.
  intros Hd. unfold digits_before_stop.
  assert (H : after_digit_run digits = []).
  { induction digits as [|c s IH]; simpl in *; [reflexivity|].
    apply andb_true_iff in Hd. destruct Hd as [Hc Hs]. rewrite Hc. exact (IH Hs). }
  rewrite H. reflexivity.
Qed.

(** [get_epo_id] returns the digits that follow the first "contextId=" of
    the reference, when a character that is not a digit follows them. *)
Theorem get_epo_id_returns_digit_run (pre digits rest : str) (stop : ascii) :
  first_at "contextId=" (pre ++ lit "contextId=" ++ digits ++ stop :: rest) pre ->
  forallb isdigit digits = true ->
  isdigit stop = false ->
  get_epo_id (pre ++ lit "contextId=" ++ digits ++ stop :: rest) = Ok digits.
Proof.
  intros Hfirst Hd Hs. rewrite get_epo_id_after_marker by exact Hfirst.
  apply digits_before_stop_run; assumption.
Qed.

Lemma get_epo_id_returns_digit_run_witness :
  get_epo_id "/d2l/eP/viewFile.d2lfile?contextId=9001&v=1" = Ok (lit "9001").
Proof.
  apply (get_epo_id_returns_digit_run "/d2l/eP/viewFile.d2lfile?" "9001" "v=1"
           "&"%char).
  - apply (first_at_by_find _ _ _ (lit "9001&v=1")); vm_compute; reflexivity.
  - reflexivity.
  - reflexivity.
Defined.

(** A reference that ends with its object id, and a script text that ends
    with its page id, make the parsers raise IndexError: the scan reads the
    character after the last digit. *)
Theorem id_at_end_of_text_raises :
  (forall pre digits : str,
      first_at "contextId=" (pre ++ lit "contextId=" ++ digits) pre ->
      forallb isdigit digits = true ->
      get_epo_id (pre ++ lit "contextId=" ++ digits) = Raise IndexError) /\
  (forall (pre objectId digits : str) (sep : ascii),
      first_at objectId (pre ++ objectId ++ sep :: digits) pre ->
      forallb isdigit digits = true ->
      get_page_id (pre ++ objectId ++ sep :: digits) objectId =
      Raise IndexError).
Proof.
  split.
  - intros pre digits Hfirst Hd. rewrite get_epo_id_after_marker by exact Hfirst.
    apply digits_before_stop_end. exact Hd.
  - intros pre objectId digits sep Hfirst Hd.
    rewrite get_page_id_after_marker by exact Hfirst.
    apply digits_before_stop_end. exact Hd.
Qed.

Lemma id_at_end_of_text_raises_witness :
  get_epo_id "/d2l/eP/inline.d2lFile?contextId=9001" = Raise IndexError /\
  get_page_id "GotoPage(1234,5678" "1234" = Raise IndexError.
Proof.
  destruct id_at_end_of_text_raises as [Hepo Hpage]. split.
  - apply (Hepo "/d2l/eP/inline.d2lFile?" "9001").
    + apply (first_at_by_find _ _ _ (lit "9001")); vm_compute; reflexivity.
    + reflexivity.
  - apply (Hpage "GotoPage(" "1234" "5678" ","%char).
    + apply (first_at_by_find _ _ _ (lit ",5678")); vm_compute; reflexivity.
    + reflexivity.
Defined.

(** ** Local file names *)

Lemma rfind_at_char_cases (c : ascii) (s : str) (i : Z) :
  0 <= i ->
  (rfind_at s [c] i = -1 /\ ~ In c s) \/
  (exists pre post, s = pre ++ c :: post /\ ~ In c post /\
                    rfind_at s [c] i = i + len pre).
Proof.
  intros Hi. destruct (in_dec ascii_dec c s) as [Hin|Hnot].
  - right. revert i Hi. induction s as [|d s IH]; intros i Hi; [destruct Hin|].
    destruct (in_dec ascii_dec c s) as [Hs|Hs].
    + destruct (IH Hs (i + 1)) as [pre [post [E [Hp Hr]]]]; [lia|].
      exists (d :: pre), post. split; [simpl; rewrite E; reflexivity|].
      split; [exact Hp|]. cbn [rfind_at]. rewrite Hr.
      assert (Hle : (0 <=? i + 1 + len pre) = true)
        by (apply Z.leb_le; unfold len; lia).
      rewrite Hle. unfold len; simpl List.length; lia.
    + destruct Hin as [->|Hin]; [|contradiction].
      exists [], s. split; [reflexivity|]. split; [exact Hs|].
      cbn [rfind_at]. rewrite rfind_at_char_absent by exact Hs.
      rewrite starts_with_char, Ascii.eqb_refl. unfold len; simpl; lia.
  - left. split; [apply rfind_at_char_absent; exact Hnot | exact Hnot].
Qed.

Lemma not_in_firstn {A : Type} (x : A) (n : nat) (l : list A) :
  ~ In x l -> ~ In x (firstn n l).
Proof.
  intros H Hin. apply H. rewrite <- (firstn_skipn n l).
  apply in_or_app. left. exact Hin.
Qed.

Lemma cut_at_query_subset (c : ascii) (fileName : str) :
  ~ In c fileName ->
  ~ In c (if 0 <? find fileName "?" then slice_to fileName (find fileName "?")
          else fileName).
Proof.
  intros H. destruct (0 <? find fileName "?"); [|exact H].
  unfold slice_to. apply not_in_firstn. exact H.
Qed.

(** The file name [get_css] and [update_css_file] derive from an address
    never contains a "/": the file is created in the current directory. *)
Theorem tail_name_has_no_slash (address : str) :
  ~ In "/"%char (tail_name address).
Proof.
  unfold tail_name. cbv zeta. apply cut_at_query_subset.
  unfold rfind. change (lit "/") with ["/"%char].
  destruct (rfind_at_char_cases "/"%char address 0) as [[Hr Hnot]|Hfound]; [lia| |].
  - rewrite Hr. change (-1 + 1) with (Z.of_nat 0). rewrite slice_from_skipn.
    exact Hnot.
  - destruct Hfound as [pre [post [-> [Hpost Hr]]]]. rewrite Hr.
    replace (0 + len pre + 1)
      with (Z.of_nat (List.length (pre ++ ["/"%char])))
      by (unfold len; rewrite length_app; simpl; lia).
    rewrite slice_from_skipn.
    replace (pre ++ "/"%char :: post) with ((pre ++ ["/"%char]) ++ post)
      by (rewrite <- app_assoc; reflexivity).
    rewrite skipn_prefix. exact Hpost.
Qed.

Lemma slice_to_head (c : ascii) (s : str) (k : Z) :
  0 < k -> exists m, slice_to (c :: s) k = c :: firstn m s.
Proof.
  intros Hk. unfold slice_to. rewrite bound_nonneg by lia.
  destruct (Z.to_nat k) as [|n] eqn:E; [lia|].
  simpl List.length. rewrite <- Nat.succ_min_distr. exists (Nat.min n (List.length s)).
  reflexivity.
Qed.

(** The file name [download_presentation] gives to a formatting image
    begins with the last "/" of its URL: the download goes to the root
    directory of the file system, not to the Formatting directory. *)
Theorem img_file_name_begins_with_slash (imgUrl : str) :
  In "/"%char imgUrl ->
  exists name, img_file_name imgUrl = "/"%char :: name /\ ~ In "/"%char name.
Proof.
  intros Hin. unfold img_file_name. cbv zeta.
  unfold rfind. change (lit "/") with ["/"%char].
  destruct (rfind_at_char_cases "/"%char imgUrl 0) as [[_ Hnot]|Hfound];
    [lia | contradiction |].
  destruct Hfound as [pre [post [-> [Hpost Hr]]]]. rewrite Hr.
  replace (0 + len pre) with (Z.of_nat (List.length pre)) by (unfold len; lia).
  rewrite slice_from_skipn, skipn_prefix.
  destruct (0 <? find ("/"%char :: post) "?") eqn:E.
  - apply Z.ltb_lt in E. destruct (slice_to_head "/"%char post _ E) as [m ->].
    exists (firstn m post). split; [reflexivity | apply not_in_firstn; exact Hpost].
  - exists post. split; [reflexivity | exact Hpost].
Qed.

Lemma img_file_name_begins_with_slash_witness :
  exists name,
    img_file_name "https://uwosh-beta.courses.wisconsin.edu/d2l/img/bg.png?v=2" =
    "/"%char :: name /\ ~ In "/"%char name.
Proof.
  apply img_file_name_begins_with_slash.
  simpl. right. right. right. right. right. right. left. reflexivity.
Defined.

(** ** The collectors of one page, together *)

Lemma same_pages_refl (fd : fileDict) : same_pages fd fd.
Proof. repeat split. Qed.

Lemma same_pages_trans (fd1 fd2 fd3 : fileDict) :
  same_pages fd1 fd2 -> same_pages fd2 fd3 -> same_pages fd1 fd3.
Proof.
  intros [A1 [A2 [A3 A4]]] [B1 [B2 [B3 B4]]].
  repeat split; congruence.
Qed.

Lemma tables_left_Ok (fd : fileDict) :
  tables_left fd (Ok tt) -> tables_ok fd.
Proof.
  intros [Hf [Hc [Hi [Hca [Hu Hn]]]]]. repeat split; assumption.
Qed.

Lemma left_returns (fd : fileDict) :
  tables_ok fd -> left_in_order fd (fd, Ok tt).
Proof.
  intros [Hf [Hc [Hi [[Hu Hn] Hca]]]].
  split; [|apply same_pages_refl]. repeat split; assumption.
Qed.

Lemma left_raises (fd : fileDict) (e : exn) :
  tables_ok fd -> left_in_order fd (fd, Raise e).
Proof.
  intros [Hf [Hc [Hi [[Hu Hn] Hca]]]].
  split; [|apply same_pages_refl].
  repeat split; try assumption. left. exact Hn.
Qed.

(** A new file id: the entry with its name when the lookup returns,
    without it when the lookup raises. *)
Lemma left_new_file (fd : fileDict) (epoId url : str) (r : result str) :
  tables_ok fd -> mem epoId (fileIds fd) = false ->
  left_in_order fd
    match r with
    | Ok fileName =>
        (append_fileNames (strip fileName)
           (append_fileUrls url (append_fileIds epoId fd)), Ok tt)
    | Raise e => (append_fileUrls url (append_fileIds epoId fd), Raise e)
    end.
Proof.
  intros [Hf [Hc [Hi [[Hu Hn] Hca]]]] Hmem.
  assert (Hf' : NoDup (fileIds fd ++ [epoId])).
  { apply NoDup_snoc; [exact Hf | apply mem_false_not_In; exact Hmem]. }
  destruct r as [fileName|e]; (split; [|repeat split]);
    unfold tables_left, css_aligned in *; cbn [fst snd]; simpl;
    rewrite ?length_app, ?Hu, ?Hn; cbn [List.length];
    repeat split; try assumption; try reflexivity.
  right. lia.
Qed.

Lemma left_new_css (fd : fileDict) (css fileName : str) :
  tables_ok fd -> mem css (cssUrls fd) = false ->
  left_in_order fd
    (append_cssFileNames fileName (append_cssUrls css fd), Ok tt).
Proof.
  intros [Hf [Hc [Hi [[Hu Hn] Hca]]]] Hmem.
  assert (Hc' : NoDup (cssUrls fd ++ [css])).
  { apply NoDup_snoc; [exact Hc | apply mem_false_not_In; exact Hmem]. }
  split; [|repeat split].
  unfold tables_left, css_aligned in *; cbn [fst snd]; simpl.
  rewrite ?length_app, ?Hca. repeat split; assumption.
Qed.

Lemma left_new_img (fd : fileDict) (img : str) :
  tables_ok fd -> mem img (imgUrls fd) = false ->
  left_in_order fd (append_imgUrls img fd, Ok tt).
Proof.
  intros [Hf [Hc [Hi [[Hu Hn] Hca]]]] Hmem.
  assert (Hi' : NoDup (imgUrls fd ++ [img])).
  { apply NoDup_snoc; [exact Hi | apply mem_false_not_In; exact Hmem]. }
  split; [|repeat split].
  unfold tables_left, css_aligned in *; cbn [fst snd]; simpl.
  repeat split; assumption.
Qed.

Lemma left_then (m k : collector unit) :
  (forall fd, tables_ok fd -> left_in_order fd (m fd)) ->
  (forall fd, tables_ok fd -> left_in_order fd (k fd)) ->
  forall fd, tables_ok fd -> left_in_order fd ((m ;;; k) fd).
Proof.
  intros Hm Hk fd Hok. unfold bindC. specialize (Hm fd Hok).
  destruct (m fd) as [fd1 [[]|e]]; [|exact Hm].
  destruct Hm as [Hleft Hsame]. cbn [fst snd] in Hleft, Hsame.
  destruct (Hk fd1 (tables_left_Ok _ Hleft)) as [Hleft' Hsame'].
  split; [exact Hleft' | exact (same_pages_trans _ _ _ Hsame Hsame')].
Qed.

Lemma iterate_left {A : Type} (body : A -> collector unit) :
  (forall x fd, tables_ok fd -> left_in_order fd (body x fd)) ->
  forall l fd, tables_ok fd -> left_in_order fd (iterate body l fd).
Proof.
  intros Hbody l. induction l as [|x l IH]; intros fd Hok.
  - apply left_returns. exact Hok.
  - cbn [iterate]. apply left_then; [apply Hbody | exact IH | exact Hok].
Qed.

Section CollectPage.

Variable DOMAIN : str.
Variable get_ep_object_properties : str -> result str.

Lemma embedded_body_left (a : attrs) (fd : fileDict) :
  tables_ok fd ->
  left_in_order fd
    (get_embedded_object_body DOMAIN get_ep_object_properties a fd).
Proof.
  intros Hok.
  unfold get_embedded_object_body, bindC, lift, read, update, ret.
  destruct (getitem a "href") as [href|e]; [|apply left_raises; exact Hok].
  destruct (0 <? find href "d2lfile"); [|apply left_returns; exact Hok].
  destruct (get_epo_id href) as [epoId|e]; [|apply left_raises; exact Hok].
  destruct (mem epoId (fileIds fd)) eqn:Em; cbn [negb];
    [apply left_returns; exact Hok|].
  pose proof (left_new_file fd epoId (DOMAIN ++ href)
                (get_ep_object_properties epoId) Hok Em) as Hnew.
  destruct (get_ep_object_properties epoId); exact Hnew.
Qed.

Lemma css_body_left (link : attrs) (fd : fileDict) :
  tables_ok fd -> left_in_order fd (get_css_body DOMAIN link fd).
Proof.
  intros Hok. unfold get_css_body, bindC, lift, read, update, ret.
  destruct (getitem link "type") as [type|e]; [|apply left_raises; exact Hok].
  destruct (eqb type "text/css"); [|apply left_returns; exact Hok].
  destruct (getitem link "href") as [href|e]; [|apply left_raises; exact Hok].
  cbv zeta.
  destruct (mem (DOMAIN ++ href) (cssUrls fd)) eqn:Em; cbn [negb];
    [apply left_returns; exact Hok|].
  apply left_new_css; assumption.
Qed.

Lemma img_body_left (img : attrs) (fd : fileDict) :
  tables_ok fd ->
  left_in_order fd (get_img_body DOMAIN get_ep_object_properties img fd).
Proof.
  intros Hok. unfold get_img_body, bindC, lift, read, update, ret.
  destruct (getitem img "src") as [src|e]; [|apply left_raises; exact Hok].
  destruct (find src "d2lFile" <? 0); cbv zeta.
  - destruct (mem (DOMAIN ++ src) (imgUrls fd)) eqn:Em; cbn [negb];
      [apply left_returns; exact Hok|].
    apply left_new_img; assumption.
  - destruct (get_epo_id src) as [epoId|e]; [|apply left_raises; exact Hok].
    destruct (mem epoId (fileIds fd)) eqn:Em; cbn [negb];
      [apply left_returns; exact Hok|].
    pose proof (left_new_file fd epoId (DOMAIN ++ src)
                  (get_ep_object_properties epoId) Hok Em) as Hnew.
    destruct (get_ep_object_properties epoId); exact Hnew.
Qed.

(** However the collectors of a page end, returning or raising, they
    leave the asset tables in this order: no file id, stylesheet URL or
    image URL is entered twice, [fileUrls] has one row per file id and
    [cssFileNames] one per stylesheet URL, and the page tables and
    [imgFileNames] are as they were.  [fileNames] has one row per file id
    when the call returns; when it raises, the row of the last file id
    may be missing, the id and the URL being appended before the lookup
    of the name. *)
Theorem collect_page_keeps_tables (d : soup) (fd : fileDict) :
  tables_ok fd ->
  tables_left (fst (collect_page DOMAIN get_ep_object_properties d fd))
    (snd (collect_page DOMAIN get_ep_object_properties d fd)) /\
  same_pages fd (fst (collect_page DOMAIN get_ep_object_properties d fd)).
Proof.
  intros Hok. unfold collect_page.
  apply left_then; [| |exact Hok].
  - intros fd0. apply iterate_left. intros x fd1. apply embedded_body_left.
  - apply left_then.
    + intros fd0. apply iterate_left. intros x fd1. apply css_body_left.
    + intros fd0. apply iterate_left. intros x fd1. apply img_body_left.
Qed.

(** Collecting the resources of the same page a second time changes
    nothing and asks the metadata service nothing. *)
Theorem collect_page_twice (d : soup) (fd fd' : fileDict) :
  returned (collect_page DOMAIN get_ep_object_properties d fd) = Ok fd' ->
  returned (collect_page DOMAIN (fun _ => Raise OtherError) d fd') = Ok fd'.
Proof.
  intros H. rewrite collect_page_value in H.
  destruct (returned (get_embedded_object DOMAIN get_ep_object_properties d fd))
    as [fd1|] eqn:E1; cbn [bind] in H; [|discriminate].
  destruct (returned (get_css DOMAIN d fd1)) as [fd2|] eqn:E2; cbn [bind] in H;
    [|discriminate].
  destruct (get_embedded_object_settles _ _ _ _ _ E1) as [_ F1].
  destruct (get_css_settles _ _ _ _ E2) as [X12 F2].
  destruct (get_img_settles _ _ _ _ _ H) as [X23 F3].
  assert (Hlookup : forall a fd0,
             value_of (get_embedded_object_body DOMAIN get_ep_object_properties) fd0 a = Ok fd0 ->
             value_of (get_embedded_object_body DOMAIN (fun _ => Raise OtherError)) fd0 a = Ok fd0).
  { intros a fd0. rewrite !embedded_body_value.
    destruct (getitem a "href") as [href|]; cbn [bind]; [|discriminate].
    destruct (0 <? find href "d2lfile"); [|auto].
    destruct (get_epo_id href) as [epoId|]; cbn [bind]; [|discriminate].
    destruct (mem epoId (fileIds fd0)); cbn [negb]; [auto|].
    destruct (get_ep_object_properties epoId); cbn [bind]; [|discriminate].
    intros H0. injection H0 as H0. apply (f_equal fileIds) in H0. simpl in H0.
    exfalso. exact (snoc_neq _ _ H0). }
  assert (Hlookup' : forall a fd0,
             value_of (get_img_body DOMAIN get_ep_object_properties) fd0 a = Ok fd0 ->
             value_of (get_img_body DOMAIN (fun _ => Raise OtherError)) fd0 a = Ok fd0).
  { intros a fd0. rewrite !img_body_value.
    destruct (getitem a "src") as [src|]; cbn [bind]; [|discriminate].
    destruct (find src "d2lFile" <? 0); [auto|]. cbv zeta.
    destruct (get_epo_id src) as [epoId|]; cbn [bind]; [|discriminate].
    destruct (mem epoId (fileIds fd0)); cbn [negb]; [auto|].
    destruct (get_ep_object_properties epoId); cbn [bind]; [|discriminate].
    intros H0. injection H0 as H0. apply (f_equal fileIds) in H0. simpl in H0.
    exfalso. exact (snoc_neq _ _ H0). }
  rewrite collect_page_value, get_embedded_object_value.
  rewrite foldM_fixed; cbn [bind].
  - rewrite get_css_value, foldM_fixed; cbn [bind].
    + rewrite get_img_value. apply foldM_fixed.
      intros a Ha. apply Hlookup'. exact (F3 a Ha).
    + intros a Ha. exact (css_body_stable _ _ _ _ _ (F2 a Ha) X23).
  - intros a Ha. apply Hlookup.
    exact (embedded_body_stable _ _ _ _ _ _ (F1 a Ha)
             (extends_trans _ _ _ X12 X23)).
Qed.

End CollectPage.

Lemma collect_page_keeps_tables_witness :
  tables_left fd_object_without_name (Raise NameError) /\
  same_pages make_file_dict fd_object_without_name.
Proof.
  apply (collect_page_keeps_tables DOMAIN_source d2lepoexport_unbound
           doc_same_object make_file_dict).
  repeat split; constructor.
Defined.

Lemma collect_page_twice_witness :
  returned (collect_page DOMAIN_source (fun _ => Raise OtherError)
              doc_formatting_page fd_formatting_page) =
  Ok fd_formatting_page.
Proof.
  apply (collect_page_twice DOMAIN_source d2lepoexport_unbound
           doc_formatting_page make_file_dict fd_formatting_page).
  vm_compute; reflexivity.
Defined.

(** ** Embedded assets in the module as it is *)

Section EmbeddedAssets.

Variable DOMAIN : str.

Lemma not_In_mem (x : str) (l : list str) : ~ In x l -> mem x l = false.
Proof.
  intros H. destruct (mem x l) eqn:E; [|reflexivity].
  exfalso. apply H. apply mem_In. exact E.
Qed.

(** One turn of [get_embedded_object] on an anchor of a new embedded
    object. *)
Lemma embedded_body_unbound_new (a : attrs) (fd : fileDict)
  (href epoId : str) :
  get_attr a "href" = Some href -> 0 < find href "d2lfile" ->
  get_epo_id href = Ok epoId -> ~ In epoId (fileIds fd) ->
  get_embedded_object_body DOMAIN d2lepoexport_unbound a fd =
  (append_fileUrls (DOMAIN ++ href) (append_fileIds epoId fd),
   Raise NameError).
Proof.
  intros Hhref Hfind Hid Hnew.
  apply getitem_Ok in Hhref. apply Z.ltb_lt in Hfind.
  apply not_In_mem in Hnew.
  unfold get_embedded_object_body, bindC, lift, read, update, ret.
  rewrite Hhref, Hfind, Hid, Hnew. reflexivity.
Qed.

Lemma img_body_unbound_new (img : attrs) (fd : fileDict) (src epoId : str) :
  get_attr img "src" = Some src -> 0 <= find src "d2lFile" ->
  get_epo_id src = Ok epoId -> ~ In epoId (fileIds fd) ->
  get_img_body DOMAIN d2lepoexport_unbound img fd =
  (append_fileUrls (DOMAIN ++ src) (append_fileIds epoId fd),
   Raise NameError).
Proof.
  intros Hsrc Hfind Hid Hnew.
  apply getitem_Ok in Hsrc. apply not_In_mem in Hnew.
  assert (Hlt : (find src "d2lFile" <? 0) = false) by (apply Z.ltb_ge; lia).
  unfold get_img_body, bindC, lift, read, update, ret.
  rewrite Hsrc, Hlt, Hid, Hnew. reflexivity.
Qed.

(** What every turn does to the file tables. *)
Lemma embedded_body_unbound (a : attrs) (fd : fileDict) :
  fileNames (fst (get_embedded_object_body DOMAIN d2lepoexport_unbound a fd)) =
  fileNames fd /\
  forall fd', get_embedded_object_body DOMAIN d2lepoexport_unbound a fd =
              (fd', Ok tt) -> fd' = fd.
Proof.
  unfold get_embedded_object_body, bindC, lift, read, update, ret.
  destruct (getitem a "href") as [href|e];
    [|split; [reflexivity | discriminate]].
  destruct (0 <? find href "d2lfile");
    [|split; [reflexivity | intros fd' H; injection H as <-; reflexivity]].
  destruct (get_epo_id href) as [epoId|e];
    [|split; [reflexivity | discriminate]].
  destruct (mem epoId (fileIds fd)); cbn [negb];
    [split; [reflexivity | intros fd' H; injection H as <-; reflexivity]|].
  split; [reflexivity | discriminate].
Qed.

Lemma img_body_unbound (img : attrs) (fd : fileDict) :
  fileNames (fst (get_img_body DOMAIN d2lepoexport_unbound img fd)) =
  fileNames fd /\
  forall fd', get_img_body DOMAIN d2lepoexport_unbound img fd = (fd', Ok tt) ->
              fileIds fd' = fileIds fd /\ fileUrls fd' = fileUrls fd.
Proof.
  unfold get_img_body, bindC, lift, read, update, ret.
  destruct (getitem img "src") as [src|e];
    [|split; [reflexivity | discriminate]].
  destruct (find src "d2lFile" <? 0); cbv zeta.
  - destruct (mem (DOMAIN ++ src) (imgUrls fd)); cbn [negb];
      (split; [reflexivity | intros fd' H; injection H as <-; split; reflexivity]).
  - destruct (get_epo_id src) as [epoId|e];
      [|split; [reflexivity | discriminate]].
    destruct (mem epoId (fileIds fd)); cbn [negb];
      [split; [reflexivity
              | intros fd' H; injection H as <-; split; reflexivity]|].
    split; [reflexivity | discriminate].
Qed.

Lemma iterate_unchanged {A B : Type} (body : A -> collector unit)
  (table : fileDict -> B) :
  (forall x fd fd', body x fd = (fd', Ok tt) -> table fd' = table fd) ->
  forall l fd fd', iterate body l fd = (fd', Ok tt) -> table fd' = table fd.
Proof.
  intros Hbody l. induction l as [|x l IH]; intros fd fd' H.
  - injection H as <-. reflexivity.
  - cbn [iterate] in H. unfold bindC in H.
    destruct (body x fd) as [fd1 [[]|e]] eqn:E; [|discriminate].
    rewrite (IH _ _ H). exact (Hbody _ _ _ E).
Qed.

Lemma iterate_left_unchanged {A B : Type} (body : A -> collector unit)
  (table : fileDict -> B) :
  (forall x fd, table (fst (body x fd)) = table fd) ->
  forall l fd, table (fst (iterate body l fd)) = table fd.
Proof.
  intros Hbody l. induction l as [|x l IH]; intros fd; [reflexivity|].
  cbn [iterate]. unfold bindC. specialize (Hbody x fd).
  destruct (body x fd) as [fd1 [[]|e]]; cbn [fst] in *.
  - rewrite IH. exact Hbody.
  - exact Hbody.
Qed.

(** C8 (the code does not do it).  In the module as it is, the lookup
    of the file name of an embedded object raises NameError, after the
    id and the URL of the object have been appended to [fileIds] and
    [fileUrls]: no call of [get_embedded_object] or of [get_img] ever
    appends to [fileNames]; a call that returns has entered no embedded
    object; and on the first anchor, or the first image, of an embedded
    object whose id is not in [fileIds] the call raises NameError and
    leaves [fileIds] and [fileUrls] one row ahead of [fileNames]. *)
Theorem embedded_asset_entry_is_never_completed :
  (forall (d : soup) (fd : fileDict),
      fileNames (fst (get_embedded_object DOMAIN d2lepoexport_unbound d fd)) =
      fileNames fd /\
      fileNames (fst (get_img DOMAIN d2lepoexport_unbound d fd)) =
      fileNames fd) /\
  (forall (d : soup) (fd fd' : fileDict),
      (get_embedded_object DOMAIN d2lepoexport_unbound d fd = (fd', Ok tt) ->
       fd' = fd) /\
      (get_img DOMAIN d2lepoexport_unbound d fd = (fd', Ok tt) ->
       fileIds fd' = fileIds fd /\ fileUrls fd' = fileUrls fd)) /\
  (forall (d : soup) (fd fd1 : fileDict) (before after : list attrs)
          (a : attrs) (href epoId : str),
      find_all (named "a") d = before ++ a :: after ->
      iterate (get_embedded_object_body DOMAIN d2lepoexport_unbound) before fd =
      (fd1, Ok tt) ->
      get_attr a "href" = Some href -> 0 < find href "d2lfile" ->
      get_epo_id href = Ok epoId -> ~ In epoId (fileIds fd1) ->
      get_embedded_object DOMAIN d2lepoexport_unbound d fd =
      (append_fileUrls (DOMAIN ++ href) (append_fileIds epoId fd1),
       Raise NameError)) /\
  (forall (d : soup) (fd fd1 : fileDict) (before after : list attrs)
          (img : attrs) (src epoId : str),
      find_all (named "img") d = before ++ img :: after ->
      iterate (get_img_body DOMAIN d2lepoexport_unbound) before fd =
      (fd1, Ok tt) ->
      get_attr img "src" = Some src -> 0 <= find src "d2lFile" ->
      get_epo_id src = Ok epoId -> ~ In epoId (fileIds fd1) ->
      get_img DOMAIN d2lepoexport_unbound d fd =
      (append_fileUrls (DOMAIN ++ src) (append_fileIds epoId fd1),
       Raise NameError)).
Proof.
  split; [|split; [|split]].
  - intros d fd. split.
    + apply (iterate_left_unchanged _ fileNames).
      intros x fd0. exact (proj1 (embedded_body_unbound x fd0)).
    + apply (iterate_left_unchanged _ fileNames).
      intros x fd0. exact (proj1 (img_body_unbound x fd0)).
  - intros d fd fd'. split; intros H.
    + revert H. apply (iterate_unchanged _ (fun fd0 => fd0)).
      intros x fd0 fd1. exact (proj2 (embedded_body_unbound x fd0) fd1).
    + split; revert H.
      * apply (iterate_unchanged _ fileIds). intros x fd0 fd1 H.
        exact (proj1 (proj2 (img_body_unbound x fd0) fd1 H)).
      * apply (iterate_unchanged _ fileUrls). intros x fd0 fd1 H.
        exact (proj2 (proj2 (img_body_unbound x fd0) fd1 H)).
  - intros d fd fd1 before after a href epoId Hsplit Hbefore Hhref Hfind
           Hid Hnew.
    unfold get_embedded_object. rewrite Hsplit, iterate_app, Hbefore.
    cbn [iterate]. unfold bindC.
    rewrite (embedded_body_unbound_new a fd1 href epoId) by assumption.
    reflexivity.
  - intros d fd fd1 before after img src epoId Hsplit Hbefore Hsrc Hfind
           Hid Hnew.
    unfold get_img. rewrite Hsplit, iterate_app, Hbefore.
    cbn [iterate]. unfold bindC.
    rewrite (img_body_unbound_new img fd1 src epoId) by assumption.
    reflexivity.
Qed.

End EmbeddedAssets.

Lemma embedded_asset_entry_is_never_completed_witness :
  get_embedded_object DOMAIN_source d2lepoexport_unbound doc_same_object
    make_file_dict =
  (fd_object_without_name, Raise NameError) /\
  fileIds fd_object_without_name = [lit "9001"] /\
  fileNames fd_object_without_name = [] /\
  get_img DOMAIN_source d2lepoexport_unbound doc_same_object
    fd_object_without_name =
  (fd_object_without_name, Ok tt).
Proof.
  destruct (embedded_asset_entry_is_never_completed DOMAIN_source)
    as [_ [_ [Hanchor _]]].
  split; [|repeat split].
  apply (Hanchor doc_same_object make_file_dict make_file_dict []
           [] [(lit "href", lit "/d2l/eP/viewFile.d2lfile?contextId=9001&v=1")]
           "/d2l/eP/viewFile.d2lfile?contextId=9001&v=1" "9001").
  - reflexivity.
  - reflexivity.
  - reflexivity.
  - vm_compute. reflexivity.
  - reflexivity.
  - simpl. tauto.
Defined.

(** ** [strip_script], as a function of the document *)

Lemma outer_scripts_cons (c : node) (l : list node) :
  outer_scripts (c :: l) = (outer_scripts_of c + outer_scripts l)%nat.
Proof. reflexivity. Qed.

Lemma without_scripts_cons (c : node) (l : list node) :
  without_scripts (c :: l) = without_scripts_of c ++ without_scripts l.
Proof. reflexivity. Qed.

(** What one removal does to the count of outer script tags and to the
    document without its scripts, for one node. *)
Definition removal_step (c : node) : Prop :=
  (decompose_node c = NotFound ->
   outer_scripts_of c = O /\ without_scripts_of c = [c]) /\
  (forall c', decompose_node c = Inside c' ->
              outer_scripts_of c = S (outer_scripts_of c') /\
              without_scripts_of c = without_scripts_of c').

Lemma decompose_in_step (l : list node) :
  Forall removal_step l ->
  (decompose_in decompose_node l = None ->
   outer_scripts l = O /\ without_scripts l = l) /\
  (forall l', decompose_in decompose_node l = Some l' ->
              outer_scripts l = S (outer_scripts l') /\
              without_scripts l = without_scripts l').
Proof.
  induction 1 as [|c l [Hnot Hin] _ [IHnone IHsome]].
  - split; [intros _; split; reflexivity | discriminate].
  - cbn [decompose_in]. rewrite outer_scripts_cons, without_scripts_cons.
    destruct (decompose_node c) as [| |c1] eqn:Ec.
    + destruct (Hnot eq_refl) as [H0 Hw]. rewrite H0, Hw.
      destruct (decompose_in decompose_node l) as [l''|].
      * split; [discriminate|]. intros l' H. injection H as <-.
        destruct (IHsome _ eq_refl) as [Ho Hws].
        rewrite outer_scripts_cons, without_scripts_cons, H0, Hw, Ho, Hws.
        split; reflexivity.
      * split; [|discriminate]. intros _.
        destruct (IHnone eq_refl) as [Ho Hws]. rewrite Ho, Hws.
        split; reflexivity.
    + destruct (decompose_node_Gone _ Ec) as [name [a [contents [-> Es]]]].
      split; [discriminate|]. intros l' H. injection H as <-.
      cbn [outer_scripts_of without_scripts_of]. rewrite Es.
      split; reflexivity.
    + split; [discriminate|]. intros l' H. injection H as <-.
      destruct (Hin _ eq_refl) as [Ho Hws].
      rewrite outer_scripts_cons, without_scripts_cons, Ho, Hws.
      split; reflexivity.
Qed.

Lemma decompose_node_step (n : node) : removal_step n.
Proof.
  induction n as [s|name a contents IH] using node_induction.
  - split; [intros _; split; reflexivity | discriminate].
  - destruct (decompose_in_step contents IH) as [Hnone Hsome].
    unfold removal_step. cbn [decompose_node outer_scripts_of without_scripts_of].
    destruct (eqb name "script") eqn:Es; [split; discriminate|].
    fold (outer_scripts contents). fold (without_scripts contents).
    destruct (decompose_in decompose_node contents) as [contents'|].
    + split; [discriminate|]. intros c' H. injection H as <-.
      destruct (Hsome _ eq_refl) as [Ho Hws].
      cbn [outer_scripts_of without_scripts_of]. rewrite Es.
      fold (outer_scripts contents'). fold (without_scripts contents').
      rewrite Ho, Hws. split; reflexivity.
    + split; [|discriminate]. intros _.
      destruct (Hnone eq_refl) as [Ho Hws].
      rewrite Ho, Hws. split; reflexivity.
Qed.

Lemma decompose_script_step (d : soup) :
  (decompose_script d = None ->
   outer_scripts d = O /\ without_scripts d = d) /\
  (forall d', decompose_script d = Some d' ->
              outer_scripts d = S (outer_scripts d') /\
              without_scripts d = without_scripts d').
Proof.
  apply decompose_in_step. apply Forall_forall. intros c _.
  apply decompose_node_step.
Qed.

Lemma without_scripts_fixed (d : soup) :
  outer_scripts d = O -> without_scripts d = d.
Proof.
  intros H. destruct (decompose_script_step d) as [Hnone Hsome].
  destruct (decompose_script d) as [d'|].
  - destruct (Hsome _ eq_refl) as [Ho _]. congruence.
  - exact (proj2 (Hnone eq_refl)).
Qed.

Lemma strip_loop_outcome (n : nat) (d : soup) :
  strip_loop n d =
  if (n <=? outer_scripts d)%nat
  then match strip_loop n d with
       | Ok d' => Ok d'
       | Raise e => Raise e
       end
  else Raise AttributeError.
Proof.
  revert d. induction n as [|n IH]; intros d.
  - reflexivity.
  - cbn [strip_loop]. destruct (decompose_script_step d) as [Hnone Hsome].
    destruct (decompose_script d) as [d1|].
    + destruct (Hsome _ eq_refl) as [Ho _]. rewrite Ho.
      change (S n <=? S (outer_scripts d1))%nat
        with (n <=? outer_scripts d1)%nat.
      exact (IH d1).
    + destruct (Hnone eq_refl) as [Ho _]. rewrite Ho. reflexivity.
Qed.

Lemma strip_loop_returns (n : nat) (d : soup) :
  (n <= outer_scripts d)%nat ->
  exists d', strip_loop n d = Ok d' /\
             outer_scripts d = (n + outer_scripts d')%nat /\
             without_scripts d' = without_scripts d.
Proof.
  revert d. induction n as [|n IH]; intros d Hn.
  - exists d. repeat split.
  - cbn [strip_loop]. destruct (decompose_script_step d) as [Hnone Hsome].
    destruct (decompose_script d) as [d1|].
    + destruct (Hsome _ eq_refl) as [Ho Hws].
      destruct (IH d1) as [d' [E [Ho' Hws']]]; [lia|].
      exists d'. split; [exact E|]. split; [lia | congruence].
    + destruct (Hnone eq_refl) as [Ho _]. lia.
Qed.

Lemma outer_scripts_le (d : soup) :
  (outer_scripts d <= scripts (tags d))%nat.
Proof.
  assert (Hnode : forall n, (outer_scripts_of n <= scripts (tags_of n))%nat).
  { induction n as [s|name a contents IH] using node_induction;
      [apply Nat.le_refl|].
    cbn [outer_scripts_of tags_of]. rewrite scripts_cons.
    destruct (eqb name "script"); [lia|].
    fold (outer_scripts contents). cbn [Nat.add].
    induction IH as [|c l Hc _ IHl]; [apply Nat.le_0_l|].
    rewrite outer_scripts_cons. cbn [flat_map]. rewrite scripts_app. lia. }
  induction d as [|c d IH]; [apply Nat.le_refl|].
  rewrite outer_scripts_cons. unfold tags in *. cbn [flat_map].
  rewrite scripts_app. specialize (Hnode c). lia.
Qed.

Lemma without_scripts_no_script (d : soup) :
  scripts (tags (without_scripts d)) = O.
Proof.
  assert (Hnode : forall n, scripts (tags (without_scripts_of n)) = O).
  { induction n as [s|name a contents IH] using node_induction;
      [reflexivity|].
    cbn [without_scripts_of]. destruct (eqb name "script") eqn:Es;
      [reflexivity|].
    unfold tags. cbn [flat_map tags_of]. rewrite app_nil_r, scripts_cons, Es.
    cbn [Nat.add].
    induction IH as [|c l Hc _ IHl]; [reflexivity|].
    cbn [flat_map]. rewrite flat_map_app, scripts_app.
    unfold tags in Hc. rewrite Hc, IHl. reflexivity. }
  unfold without_scripts, tags.
  induction d as [|c d IH]; [reflexivity|].
  cbn [flat_map]. rewrite flat_map_app, scripts_app.
  unfold tags in Hnode. rewrite Hnode, IH. reflexivity.
Qed.

(** [strip_script] returns the document without its script tags when no
    script tag lies inside another one, and raises AttributeError when one
    does: the loop then runs once for every script tag found, and no
    script tag is left for its last turns.  The document returned holds
    no script tag. *)
Theorem strip_script_outcome (d : soup) :
  strip_script d =
  (if (scripts (tags d) =? outer_scripts d)%nat
   then Ok (without_scripts d)
   else Raise AttributeError) /\
  find_all (named "script") (without_scripts d) = [].
Proof.
  split.
  - unfold strip_script. rewrite find_all_scripts.
    pose proof (outer_scripts_le d) as Hle.
    destruct (scripts (tags d) =? outer_scripts d)%nat eqn:E.
    + apply Nat.eqb_eq in E.
      destruct (strip_loop_returns (scripts (tags d)) d) as [d' [H [Ho Hws]]];
        [lia|].
      rewrite H. f_equal. rewrite <- Hws. symmetry.
      apply without_scripts_fixed. lia.
    + apply Nat.eqb_neq in E. rewrite strip_loop_outcome.
      destruct (scripts (tags d) <=? outer_scripts d)%nat eqn:E';
        [|reflexivity].
      apply Nat.leb_le in E'. lia.
  - apply length_zero_iff_nil. rewrite find_all_scripts.
    apply without_scripts_no_script.
Qed.

(** ** [update_css_file], line by line *)

Section CssLines.

Variable DOMAIN : str.
Variable urlretrieve : str -> str -> result unit.
Variable cssUrl : str.

Lemma update_css_line_Ok (st st' : css_state) (line : str) :
  update_css_line DOMAIN urlretrieve cssUrl st line = Ok st' ->
  exists out p r,
    written st' = written st ++ [out] /\
    printed st' = printed st ++ p /\
    retrieved st' = retrieved st ++ r /\
    css_line_written DOMAIN cssUrl line out /\
    (List.length p + List.length r)%nat = url_lines [line] /\
    Forall (fun e => e = HTTPError) p /\
    Forall (fun f => snd f = tail_name (fst f)) r.
Proof.
  unfold update_css_line, url_lines, css_line_written. cbn [filter].
  destruct (find line "url(" =? -1) eqn:Ef; cbn [negb].
  - apply Z.eqb_eq in Ef. intros H. injection H as <-.
    exists line, [], []. cbn [written printed retrieved].
    rewrite !app_nil_r. repeat split; auto. intros Hne. contradiction.
  - apply Z.eqb_neq in Ef.
    destruct (resolve_css_url DOMAIN cssUrl (url_argument line))
      as [address|] eqn:Ea; cbn [bind]; [|discriminate].
    destruct (urlretrieve address (tail_name address)) as [u|e] eqn:Eu.
    + cbn [bind]. intros H. injection H as <-.
      exists (substitute line (tail_name address)), [],
        [(address, tail_name address)].
      cbn [written printed retrieved]. rewrite !app_nil_r.
      repeat split; auto.
      * intros Hc. contradiction.
      * intros _. exists address. split; reflexivity.
    + destruct e; cbn [bind]; try discriminate.
      intros H. injection H as <-.
      exists (substitute line (tail_name address)), [HTTPError], [].
      cbn [written printed retrieved]. rewrite !app_nil_r.
      repeat split; auto.
      * intros Hc. contradiction.
      * intros _. exists address. split; reflexivity.
Qed.

Lemma url_lines_cons (line : str) (temp : list str) :
  url_lines (line :: temp) = (url_lines [line] + url_lines temp)%nat.
Proof.
  unfold url_lines. cbn [filter].
  destruct (negb (find line "url(" =? -1)); reflexivity.
Qed.

Lemma update_css_lines_Ok (temp : list str) (st st' : css_state) :
  foldM (update_css_line DOMAIN urlretrieve cssUrl) temp st = Ok st' ->
  exists outs p r,
    written st' = written st ++ outs /\
    printed st' = printed st ++ p /\
    retrieved st' = retrieved st ++ r /\
    Forall2 (css_line_written DOMAIN cssUrl) temp outs /\
    (List.length p + List.length r)%nat = url_lines temp /\
    Forall (fun e => e = HTTPError) p /\
    Forall (fun f => snd f = tail_name (fst f)) r.
Proof.
  revert st. induction temp as [|line temp IH]; intros st H; cbn [foldM] in H.
  - injection H as <-. exists [], [], []. rewrite !app_nil_r.
    repeat split; constructor.
  - destruct (update_css_line DOMAIN urlretrieve cssUrl st line)
      as [st1|] eqn:E1; cbn [bind] in H; [|discriminate].
    destruct (update_css_line_Ok _ _ _ E1)
      as [out [p1 [r1 [Hw1 [Hp1 [Hr1 [Hout [Hn1 [Hf1 Hg1]]]]]]]]].
    destruct (IH _ H) as [outs [p [r [Hw [Hp [Hr [Houts [Hn [Hf Hg]]]]]]]]].
    exists (out :: outs), (p1 ++ p), (r1 ++ r).
    rewrite Hw, Hp, Hr, Hw1, Hp1, Hr1, <- !app_assoc.
    repeat split.
    + constructor; assumption.
    + rewrite url_lines_cons, !length_app. lia.
    + apply Forall_app. split; assumption.
    + apply Forall_app. split; assumption.
Qed.

(** When [update_css_file] returns, it has written one line for every
    line of the file fetched, in order: a line without "url(" as it was,
    a line with one with the file name of the address in the place of the
    argument.  Every line with "url(" gave one download or one printed
    HTTPError, nothing else is printed, and every download went to the
    file named after its address. *)
Theorem update_css_file_line_by_line (temp : list str) (st : css_state) :
  update_css_file DOMAIN urlretrieve cssUrl temp = Ok st ->
  Forall2 (css_line_written DOMAIN cssUrl) temp (written st) /\
  (List.length (printed st) + List.length (retrieved st))%nat = url_lines temp /\
  Forall (fun e => e = HTTPError) (printed st) /\
  Forall (fun f => snd f = tail_name (fst f)) (retrieved st).
Proof.
  unfold update_css_file. intros H.
  destruct (update_css_lines_Ok _ _ _ H)
    as [outs [p [r [Hw [Hp [Hr [Houts [Hn [Hf Hg]]]]]]]]].
  cbn [written printed retrieved app] in Hw, Hp, Hr.
  rewrite Hw, Hp, Hr. auto.
Qed.

End CssLines.

Lemma update_css_file_line_by_line_witness :
  Forall2 (css_line_written "https://example.org"
             "https://example.org/css/theme.css")
    [lit "a {}"; lit "b { background: url(/images/bg.png); }"; lit "c {}"]
    [lit "a {}"; lit "b { background: url(bg.png); }"; lit "c {}"] /\
  (1 + 0)%nat =
    url_lines
      [lit "a {}"; lit "b { background: url(/images/bg.png); }"; lit "c {}"] /\
  Forall (fun e => e = HTTPError) [HTTPError] /\
  Forall (fun f : str * str => snd f = tail_name (fst f)) [].
Proof.
  apply (update_css_file_line_by_line "https://example.org" fetch_http_error
           "https://example.org/css/theme.css"
           [lit "a {}"; lit "b { background: url(/images/bg.png); }";
            lit "c {}"]
           (mkCssState
              [lit "a {}"; lit "b { background: url(bg.png); }"; lit "c {}"]
              [HTTPError] [])).
  vm_compute; reflexivity.
Defined.
